(** * Autopoiesis simulation: the reaction and bonding engine

    A shallow embedding of [autopoiesis-simulacao.py].  The Python program
    keeps its particles as heap objects that point at one another through
    their [connections] lists, so the embedding has an explicit object heap:
    a particle reference is an index into the heap, and every update of a
    particle that Python performs through a reference is an [alter] of the
    heap at that index.

    Numbers.  Positions, velocities, forces and random draws are Python
    floats.  The engine is written once over an interface [PyFloat] of the
    float operations the program uses; the interface is instantiated twice:
    by the binary64 floats of the kernel (what Python computes with), used to
    run the engine on concrete states, and by the real numbers, used for the
    geometric statements, where rounding is left out.

    Squares.  The program and pymunk square with [x ** 2], which is the C
    library's [pow(x, 2.0)], not a product: its rounding is the library's.
    The interface has the square as an operation of its own, [fpow2], so
    that what is proved for every [PyFloat] holds whatever the library
    rounds to.

    Exceptions.  The functions that can fail in [list.remove] return an
    [option], and [None] is the [ValueError].  Two other ways the program
    can stop are outside the model: the [OverflowError] that [**] raises
    when a square is out of range, and the drawing calls of the main loop,
    which convert coordinates with [int()] and touch nothing the engine
    reads.  A statement that a function of the model returns is a statement
    about [list.remove] and about the loops ending, for coordinates whose
    squares are in range.

    The physics engine.  What pymunk decides is an input of the model:
    where the bodies are after a step, which contacts begin and end in the
    step, and which contact the removal of a shape ends.  The callbacks it
    then makes into the program are part of the model. *)

From Stdlib Require Import ZArith Reals Lra Lia String.
From Stdlib Require Floats Uint63.
From stdpp Require Import base option list.

Local Open Scope Z_scope.

(** ** Python floats *)

Class PyFloat (F : Type) := {
  of_Z : Z -> F;              (* int -> float conversion *)
  fadd : F -> F -> F;
  fsub : F -> F -> F;
  fmul : F -> F -> F;
  fpow2 : F -> F;             (* x ** 2 *)
  fdiv : F -> F -> F;
  fneg : F -> F;
  fsqrt : F -> F;             (* math.sqrt *)
  fltb : F -> F -> bool;      (* a < b *)
  fleb : F -> F -> bool;      (* a <= b *)
  feqb : F -> F -> bool       (* a == b *)
}.

(** Conversion of a Python int to binary64 (exact below 2^53). *)
Definition float_of_Z (z : Z) : PrimFloat.float :=
  match z with
  | Z0 => PrimFloat.of_uint63 (Uint63.of_Z 0)
  | Zpos _ => PrimFloat.of_uint63 (Uint63.of_Z z)
  | Zneg p => PrimFloat.opp (PrimFloat.of_uint63 (Uint63.of_Z (Zpos p)))
  end.

(** binary64, with the square rounded as a product.  This is the value of
    [pow(x, 2.0)] wherever the square is a binary64 number, as it is at
    every coordinate of the example states below (integers and halves of
    integers below 1024); elsewhere a C library may round the other way. *)
#[export] Instance binary64 : PyFloat PrimFloat.float := {|
  of_Z := float_of_Z;
  fadd := PrimFloat.add;
  fsub := PrimFloat.sub;
  fmul := PrimFloat.mul;
  fpow2 := fun x => PrimFloat.mul x x;
  fdiv := PrimFloat.div;
  fneg := PrimFloat.opp;
  fsqrt := PrimFloat.sqrt;
  fltb := PrimFloat.ltb;
  fleb := PrimFloat.leb;
  feqb := PrimFloat.eqb
|}.

Definition Rltb (a b : R) : bool := if Rlt_dec a b then true else false.
Definition Rleb (a b : R) : bool := if Rle_dec a b then true else false.
Definition Reqb (a b : R) : bool := if Req_dec_T a b then true else false.

#[export] Instance ideal : PyFloat R := {|
  of_Z := IZR;
  fadd := Rplus;
  fsub := Rminus;
  fmul := Rmult;
  fpow2 := fun x => Rmult x x;
  fdiv := Rdiv;
  fneg := Ropp;
  fsqrt := R_sqrt.sqrt;
  fltb := Rltb;
  fleb := Rleb;
  feqb := Reqb
|}.

(** A decimal literal [n/d], e.g. [0.15] is [lit 15 100]: dividing two exactly
    represented integers rounds to the float nearest to the quotient, which
    is the float Python reads the literal as. *)
Definition lit {F} `{PyFloat F} (n d : Z) : F := fdiv (of_Z n) (of_Z d).

(** ** pymunk.Vec2d: the operations of the vector class the program calls *)

Module Vec2d.

Record t (F : Type) := mk { x : F; y : F }.
Arguments mk {F} _ _.
Arguments x {F} _.
Arguments y {F} _.

Section ops.
Context {F : Type} `{PyFloat F}.

Definition add (u v : t F) : t F := mk (fadd (x u) (x v)) (fadd (y u) (y v)).
Definition sub (u v : t F) : t F := mk (fsub (x u) (x v)) (fsub (y u) (y v)).
Definition scale (u : t F) (k : F) : t F := mk (fmul (x u) k) (fmul (y u) k).
Definition truediv (u : t F) (k : F) : t F := mk (fdiv (x u) k) (fdiv (y u) k).
Definition neg (u : t F) : t F := mk (fneg (x u)) (fneg (y u)).

(* math.sqrt(self.x ** 2 + self.y ** 2) *)
Definition length (u : t F) : F :=
  fsqrt (fadd (fpow2 (x u)) (fpow2 (y u))).

(* math.sqrt((self.x - other[0]) ** 2 + (self.y - other[1]) ** 2) *)
Definition get_distance (u v : t F) : F :=
  fsqrt (fadd (fpow2 (fsub (x u) (x v))) (fpow2 (fsub (y u) (y v)))).

(* length = self.length; self / length if length != 0 else Vec2d(0, 0) *)
Definition normalized (u : t F) : t F :=
  let len := length u in
  if negb (feqb len (of_Z 0)) then truediv u len else mk (of_Z 0) (of_Z 0).

End ops.
End Vec2d.

Abbreviation Vec2d := Vec2d.t.

(** ** Data model *)

Inductive ParticleType := SUBSTRATE | CATALYST | LINK.

Definition value (t : ParticleType) : Z :=
  match t with SUBSTRATE => 1 | CATALYST => 2 | LINK => 3 end.

#[export] Instance ParticleType_eq_dec : EqDecision ParticleType.
Proof. solve_decision. Defined.

(** A reference to a [Particle] object: its index in the heap. *)
Abbreviation pid := nat.

(** The pymunk shapes the program creates.  Every particle constructs one
    body shape of its own ([self.shape]); a LINK particle constructs one
    sensor circle more ([self.sensor]).  A shape object is therefore named
    by its owner and its role, and [==] on shapes is equality of names. *)
Inductive Shape := ShapeOf (i : pid) | SensorOf (i : pid).

#[export] Instance Shape_eq_dec : EqDecision Shape.
Proof. solve_decision. Defined.

Definition owner (sh : Shape) : pid :=
  match sh with ShapeOf i => i | SensorOf i => i end.

(** The part of a pymunk body the program reads or writes: position,
    velocity, and the forces handed to [apply_force_at_local_point]
    (force, local point) since the last step. *)
Record Body (F : Type) := mkBody {
  position : Vec2d F;
  velocity : Vec2d F;
  applied : list (Vec2d F * Vec2d F)
}.
Arguments mkBody {F} _ _ _.
Arguments position {F} _.
Arguments velocity {F} _.
Arguments applied {F} _.

Record Particle (F : Type) := mkParticle {
  type : ParticleType;
  radius : Z;
  body : Body F;
  connections : list pid;
  max_connections : Z;
  age : Z
}.
Arguments mkParticle {F} _ _ _ _ _ _.
Arguments type {F} _.
Arguments radius {F} _.
Arguments body {F} _.
Arguments connections {F} _.
Arguments max_connections {F} _.
Arguments age {F} _.

(** pymunk.DampedSpring(a, b, (0,0), (0,0), rest_length, stiffness, damping). *)
Record DampedSpring (F : Type) := mkSpring {
  spring_a : pid;
  spring_b : pid;
  rest_length : F;
  stiffness : Z;
  damping : Z
}.
Arguments mkSpring {F} _ _ _ _ _.
Arguments spring_a {F} _.
Arguments spring_b {F} _.
Arguments rest_length {F} _.
Arguments stiffness {F} _.
Arguments damping {F} _.

(** A reference to a [DampedSpring] object: its index among the springs
    constructed so far. *)
Abbreviation jid := nat.

(** What has been added to the pymunk space and not removed from it. *)
Record Space := mkSpace {
  shapes : list Shape;
  bodies : list pid;
  constraints : list jid
}.

Record Stats := mkStats {
  stat_substrate : nat;
  stat_links : nat;
  stat_bonds : nat
}.

(** An entry of [self.to_remove]: a pair (shape, bond), either of which may
    be [None]. *)
Definition Pending : Type := option Shape * option jid.

(** The state of an [AutopoiesisSimulation] object, with the [Particle] and
    [DampedSpring] objects constructed so far ([heap], [springs]) and the
    lines printed so far. *)
Record Simulation (F : Type) := mkSim {
  heap : list (Particle F);
  springs : list (DampedSpring F);
  space : Space;
  particles : list pid;
  bonds : list jid;
  to_remove : list Pending;
  stats : Stats;
  stdout : list string
}.
Arguments mkSim {F} _ _ _ _ _ _ _ _.
Arguments heap {F} _.
Arguments springs {F} _.
Arguments space {F} _.
Arguments particles {F} _.
Arguments bonds {F} _.
Arguments to_remove {F} _.
Arguments stats {F} _.
Arguments stdout {F} _.

(** Python's [list.remove(x)]: drop the first item equal to [x]; [None]
    stands for the [ValueError] raised when there is none. *)
Fixpoint list_remove (i : nat) (l : list nat) : option (list nat) :=
  match l with
  | [] => None
  | j :: l' => if decide (j = i) then Some l' else cons j <$> list_remove i l'
  end.

(** A list without the item [i]. *)
Definition without (i : nat) (l : list nat) : list nat :=
  List.filter (fun j => negb (bool_decide (j = i))) l.

(** ** The pymunk space

    [space.add] and [space.remove], as far as the program observes them:
    the space is the collection of what was handed to [space.add] and not to
    [space.remove].  pymunk holds back an add made while it runs a callback
    until the callback's step or removal is over; the model does not tell an
    add that is held back from one that is carried out. *)

Definition space_add_shape (sh : Shape) (sp : Space) : Space :=
  mkSpace (shapes sp ++ [sh]) (bodies sp) (constraints sp).
Definition space_add_body (i : pid) (sp : Space) : Space :=
  mkSpace (shapes sp) (bodies sp ++ [i]) (constraints sp).
Definition space_add_constraint (j : jid) (sp : Space) : Space :=
  mkSpace (shapes sp) (bodies sp) (constraints sp ++ [j]).
Definition space_remove_shape (sh : Shape) (sp : Space) : Space :=
  mkSpace (List.filter (fun sh' => negb (bool_decide (sh' = sh))) (shapes sp))
          (bodies sp) (constraints sp).
Definition space_remove_body (i : pid) (sp : Space) : Space :=
  mkSpace (shapes sp) (List.filter (fun j => negb (bool_decide (j = i))) (bodies sp))
          (constraints sp).
Definition space_remove_constraint (j : jid) (sp : Space) : Space :=
  mkSpace (shapes sp) (bodies sp)
          (List.filter (fun j' => negb (bool_decide (j' = j))) (constraints sp)).

(** ** The engine *)

Section Engine.
Context {F : Type} `{PyFloat F}.

(** Field updates. *)
Definition set_heap (h : list (Particle F)) (s : Simulation F) : Simulation F :=
  mkSim h (springs s) (space s) (particles s) (bonds s) (to_remove s) (stats s) (stdout s).
Definition set_springs (l : list (DampedSpring F)) (s : Simulation F) : Simulation F :=
  mkSim (heap s) l (space s) (particles s) (bonds s) (to_remove s) (stats s) (stdout s).
Definition set_space (sp : Space) (s : Simulation F) : Simulation F :=
  mkSim (heap s) (springs s) sp (particles s) (bonds s) (to_remove s) (stats s) (stdout s).
Definition set_particles (l : list pid) (s : Simulation F) : Simulation F :=
  mkSim (heap s) (springs s) (space s) l (bonds s) (to_remove s) (stats s) (stdout s).
Definition set_bonds (l : list jid) (s : Simulation F) : Simulation F :=
  mkSim (heap s) (springs s) (space s) (particles s) l (to_remove s) (stats s) (stdout s).
Definition set_to_remove (q : list Pending) (s : Simulation F) : Simulation F :=
  mkSim (heap s) (springs s) (space s) (particles s) (bonds s) q (stats s) (stdout s).
Definition set_stats (st : Stats) (s : Simulation F) : Simulation F :=
  mkSim (heap s) (springs s) (space s) (particles s) (bonds s) (to_remove s) st (stdout s).
Definition print (line : string) (s : Simulation F) : Simulation F :=
  mkSim (heap s) (springs s) (space s) (particles s) (bonds s) (to_remove s) (stats s)
        (stdout s ++ [line]).

Definition set_body (b : Body F) (p : Particle F) : Particle F :=
  mkParticle (type p) (radius p) b (connections p) (max_connections p) (age p).
Definition set_connections (l : list pid) (p : Particle F) : Particle F :=
  mkParticle (type p) (radius p) (body p) l (max_connections p) (age p).
Definition set_age (a : Z) (p : Particle F) : Particle F :=
  mkParticle (type p) (radius p) (body p) (connections p) (max_connections p) a.

Definition set_position (v : Vec2d F) (b : Body F) : Body F :=
  mkBody v (velocity b) (applied b).
Definition set_velocity (v : Vec2d F) (b : Body F) : Body F :=
  mkBody (position b) v (applied b).

(** [body.apply_force_at_local_point(force, point)]: the force is handed to
    the physics engine, which integrates it in its next step. *)
Definition apply_force_at_local_point (force point : Vec2d F) (b : Body F) : Body F :=
  mkBody (position b) (velocity b) (applied b ++ [(force, point)]).

(** Reads through a reference.  A reference that points outside the heap
    does not exist in Python; the reads give a default there. *)
Definition conn (h : list (Particle F)) (i : pid) : list pid :=
  from_option connections [] (h !! i).
Definition type_of (h : list (Particle F)) (i : pid) : option ParticleType :=
  type <$> h !! i.
Definition is_type (t : ParticleType) (h : list (Particle F)) (i : pid) : bool :=
  bool_decide (type_of h i = Some t).
Definition radius_of (h : list (Particle F)) (i : pid) : Z :=
  from_option radius 0 (h !! i).
Definition max_connections_of (h : list (Particle F)) (i : pid) : Z :=
  from_option max_connections 0 (h !! i).
Definition position_of (h : list (Particle F)) (i : pid) : Vec2d F :=
  from_option (fun p => position (body p)) (Vec2d.mk (of_Z 0) (of_Z 0)) (h !! i).

(** [hasattr(p, 'sensor')]: the constructor sets the attribute for LINK only. *)
Definition has_sensor (h : list (Particle F)) (i : pid) : bool := is_type LINK h i.

(** *** Particle.__init__ *)


(** The fields the constructor computes from its arguments. *)
Definition Particle_fields (px py : F) (particle_type : ParticleType) : Particle F :=
  mkParticle particle_type
    (if decide (particle_type <> CATALYST) then 8 else 12)
    (mkBody (Vec2d.mk px py) (Vec2d.mk (of_Z 0) (of_Z 0)) [])
    []
    (if decide (particle_type = LINK) then 2 else 0)
    0.

(** [Particle(x, y, space, particle_type)]: a new object on the heap, its
    sensor (LINK only), body and shape added to the space.  The result is
    the reference to the new object. *)
Definition Particle_init (px py : F) (particle_type : ParticleType)
    (s : Simulation F) : pid * Simulation F :=
  let self := List.length (heap s) in
  let sp := space s in
  let sp := if decide (particle_type = LINK)
            then space_add_shape (SensorOf self) sp else sp in
  let sp := space_add_shape (ShapeOf self) (space_add_body self sp) in
  (self, set_space sp (set_heap (heap s ++ [Particle_fields px py particle_type]) s)).

(** *** AutopoiesisSimulation *)

Definition width : Z := 800.
Definition height : Z := 800.

(* self.width / 2, self.height / 2 *)
Definition center : Vec2d F :=
  Vec2d.mk (fdiv (of_Z width) (of_Z 2)) (fdiv (of_Z height) (of_Z 2)).

Definition distance (pos1 pos2 : Vec2d F) : F :=
  fsqrt (fadd (fpow2 (fsub (Vec2d.x pos1) (Vec2d.x pos2)))
              (fpow2 (fsub (Vec2d.y pos1) (Vec2d.y pos2)))).

Definition create_link (pos : F * F) (s : Simulation F) : pid * Simulation F :=
  let '(link, s) := Particle_init (fst pos) (snd pos) LINK s in
  (link, set_particles (particles s ++ [link]) s).

Definition append_connection (q : pid) (p : Particle F) : Particle F :=
  set_connections (connections p ++ [q]) p.

Definition create_bond (p1 p2 : pid) (s : Simulation F) : Simulation F :=
  let joint := List.length (springs s) in
  let s := set_springs
             (springs s ++ [mkSpring p1 p2 (fmul (of_Z (radius_of (heap s) p1)) (lit 25 10)) 150 1])
             s in
  let s := set_space (space_add_constraint joint (space s)) s in
  let s := set_bonds (bonds s ++ [joint]) s in
  let s := set_heap (alter (append_connection p2) p1 (heap s)) s in
  set_heap (alter (append_connection p1) p2 (heap s)) s.

(** The catalyst in the middle, then [num_substrate] substrates.  The
    polar sample of each substrate is an input: [offsets k] is
    [(r * cos angle, r * sin angle)] of the k-th draw. *)
Definition num_substrate : nat := 300.

Fixpoint add_substrates (n k : nat) (offsets : nat -> F * F) (s : Simulation F)
    : Simulation F :=
  match n with
  | O => s
  | S n' =>
      let px := fadd (fdiv (of_Z width) (of_Z 2)) (fst (offsets k)) in
      let py := fadd (fdiv (of_Z height) (of_Z 2)) (snd (offsets k)) in
      let '(substrate, s) := Particle_init px py SUBSTRATE s in
      add_substrates n' (S k) offsets (set_particles (particles s ++ [substrate]) s)
  end.

Definition setup_simulation (offsets : nat -> F * F) (s : Simulation F) : Simulation F :=
  let '(catalyst, s) :=
    Particle_init (fdiv (of_Z width) (of_Z 2)) (fdiv (of_Z height) (of_Z 2)) CATALYST s in
  let s := set_particles (particles s ++ [catalyst]) s in
  add_substrates num_substrate 0 offsets s.

(* AutopoiesisSimulation.__init__ *)
Definition init (offsets : nat -> F * F) : Simulation F :=
  setup_simulation offsets
    (mkSim [] [] (mkSpace [] [] []) [] [] [] (mkStats 0 0 0) []).

(** *** Reaction rule: the (CATALYST, SUBSTRATE) separate callback

    [u] is the value [random.random()] returns, [k] the index
    [random.choice] draws (taken modulo the number of candidates). *)

Definition nearby_substrates (s : Simulation F) (substrate_shape : Shape) : list pid :=
  List.filter
    (fun p =>
       is_type SUBSTRATE (heap s) p
       && negb (bool_decide (ShapeOf p = substrate_shape))
       && fltb (distance (position_of (heap s) (owner substrate_shape))
                         (position_of (heap s) p))
               (of_Z 40))
    (particles s).

Definition midpoint (a b : Vec2d F) : F * F :=
  (fdiv (fadd (Vec2d.x a) (Vec2d.x b)) (of_Z 2),
   fdiv (fadd (Vec2d.y a) (Vec2d.y b)) (of_Z 2)).

Definition enqueue (m : Pending) (s : Simulation F) : Simulation F :=
  set_to_remove (to_remove s ++ [m]) s.

Definition handle_catalyst_substrate (arbiter : Shape * Shape) (u : F) (k : nat)
    (s : Simulation F) : Simulation F :=
  if fltb u (lit 15 100) then
    let substrate_shape := snd arbiter in
    let nearby := nearby_substrates s substrate_shape in
    match nearby with
    | [] => s
    | first :: _ =>
        let second_substrate := nth (k mod List.length nearby) nearby first in
        let pos := midpoint (position_of (heap s) (owner substrate_shape))
                            (position_of (heap s) second_substrate) in
        let s := snd (create_link pos s) in
        let s := enqueue (Some substrate_shape, None) s in
        enqueue (Some (ShapeOf second_substrate), None) s
    end
  else s.

(** The neighbour [random.choice] returns for the draw [k], if there is a
    candidate at all. *)
Definition chosen (s : Simulation F) (substrate_shape : Shape) (k : nat) : option pid :=
  let nearby := nearby_substrates s substrate_shape in
  match nearby with
  | [] => None
  | first :: _ => Some (nth (k mod List.length nearby) nearby first)
  end.

(** The LINK a reaction constructs between the event substrate and the
    chosen neighbour. *)
Definition new_link (substrate_shape : Shape) (second_substrate : pid)
    (s : Simulation F) : Particle F :=
  let pos := midpoint (position_of (heap s) (owner substrate_shape))
                      (position_of (heap s) second_substrate) in
  Particle_fields (fst pos) (snd pos) LINK.

(** The state a firing reaction leaves: one LINK appended to the heap and to
    the registry, two entries appended to the queue. *)
Definition react (substrate_shape : Shape) (second_substrate : pid)
    (s : Simulation F) : Simulation F :=
  enqueue (Some (ShapeOf second_substrate), None)
    (enqueue (Some substrate_shape, None)
       (snd (create_link
               (midpoint (position_of (heap s) (owner substrate_shape))
                         (position_of (heap s) second_substrate)) s))).

(** *** Bond formation rule: the (sensor, LINK) begin callback *)

Definition p1_candidates (s : Simulation F) (link_sensor : Shape) : list pid :=
  List.filter
    (fun p => has_sensor (heap s) p && bool_decide (SensorOf p = link_sensor))
    (particles s).

Definition p2_candidates (s : Simulation F) (link_shape : Shape) : list pid :=
  List.filter (fun p => bool_decide (ShapeOf p = link_shape)) (particles s).

(* p1 != p2 and len(p1.connections) < p1.max_connections and
   len(p2.connections) < p2.max_connections and p2 not in p1.connections *)
Definition may_bond (s : Simulation F) (p1 p2 : pid) : bool :=
  negb (bool_decide (p1 = p2))
  && (Z.of_nat (List.length (conn (heap s) p1)) <? max_connections_of (heap s) p1)
  && (Z.of_nat (List.length (conn (heap s) p2)) <? max_connections_of (heap s) p2)
  && negb (bool_decide (p2 ∈ conn (heap s) p1)).

Definition handle_link_detection (arbiter : Shape * Shape) (s : Simulation F)
    : Simulation F :=
  let link_sensor := fst arbiter in
  let link_shape := snd arbiter in
  match p1_candidates s link_sensor, p2_candidates s link_shape with
  | p1 :: _, p2 :: _ => if may_bond s p1 p2 then create_bond p1 p2 s else s
  | _, _ => s
  end.

(** *** Collision handlers

    A contact the engine reports to the program: the phase, the two shapes
    of the arbiter, and the random draws the reaction handler will make if
    it is the handler called. *)

Inductive Phase := Begin | Separate.

Record Contact := mkContact {
  phase : Phase;
  shape_a : Shape;
  shape_b : Shape;
  draw : F;
  pick : nat
}.

Definition sensor_collision_type : Z := 10.

(* shape.collision_type *)
Definition collision_type (h : list (Particle F)) (sh : Shape) : option Z :=
  match sh with
  | ShapeOf i => value <$> type_of h i
  | SensorOf i => if has_sensor h i then Some sensor_collision_type else None
  end.

Definition in_space (s : Simulation F) (sh : Shape) : bool :=
  bool_decide (sh ∈ shapes (space s)).

(** setup_collision_handlers: [separate] for (CATALYST, SUBSTRATE) and
    [begin] for (sensor, LINK); the engine orders the two shapes of the
    arbiter as the handler's two collision types. *)
Definition callback (c : Contact) (s : Simulation F) : Simulation F :=
  let a := shape_a c in
  let b := shape_b c in
  let ta := collision_type (heap s) a in
  let tb := collision_type (heap s) b in
  if in_space s a && in_space s b then
    match phase c with
    | Separate =>
        if bool_decide (ta = Some (value CATALYST) /\ tb = Some (value SUBSTRATE))
        then handle_catalyst_substrate (a, b) (draw c) (pick c) s
        else if bool_decide (ta = Some (value SUBSTRATE) /\ tb = Some (value CATALYST))
        then handle_catalyst_substrate (b, a) (draw c) (pick c) s
        else s
    | Begin =>
        if bool_decide (ta = Some sensor_collision_type /\ tb = Some (value LINK))
        then handle_link_detection (a, b) s
        else if bool_decide (ta = Some (value LINK) /\ tb = Some sensor_collision_type)
        then handle_link_detection (b, a) s
        else s
    end
  else s.

(** *** remove_particle

    [space.remove] of a shape is not silent: pymunk ends the contacts of the
    shape and calls the [separate] handler of a contact it ends.  The
    program has one [separate] handler, the reaction rule, for a CATALYST
    shape and a SUBSTRATE shape; there is one CATALYST shape, so one
    [space.remove] runs the handler at most once.  Whether the shape touches
    the catalyst is the engine's business: an [Ended] is the other shape of
    the contact pymunk ends, if there is one, with the draws the handler
    will make.  The handler runs while the shape is still in the space and
    the particle still in the registry. *)

Definition Ended : Type := option (Shape * F * nat).

Definition separate_on_remove (e : Ended) (shape : Shape) (s : Simulation F)
    : Simulation F :=
  match e with
  | Some (other, u, k) => callback (mkContact Separate other shape u k) s
  | None => s
  end.

Definition not_found : string :=
  "Warning: Attempted to remove a particle that was not found.".

(* if hasattr(particle, 'sensor'): self.space.remove(particle.sensor) *)
Definition remove_sensor (particle : pid) (s : Simulation F) : Simulation F :=
  if has_sensor (heap s) particle
  then set_space (space_remove_shape (SensorOf particle) (space s)) s
  else s.

(* self.space.remove(particle.shape, particle.body) *)
Definition space_remove (e : Ended) (particle : pid) (s : Simulation F) : Simulation F :=
  let s := separate_on_remove e (ShapeOf particle) s in
  set_space (space_remove_body particle (space_remove_shape (ShapeOf particle) (space s))) s.

(* self.particles.remove(particle) *)
Definition particles_remove (particle : pid) (s : Simulation F) : Simulation F :=
  set_particles (default (particles s) (list_remove particle (particles s))) s.

Definition remove_particle (e : Ended) (shape : Shape) (s : Simulation F)
    : Simulation F :=
  match List.find (fun p => bool_decide (ShapeOf p = shape)) (particles s) with
  | Some particle =>
      particles_remove particle (space_remove e particle (remove_sensor particle s))
  | None => print not_found s            (* except StopIteration *)
  end.

(** *** Stochastic force field

    [g k] is the pair of [random.gauss(0, 300)] draws made at the k-th
    particle of the loop. *)

Definition confinement_radius : Z := 200.
Definition attraction_strength : F := lit 5 10.
Definition origin : Vec2d F := Vec2d.mk (of_Z 0) (of_Z 0).

Definition alter_body (f : Body F -> Body F) (i : pid) (h : list (Particle F))
    : list (Particle F) :=
  alter (fun p => set_body (f (body p)) p) i h.

Definition brownian (particle : pid) (g : F * F) (h : list (Particle F))
    : list (Particle F) :=
  if negb (is_type CATALYST h particle) then
    let h := alter_body
               (apply_force_at_local_point (Vec2d.mk (fst g) (snd g)) origin)
               particle h in
    let distance_to_center := Vec2d.get_distance center (position_of h particle) in
    if fltb (of_Z confinement_radius) distance_to_center then
      let direction_to_center :=
        Vec2d.normalized (Vec2d.sub center (position_of h particle)) in
      let confinement_force :=
        Vec2d.scale
          (Vec2d.scale direction_to_center
                       (fsub distance_to_center (of_Z confinement_radius)))
          attraction_strength in
      alter_body (apply_force_at_local_point confinement_force origin) particle h
    else h
  else h.

(** What one turn of the loop does to the particle it visits. *)
Definition push (g : F * F) (p : Particle F) : Particle F :=
  if negb (bool_decide (type p = CATALYST)) then
    let p := set_body
               (apply_force_at_local_point (Vec2d.mk (fst g) (snd g)) origin (body p)) p in
    let distance_to_center := Vec2d.get_distance center (position (body p)) in
    if fltb (of_Z confinement_radius) distance_to_center then
      let direction_to_center :=
        Vec2d.normalized (Vec2d.sub center (position (body p))) in
      let confinement_force :=
        Vec2d.scale
          (Vec2d.scale direction_to_center
                       (fsub distance_to_center (of_Z confinement_radius)))
          attraction_strength in
      set_body (apply_force_at_local_point confinement_force origin (body p)) p
    else p
  else p.

Fixpoint brownian_loop (l : list pid) (g : nat -> F * F) (h : list (Particle F))
    : list (Particle F) :=
  match l with
  | [] => h
  | particle :: rest => brownian_loop rest (fun k => g (S k)) (brownian particle (g O) h)
  end.

Definition apply_brownian_motion (g : nat -> F * F) (s : Simulation F) : Simulation F :=
  set_heap (brownian_loop (particles s) g (heap s)) s.

(** *** Disintegration rule

    [u k] is the value of [random.random()] at the k-th particle of the
    loop (drawn only when that particle is a LINK older than 1000). *)

(** [for connected in particle.connections: connected.connections.remove(particle)].
    The list iterator reads [particle.connections] by index at every turn;
    [k] is the index and [fuel] bounds the turns by the initial length
    (no turn lengthens the list). *)
Fixpoint disconnect (fuel k : nat) (particle : pid) (h : list (Particle F))
    : option (list (Particle F)) :=
  match fuel with
  | O => Some h
  | S fuel' =>
      match conn h particle !! k with
      | None => Some h
      | Some connected =>
          match list_remove particle (conn h connected) with
          | None => None                                  (* ValueError *)
          | Some l =>
              disconnect fuel' (S k) particle (alter (set_connections l) connected h)
          end
      end
  end.

Definition age_of (h : list (Particle F)) (i : pid) : Z := from_option age 0 (h !! i).

Definition disintegrate (particle : pid) (u : F) (s : Simulation F)
    : option (Simulation F) :=
  if is_type LINK (heap s) particle then
    let s := set_heap (alter (fun p => set_age (age p + 1) p) particle (heap s)) s in
    if (2 * 500 <? age_of (heap s) particle) && fltb u (lit 1 100) then
      match disconnect (List.length (conn (heap s) particle)) 0 particle (heap s) with
      | None => None
      | Some h =>
          let s := set_heap h s in
          let pos := position_of (heap s) particle in
          let offset := of_Z 10 in
          let s := snd (Particle_init (fadd (Vec2d.x pos) offset) (Vec2d.y pos) SUBSTRATE s) in
          let s := snd (Particle_init (fsub (Vec2d.x pos) offset) (Vec2d.y pos) SUBSTRATE s) in
          Some (enqueue (Some (ShapeOf particle), None) s)
      end
    else Some s
  else Some s.

Fixpoint disintegration_loop (snapshot : list pid) (u : nat -> F) (s : Simulation F)
    : option (Simulation F) :=
  match snapshot with
  | [] => Some s
  | particle :: rest =>
      match disintegrate particle (u O) s with
      | None => None
      | Some s' => disintegration_loop rest (fun k => u (S k)) s'
      end
  end.

(* for particle in list(self.particles): ... *)
Definition handle_disintegration (u : nat -> F) (s : Simulation F)
    : option (Simulation F) :=
  disintegration_loop (particles s) u s.

(** *** Boundary containment *)

Definition boundary_radius : Z := 200.

Definition contain (p : Particle F) : Particle F :=
  let distance_to_center := Vec2d.get_distance center (position (body p)) in
  if fleb (of_Z (boundary_radius - radius p)) distance_to_center then
    let normal := Vec2d.normalized (Vec2d.sub (position (body p)) center) in
    let b := set_position
               (Vec2d.add center (Vec2d.scale normal (of_Z (boundary_radius - radius p))))
               (body p) in
    set_body (set_velocity (Vec2d.neg (velocity b)) b) p
  else p.

Definition handle_boundary_collision (s : Simulation F) : Simulation F :=
  set_heap (foldl (fun h particle => alter contain particle h) (heap s) (particles s)) s.

(** *** The removal queue and the statistics *)

(* if shape: self.remove_particle(shape) *)
Definition remove_if_shape (e : Ended) (m : Pending) (s : Simulation F) : Simulation F :=
  match fst m with Some shape => remove_particle e shape s | None => s end.

(** One turn of the loop over [self.to_remove]. *)
Definition flush_one (e : Ended) (m : Pending) (s : Simulation F)
    : option (Simulation F) :=
  let s := remove_if_shape e m s in
  match snd m with
  | Some bond =>
      (* self.space.remove(bond); self.bonds.remove(bond) *)
      match list_remove bond (bonds s) with
      | None => None                                      (* ValueError *)
      | Some l => Some (set_bonds l (set_space (space_remove_constraint bond (space s)) s))
      end
  | None => Some s
  end.

(** [for shape, bond in self.to_remove]: the list iterator reads the list by
    index at every turn, so the loop also visits the entries a handler
    appends to the queue while the loop runs.  [k] is the index and [e k]
    is what pymunk ends at that turn.  The loop stops by itself: a turn
    that lengthens the queue takes a SUBSTRATE or the CATALYST out of the
    registry.  [fuel] bounds the turns, and [None] also stands for running
    out of it ([flush] gives enough, see [flush_loop_enough]). *)
Fixpoint flush_loop (fuel k : nat) (e : nat -> Ended) (s : Simulation F)
    : option (Simulation F) :=
  match to_remove s !! k with
  | None => Some s
  | Some m =>
      match fuel with
      | O => None
      | S fuel' =>
          match flush_one (e k) m s with
          | None => None
          | Some s' => flush_loop fuel' (S k) e s'
          end
      end
  end.

(* for shape, bond in self.to_remove: ...; self.to_remove.clear() *)
Definition flush (e : nat -> Ended) (s : Simulation F) : option (Simulation F) :=
  match flush_loop (2 * List.length (particles s) + List.length (to_remove s)) 0 e s with
  | None => None
  | Some s' => Some (set_to_remove [] s')
  end.

(** A flush during which pymunk ends no contact. *)
Definition quiet : nat -> Ended := fun _ => None.

Definition count_type (t : ParticleType) (s : Simulation F) : nat :=
  List.length (List.filter (is_type t (heap s)) (particles s)).

Definition update_stats (s : Simulation F) : Simulation F :=
  set_stats (mkStats (count_type SUBSTRATE s) (count_type LINK s) (List.length (bonds s))) s.

(** *** The physics step, as the program observes it

    [space.step] moves the bodies that are in the space, clears the forces
    it has integrated, and calls the registered collision handlers before
    it returns.  Where the bodies go and which shapes touch is the physics
    engine's business: [kin i] is the position and velocity body [i] is
    given, and the contacts are the pairs of shapes the engine reports, with
    the random draws the reaction handler will make if it is called. *)

Definition move (kin : pid -> Vec2d F * Vec2d F) (s : Simulation F) : Simulation F :=
  set_heap
    (imap (fun i p => if bool_decide (i ∈ bodies (space s))
                      then set_body (mkBody (fst (kin i)) (snd (kin i)) []) p
                      else p)
          (heap s))
    s.

Definition space_step (kin : pid -> Vec2d F * Vec2d F) (contacts : list Contact)
    (s : Simulation F) : Simulation F :=
  foldl (fun s c => callback c s) (move kin s) contacts.

(** *** One turn of the main loop, and the loop

    The inputs of one turn: the outcome of the physics step, the draws of
    the force field and of the disintegration rule, and what the removals of
    the flush end ([ends t k] at the k-th entry of the queue).  The turn is
    the sequence of calls of [run] that act on the simulation; the event
    poll, the drawing calls and the clock act on the window only. *)

Record Tick := mkTick {
  kin : pid -> Vec2d F * Vec2d F;
  contacts : list Contact;
  gauss : nat -> F * F;
  decay : nat -> F;
  ends : nat -> Ended
}.

Definition tick (t : Tick) (s : Simulation F) : option (Simulation F) :=
  let s := space_step (kin t) (contacts t) s in
  let s := apply_brownian_motion (gauss t) s in
  match handle_disintegration (decay t) s with
  | None => None
  | Some s =>
      let s := handle_boundary_collision s in
      match flush (ends t) s with
      | None => None
      | Some s => Some (update_stats s)
      end
  end.

(* while running: ... ; one [Tick] for every turn made before the quit event *)
Fixpoint run (ts : list Tick) (s : Simulation F) : option (Simulation F) :=
  match ts with
  | [] => Some s
  | t :: ts' =>
      match tick t s with
      | None => None
      | Some s' => run ts' s'
      end
  end.

(** ** Reachable states

    The operations of the engine, one by one: whatever order they are
    applied in, the states they lead to from a fresh simulation are the
    reachable ones.  [None] (an uncaught exception) leads nowhere. *)

Inductive Op :=
  | OpMove (kin : pid -> Vec2d F * Vec2d F)   (* the bodies move in space.step *)
  | OpCallback (c : Contact)                  (* reaction or bond formation *)
  | OpBrownian (g : nat -> F * F)
  | OpDisintegration (u : nat -> F)
  | OpBoundary
  | OpFlush (e : nat -> Ended)
  | OpStats.

Definition exec (o : Op) (s : Simulation F) : option (Simulation F) :=
  match o with
  | OpMove kin => Some (move kin s)
  | OpCallback c => Some (callback c s)
  | OpBrownian g => Some (apply_brownian_motion g s)
  | OpDisintegration u => handle_disintegration u s
  | OpBoundary => Some (handle_boundary_collision s)
  | OpFlush e => flush e s
  | OpStats => Some (update_stats s)
  end.

Inductive reachable : Simulation F -> Prop :=
  | reachable_init offsets : reachable (init offsets)
  | reachable_exec o s s' : reachable s -> exec o s = Some s' -> reachable s'.

(** ** Predicates on states *)

(** The particles whose body shape is in a removal queue. *)
Definition queued (q : list Pending) (i : pid) : Prop :=
  Some (ShapeOf i) ∈ (fst <$> q).

Definition pending (s : Simulation F) (i : pid) : Prop := queued (to_remove s) i.

#[export] Instance queued_dec (q : list Pending) (i : pid) : Decision (queued q i).
Proof. unfold queued. apply _. Defined.

#[export] Instance pending_dec (s : Simulation F) (i : pid) : Decision (pending s i).
Proof. unfold pending. apply _. Defined.

Definition live (s : Simulation F) (i : pid) : Prop := i ∈ particles s.

(** Degree bounds of the bond graph, for one particle. *)
Definition degree_ok (p : Particle F) : Prop :=
  (type p = LINK -> (0 <= List.length (connections p) <= 2)%nat)
  /\ (type p <> LINK -> connections p = []).

(** The connections relation among the particles of the registry. *)
Definition symmetric_live (s : Simulation F) : Prop :=
  forall p q, live s p -> live s q ->
    (q ∈ conn (heap s) p <-> p ∈ conn (heap s) q).

Definition null_bond (m : Pending) : Prop := snd m = None.

(** What the constructor establishes for a particle and no operation
    breaks. *)
Definition particle_ok (p : Particle F) : Prop :=
  max_connections p = (if decide (type p = LINK) then 2 else 0)
  /\ Z.of_nat (List.length (connections p)) <= max_connections p
  /\ radius p = (if decide (type p <> CATALYST) then 8 else 12).

(** Two versions of a particle that differ at most in body and age, and two
    heaps that differ at most so. *)
Definition same_graph (p p' : Particle F) : Prop :=
  type p' = type p /\ radius p' = radius p /\ connections p' = connections p
  /\ max_connections p' = max_connections p.

Definition heap_same_graph (h h' : list (Particle F)) : Prop := Forall2 same_graph h h'.

(** Two versions of a particle that differ at most in their connections. *)
Definition same_fields (p p' : Particle F) : Prop :=
  type p' = type p /\ radius p' = radius p /\ body p' = body p
  /\ max_connections p' = max_connections p /\ age p' = age p.

(** A heap and a later one: the particles constructed so far are still
    there, each of the kind, radius and capacity it was constructed with. *)
Definition grows (h h' : list (Particle F)) : Prop :=
  forall i p, h !! i = Some p ->
    exists p', h' !! i = Some p' /\ type p' = type p /\ radius p' = radius p
               /\ max_connections p' = max_connections p.

(** Well-formed states: the registry holds distinct references into the
    heap, the particles are as constructed, and the queue holds no bond and
    only shapes of constructed particles. *)
Record wf (s : Simulation F) : Prop := mkWf {
  wf_particles : forall i, i ∈ particles s -> (i < List.length (heap s))%nat;
  wf_nodup : NoDup (particles s);
  wf_heap : Forall particle_ok (heap s);
  wf_queue : Forall null_bond (to_remove s);
  wf_pending : forall i, pending s i -> (i < List.length (heap s))%nat;
  wf_stats : (stat_bonds (stats s) <= List.length (bonds s))%nat
}.

(** A LINK of the registry that is not queued for removal. *)
Definition active (s : Simulation F) (i : pid) : Prop :=
  live s i /\ is_type LINK (heap s) i = true /\ ~ pending s i.

(** The bond graph during a turn of the main loop: connection lists have no
    repetition and no self reference, and the connections of an active LINK
    are active and mutual. *)
Record graph_ok (s : Simulation F) : Prop := mkGraphOk {
  graph_nodup : forall i, NoDup (conn (heap s) i);
  graph_irrefl : forall i, i ∉ conn (heap s) i;
  graph_mutual : forall i j, active s i -> j ∈ conn (heap s) i ->
                   active s j /\ i ∈ conn (heap s) j
}.

(** During the physics step only substrates are queued. *)
Definition no_link_pending (s : Simulation F) : Prop :=
  forall i, pending s i -> is_type LINK (heap s) i = false.

(** The catalysts of the registry. *)
Definition catalysts (s : Simulation F) : list pid :=
  List.filter (is_type CATALYST (heap s)) (particles s).

(** Particle 0 is the one catalyst of the registry, and no catalyst is
    queued for removal. *)
Definition catalyst_kept (s : Simulation F) : Prop :=
  catalysts s = [0%nat] /\ forall i, pending s i -> is_type CATALYST (heap s) i = false.

(** A bond as [create_bond] makes it: between two different LINK particles,
    with rest length 8 * 2.5, stiffness 150 and damping 1. *)
Definition spring_ok (h : list (Particle F)) (sp : DampedSpring F) : Prop :=
  spring_a sp <> spring_b sp
  /\ is_type LINK h (spring_a sp) = true /\ is_type LINK h (spring_b sp) = true
  /\ rest_length sp = fmul (of_Z 8) (lit 25 10)
  /\ stiffness sp = 150 /\ damping sp = 1.

(** Every spring constructed is a bond of the list and a constraint of the
    space, and is as [create_bond] makes it. *)
Definition bonds_ok (s : Simulation F) : Prop :=
  bonds s = seq 0 (List.length (springs s))
  /\ constraints (space s) = bonds s
  /\ Forall (spring_ok (heap s)) (springs s).

(** The substrate [setup_simulation] constructs for the k-th polar sample. *)
Definition initial_substrate (offsets : nat -> F * F) (k : nat) : Particle F :=
  Particle_fields (fadd (fdiv (of_Z width) (of_Z 2)) (fst (offsets k)))
                  (fadd (fdiv (of_Z height) (of_Z 2)) (snd (offsets k))) SUBSTRATE.


(** Two particles joined by a spring, in either order, and the states in
    which every connection is between two joined particles. *)
Definition joined (s : Simulation F) (i j : pid) : Prop :=
  exists sp, sp ∈ springs s
    /\ ((spring_a sp = i /\ spring_b sp = j) \/ (spring_a sp = j /\ spring_b sp = i)).

Definition connections_joined (s : Simulation F) : Prop :=
  forall i j, j ∈ conn (heap s) i -> joined s i j.

(** What holds during the physics step. *)
Definition in_step (s : Simulation F) : Prop :=
  wf s /\ graph_ok s /\ no_link_pending s.

(** What holds while the disintegration loop still has [rest] to visit:
    no LINK of [rest] is queued yet. *)
Definition in_decay (rest : list pid) (s : Simulation F) : Prop :=
  wf s /\ graph_ok s
  /\ (forall j, j ∈ rest -> j ∈ particles s)
  /\ (forall j, j ∈ rest -> is_type LINK (heap s) j = true -> ~ pending s j).

(** What holds between two turns of the main loop. *)
Definition between_ticks (s : Simulation F) : Prop :=
  wf s /\ graph_ok s /\ to_remove s = [].

End Engine.

(** ** Example states, on binary64

    A fresh simulation whose substrates stand in a row through the centre,
    one unit apart: the catalyst is particle 0 at (400, 400) and substrate
    [k + 1] is at (250 + k, 400), so substrate 151 is at the centre. *)

Abbreviation float := PrimFloat.float.

Definition row (k : nat) : float * float := (of_Z (Z.of_nat k - 150), of_Z 0).

Definition fresh : Simulation float := init row.

(** The catalyst and substrate [i] separate; the draw is 0.1, the choice [k]. *)
Definition separation (i : pid) (k : nat) : @Contact float :=
  mkContact Separate (ShapeOf 0) (ShapeOf i) (lit 1 10) k.

(** Substrate 151 reacts with its neighbour 152 (LINK 301), then, in the
    same step, substrate 153 reacts with the same neighbour 152 (LINK 302). *)
Definition first_reaction : Simulation float := callback (separation 151 39) fresh.
Definition second_reaction : Simulation float :=
  callback (separation 153 38) first_reaction.

(** The sensor of LINK 301 begins to overlap LINK 302. *)
Definition overlap : @Contact float :=
  mkContact Begin (SensorOf 301) (ShapeOf 302) (of_Z 0) 0.
Definition bonded : Simulation float := callback overlap second_reaction.

(** The state after the removal queue of [second_reaction] is processed:
    substrates 151, 152 and 153 are out of the registry and of the space. *)
Definition flushed : Simulation float :=
  default second_reaction (flush quiet second_reaction).

(** The removal of the first queued shape ends the contact of that shape
    with the catalyst: pymunk calls the separate handler, whose draw is 0.1
    and whose choice is 38.  The other removals end no contact. *)
Definition parting (k : nat) : @Ended float :=
  if (k =? 0)%nat then Some (ShapeOf 0, lit 1 10, 38%nat) else None.

(** A physics step that leaves every body where it is: the row, and
    (400.5, 400) and (403.5, 400) for the particles constructed later. *)
Definition still (i : pid) : Vec2d float * Vec2d float :=
  (if (i =? 0)%nat then center
   else if (i <=? 300)%nat then Vec2d.mk (of_Z (249 + Z.of_nat i)) (of_Z 400)
   else if (i =? 301)%nat then Vec2d.mk (lit 801 2) (of_Z 400)
   else Vec2d.mk (lit 807 2) (of_Z 400),
   Vec2d.mk (of_Z 0) (of_Z 0)).

Definition calm (k : nat) : float * float := (of_Z 0, of_Z 0).

(** Three turns of the loop.  In the first, 151 reacts with 152 (LINK 301
    at (400.5, 400)) and 154 with 155 (LINK 302 at (403.5, 400)); in the
    second the two LINKs bond; nothing decays in either (all draws 0.5).
    The third has no contacts and every draw is 0.0.  The removals of
    their flushes end no contact. *)
Definition reacting : @Tick float :=
  mkTick still [separation 151 39; separation 154 39] calm (fun _ => lit 1 2) quiet.
Definition bonding : @Tick float := mkTick still [overlap] calm (fun _ => lit 1 2) quiet.
Definition decaying : @Tick float := mkTick still [] calm (fun _ => of_Z 0) quiet.

(** The state after the first two turns, with the age of both LINKs
    advanced to 1000, as 998 more turns without contacts and decay advance
    it. *)
Definition aged : option (Simulation float) :=
  (fun s => set_heap (alter (set_age 1000) 302%nat
                        (alter (set_age 1000) 301%nat (heap s))) s)
  <$> run [reacting; bonding] fresh.

(** The third turn up to its flush, from [aged]: both LINKs have decayed,
    and the four substrates constructed in their place, 303 to 306, are in
    the space and not in the registry.  Then the state its flush leaves. *)
Definition decayed : Simulation float :=
  default fresh
    (aged ≫= fun s =>
       handle_boundary_collision
         <$> handle_disintegration (decay decaying)
               (apply_brownian_motion (gauss decaying)
                  (space_step (kin decaying) (contacts decaying) s))).

Definition swept : Simulation float := default decayed (flush quiet decayed).

Definition summary (s : Simulation float) : nat * nat * nat :=
  (List.length (particles s), count_type SUBSTRATE s, count_type LINK s).

(** ** Example states, on the real numbers *)

(** The polar sample of [setup_simulation], in real arithmetic:
    [(r * cos angle, r * sin angle)] for the k-th pair of draws. *)
Definition polar (angle r : nat -> R) (k : nat) : R * R :=
  ((r k * cos (angle k))%R, (r k * sin (angle k))%R).

Definition rowR (k : nat) : R * R := (IZR (Z.of_nat k - 150), 0%R).

Definition freshR : Simulation R := init rowR.

(** The physics step throws substrate 1 to (650, 400), at distance 250 from
    the centre, with velocity (3, -4), and leaves the others at the centre. *)
Definition thrown (i : pid) : Vec2d R * Vec2d R :=
  if (i =? 1)%nat then (Vec2d.mk 650%R 400%R, Vec2d.mk 3%R (-4)%R)
  else (Vec2d.mk 400%R 400%R, Vec2d.mk 0%R 0%R).

Definition escaped : Simulation R := move thrown freshR.

(** Substrate 1 after that step, and the Brownian draws (1, 2) for everyone. *)
Definition thrown_particle : Particle R :=
  mkParticle SUBSTRATE 8 (mkBody (Vec2d.mk 650%R 400%R) (Vec2d.mk 3%R (-4)%R) []) [] 0 0.

Definition gust (k : nat) : R * R := (1%R, 2%R).

(** * Proofs *)

Local Close Scope Z_scope.

(** ** Python's list.remove *)

Lemma list_remove_is_Some i l : is_Some (list_remove i l) <-> i ∈ l.
Proof.
  induction l as [|j l IH]; simpl.
  - split; [intros [? ?]; discriminate | intros Hin; inversion Hin].
  - destruct (decide (j = i)) as [->|Hne].
    + split; [intros _; left | eauto].
    + rewrite fmap_is_Some, IH. split; [by right |].
      intros Hin. apply elem_of_cons in Hin as [?|?]; congruence.
Qed.

Lemma list_remove_length i l l' :
  list_remove i l = Some l' -> List.length l = S (List.length l').
Proof.
  revert l'. induction l as [|j l IH]; simpl; intros l' Hr; [discriminate|].
  destruct (decide (j = i)); simplify_eq; [done|].
  destruct (list_remove i l) eqn:E; simplify_eq/=. by rewrite (IH l0).
Qed.

Lemma list_remove_elem_of i l l' x :
  list_remove i l = Some l' -> x ∈ l' -> x ∈ l.
Proof.
  revert l'. induction l as [|j l IH]; simpl; intros l' Hr Hx; [discriminate|].
  destruct (decide (j = i)); simplify_eq; [by right|].
  destruct (list_remove i l) eqn:E; simplify_eq/=.
  apply elem_of_cons in Hx as [->|Hx]; [left | right; eauto].
Qed.

Lemma list_remove_other i l l' x :
  list_remove i l = Some l' -> x ∈ l -> x <> i -> x ∈ l'.
Proof.
  revert l'. induction l as [|j l IH]; simpl; intros l' Hr Hx Hne; [discriminate|].
  destruct (decide (j = i)); simplify_eq.
  - apply elem_of_cons in Hx as [->|Hx]; done.
  - destruct (list_remove i l) eqn:E; simplify_eq/=.
    apply elem_of_cons in Hx as [->|Hx]; [left | right; eauto].
Qed.

Lemma list_remove_NoDup i l l' :
  NoDup l -> list_remove i l = Some l' -> NoDup l' /\ i ∉ l'.
Proof.
  revert l'. induction l as [|j l IH]; simpl; intros l' Hnd Hr; [discriminate|].
  apply NoDup_cons in Hnd as [Hj Hnd].
  destruct (decide (j = i)); simplify_eq; [done|].
  destruct (list_remove i l) eqn:E; simplify_eq/=.
  destruct (IH _ Hnd eq_refl) as [Hnd' Hi]. split.
  - apply NoDup_cons. split; [|done]. intros Hin. apply Hj.
    eapply list_remove_elem_of; eauto.
  - intros Hin. apply elem_of_cons in Hin as [?|?]; congruence.
Qed.

Lemma list_remove_filter i l l' :
  NoDup l -> list_remove i l = Some l' ->
  l' = List.filter (fun j => negb (bool_decide (j = i))) l.
Proof.
  revert l'. induction l as [|j l IH]; simpl; intros l' Hnd Hr; [discriminate|].
  apply NoDup_cons in Hnd as [Hj Hnd].
  destruct (decide (j = i)) as [->|Hne]; simplify_eq.
  - rewrite bool_decide_eq_true_2 by done. simpl.
    clear IH. induction l' as [|k l' IH]; [done|]. simpl.
    apply not_elem_of_cons in Hj as [Hki Hj]. apply NoDup_cons in Hnd as [_ Hnd].
    rewrite bool_decide_eq_false_2 by congruence. simpl. f_equal. auto.
  - rewrite bool_decide_eq_false_2 by done. simpl.
    destruct (list_remove i l) eqn:E; simplify_eq/=. f_equal. auto.
Qed.

Lemma list_remove_absent i l : i ∉ l -> list_remove i l = None.
Proof.
  intros Hi. destruct (list_remove i l) eqn:E; [|done].
  exfalso. apply Hi, list_remove_is_Some. eauto.
Qed.

(** ** Well-formedness is kept by every operation *)

Section WellFormed.
Context {F : Type} `{PyFloat F}.
Implicit Types (s : Simulation F) (p : Particle F) (h : list (Particle F)).

Lemma particle_ok_fields px py t : particle_ok (Particle_fields px py t).
Proof. unfold particle_ok; simpl. destruct t; simpl; repeat split; lia. Qed.

Lemma particle_ok_set_body b p : particle_ok p -> particle_ok (set_body b p).
Proof. done. Qed.

Lemma particle_ok_set_age a p : particle_ok p -> particle_ok (set_age a p).
Proof. done. Qed.

Lemma particle_ok_shrink l p :
  (List.length l <= List.length (connections p))%nat ->
  particle_ok p -> particle_ok (set_connections l p).
Proof. unfold particle_ok; simpl. intros Hl (Hm & Hc & Hr). repeat split; [done|lia|done]. Qed.

Lemma particle_ok_append q p :
  (Z.of_nat (List.length (connections p)) < max_connections p)%Z ->
  particle_ok p -> particle_ok (append_connection q p).
Proof.
  unfold particle_ok; simpl. intros Hl (Hm & Hc & Hr).
  rewrite length_app; simpl. repeat split; [done|lia|done].
Qed.

Lemma wf_Particle_init px py t s :
  wf s -> wf (snd (Particle_init px py t s)).
Proof.
  intros [Hp Hnd Hh Hq Hpend Hst]. constructor; simpl; try done.
  - intros i Hi. rewrite length_app. specialize (Hp i Hi). lia.
  - apply Forall_app; split; [done|]. repeat constructor. apply particle_ok_fields.
  - intros i Hi. rewrite length_app. specialize (Hpend i Hi). lia.
Qed.

Lemma wf_register px py t s :
  wf s ->
  wf (set_particles (particles s ++ [List.length (heap s)]) (snd (Particle_init px py t s))).
Proof.
  intros Hwf. destruct (wf_Particle_init px py t s Hwf) as [Hp Hnd Hh Hq Hpend Hst].
  simpl in *. constructor; simpl; try done.
  - intros i Hi. apply elem_of_app in Hi as [Hi|Hi]; [by apply Hp|].
    apply list_elem_of_singleton in Hi as ->. rewrite length_app; simpl; lia.
  - apply NoDup_app; repeat split; [done| |apply NoDup_singleton].
    intros i Hi Hi'. apply list_elem_of_singleton in Hi' as ->.
    apply (wf_particles _ Hwf) in Hi. lia.
Qed.

Lemma wf_add_substrates n k offsets s : wf s -> wf (add_substrates n k offsets s).
Proof.
  revert k s. induction n as [|n IH]; intros k s Hwf; simpl; [done|].
  apply IH. apply (wf_register _ _ SUBSTRATE s Hwf).
Qed.

Lemma wf_init offsets : wf (init offsets).
Proof.
  unfold init, setup_simulation. generalize num_substrate. intros n.
  apply wf_add_substrates.
  apply (wf_register _ _ CATALYST (mkSim [] [] (mkSpace [] [] []) [] [] [] (mkStats 0 0 0) [])).
  constructor; simpl; try done; try constructor; intros i Hi; inversion Hi.
Qed.

End WellFormed.

Section Handlers.
Context {F : Type} `{PyFloat F}.
Implicit Types (s : Simulation F) (h : list (Particle F)).

Lemma conn_lookup h i p : h !! i = Some p -> conn h i = connections p.
Proof. unfold conn. by intros ->. Qed.

Lemma conn_dangling h i : h !! i = None -> conn h i = [].
Proof. unfold conn. by intros ->. Qed.

Lemma is_type_lookup t h i :
  is_type t h i = true <-> exists p, h !! i = Some p /\ type p = t.
Proof.
  unfold is_type, type_of. rewrite bool_decide_eq_true.
  destruct (h !! i) as [p|]; simpl; split.
  - intros [= <-]. eauto.
  - intros (q & [= <-] & <-). done.
  - done.
  - intros (q & ? & _). done.
Qed.

Lemma max_connections_of_lookup h i p :
  h !! i = Some p -> max_connections_of h i = max_connections p.
Proof. unfold max_connections_of. by intros ->. Qed.

Lemma pending_enqueue m s i :
  pending (enqueue m s) i <-> pending s i \/ fst m = Some (ShapeOf i).
Proof.
  unfold pending, queued. simpl. rewrite fmap_app, elem_of_app. simpl.
  rewrite list_elem_of_singleton. split; intros [?|?]; auto.
Qed.

Lemma wf_enqueue sh s :
  (owner sh < List.length (heap s))%nat -> wf s -> wf (enqueue (Some sh, None) s).
Proof.
  intros Hsh [Hp Hnd Hh Hq Hpend Hst]. constructor; try done.
  - simpl. apply Forall_app; split; [done|]. by repeat constructor.
  - intros i [Hi|Hi]%pending_enqueue; [by apply Hpend|]. simpl in Hi. by simplify_eq.
Qed.

Lemma handle_catalyst_substrate_cases arbiter u k s :
  (handle_catalyst_substrate arbiter u k s = s
   /\ (fltb u (lit 15 100) = false \/ nearby_substrates s (snd arbiter) = []))
  \/ exists second_substrate,
       fltb u (lit 15 100) = true
       /\ second_substrate ∈ nearby_substrates s (snd arbiter)
       /\ handle_catalyst_substrate arbiter u k s = react (snd arbiter) second_substrate s.
Proof.
  unfold handle_catalyst_substrate.
  destruct (fltb u (lit 15 100)); [|left; auto].
  destruct (nearby_substrates s (snd arbiter)) as [|first rest] eqn:E; [left; auto|].
  right. eexists. split; [done|]. split; [|reflexivity].
  apply list_elem_of_In, nth_In. apply Nat.mod_upper_bound. done.
Qed.

Lemma nearby_substrates_elem s shape i :
  i ∈ nearby_substrates s shape ->
  i ∈ particles s /\ is_type SUBSTRATE (heap s) i = true /\ shape <> ShapeOf i.
Proof.
  unfold nearby_substrates. rewrite list_elem_of_In, filter_In, <- list_elem_of_In.
  rewrite !andb_true_iff, negb_true_iff, bool_decide_eq_false.
  intros (Hi & (Ht & Hne) & _). repeat split; [done..|]. by intros ->.
Qed.

Lemma wf_react sh second s :
  (owner sh < List.length (heap s))%nat -> (second < List.length (heap s))%nat ->
  wf s -> wf (react sh second s).
Proof.
  intros Hsh Hsecond Hwf. unfold react.
  do 2 (apply wf_enqueue; [simpl; rewrite length_app; simpl; lia|]).
  apply (wf_register _ _ LINK s Hwf).
Qed.

Lemma wf_handle_catalyst_substrate arbiter u k s :
  (owner (snd arbiter) < List.length (heap s))%nat ->
  wf s -> wf (handle_catalyst_substrate arbiter u k s).
Proof.
  intros Hsh Hwf.
  destruct (handle_catalyst_substrate_cases arbiter u k s) as [[-> _]|(j & _ & Hj & ->)];
    [done|].
  apply wf_react; [done| |done].
  apply nearby_substrates_elem in Hj as (Hj & _). by apply (wf_particles _ Hwf).
Qed.

Lemma may_bond_true s p1 p2 :
  may_bond s p1 p2 = true <->
  p1 <> p2
  /\ (Z.of_nat (List.length (conn (heap s) p1)) < max_connections_of (heap s) p1)%Z
  /\ (Z.of_nat (List.length (conn (heap s) p2)) < max_connections_of (heap s) p2)%Z
  /\ p2 ∉ conn (heap s) p1.
Proof.
  unfold may_bond. rewrite !andb_true_iff, !negb_true_iff, !bool_decide_eq_false, !Z.ltb_lt.
  tauto.
Qed.

Lemma max_connections_positive h i :
  (0 < max_connections_of h i)%Z -> exists p, h !! i = Some p.
Proof. unfold max_connections_of. destruct (h !! i); simpl; [eauto|lia]. Qed.

Lemma wf_create_bond p1 p2 s :
  wf s -> may_bond s p1 p2 = true -> wf (create_bond p1 p2 s).
Proof.
  intros [Hp Hnd Hh Hq Hpend Hst] (Hne & H1 & H2 & Hnot)%may_bond_true.
  constructor; simpl; try done.
  - intros i Hi. rewrite !length_alter. auto.
  - apply Forall_alter.
    + apply Forall_alter; [done|]. intros p Hl Hok.
      apply particle_ok_append; [|done].
      by rewrite (conn_lookup _ _ _ Hl), (max_connections_of_lookup _ _ _ Hl) in H1.
    + intros p Hl Hok. rewrite list_lookup_alter_ne in Hl by done.
      apply particle_ok_append; [|done].
      by rewrite (conn_lookup _ _ _ Hl), (max_connections_of_lookup _ _ _ Hl) in H2.
  - intros i Hi. rewrite !length_alter. by apply Hpend.
  - rewrite length_app; simpl. lia.
Qed.

Lemma handle_link_detection_cases arbiter s :
  handle_link_detection arbiter s = s
  \/ exists p1 p2,
       head (p1_candidates s (fst arbiter)) = Some p1
       /\ head (p2_candidates s (snd arbiter)) = Some p2
       /\ may_bond s p1 p2 = true
       /\ handle_link_detection arbiter s = create_bond p1 p2 s.
Proof.
  unfold handle_link_detection.
  destruct (p1_candidates s (fst arbiter)) as [|p1 ?]; [by left|].
  destruct (p2_candidates s (snd arbiter)) as [|p2 ?]; [by left|].
  destruct (may_bond s p1 p2) eqn:E; [|by left].
  right. by exists p1, p2.
Qed.

Lemma wf_handle_link_detection arbiter s :
  wf s -> wf (handle_link_detection arbiter s).
Proof.
  intros Hwf.
  destruct (handle_link_detection_cases arbiter s) as [->|(p1 & p2 & _ & _ & Hb & ->)];
    [done|by apply wf_create_bond].
Qed.

Lemma collision_type_substrate h sh :
  collision_type h sh = Some (value SUBSTRATE) ->
  exists i, sh = ShapeOf i /\ is_type SUBSTRATE h i = true.
Proof.
  destruct sh as [i|i]; simpl.
  - destruct (type_of h i) as [t|] eqn:E; simpl; [|done].
    destruct t; intros [=]. exists i. split; [done|]. unfold is_type. by rewrite E.
  - destruct (has_sensor h i); intros [=].
Qed.

Lemma is_type_lt t h i : is_type t h i = true -> (i < List.length h)%nat.
Proof. intros (p & Hp & _)%is_type_lookup. by eapply lookup_lt_Some. Qed.

Lemma wf_callback c s : wf s -> wf (callback c s).
Proof.
  intros Hwf. unfold callback.
  destruct (in_space s (shape_a c) && in_space s (shape_b c)); [|done].
  destruct (phase c); repeat case_bool_decide; auto using wf_handle_link_detection;
    apply wf_handle_catalyst_substrate; try done; simpl;
    match goal with
    | Hc : _ /\ _ |- _ => destruct Hc as [Ha Hb]
    end;
    [apply collision_type_substrate in Hb as (i & -> & Hi)
    |apply collision_type_substrate in Ha as (i & -> & Hi)];
    by apply is_type_lt in Hi.
Qed.

End Handlers.

Section BodyOnly.
Context {F : Type} `{PyFloat F}.
Implicit Types (s : Simulation F) (h : list (Particle F)).

Lemma same_graph_refl (p : Particle F) : same_graph p p.
Proof. by repeat split. Qed.

Lemma same_graph_trans (p q r : Particle F) :
  same_graph p q -> same_graph q r -> same_graph p r.
Proof. unfold same_graph. intros (?&?&?&?) (?&?&?&?). repeat split; congruence. Qed.

Lemma heap_same_graph_refl h : heap_same_graph h h.
Proof. apply Forall2_same_length_lookup. split; [done|]. intros i p q ? ?. simplify_eq. apply same_graph_refl. Qed.

Lemma heap_same_graph_trans h1 h2 h3 :
  heap_same_graph h1 h2 -> heap_same_graph h2 h3 -> heap_same_graph h1 h3.
Proof.
  unfold heap_same_graph. intros H12 H23.
  eapply Forall2_trans; [|done..]. intros p q r. apply same_graph_trans.
Qed.

Lemma heap_same_graph_alter (f : Particle F -> Particle F) i h :
  (forall p, same_graph p (f p)) -> heap_same_graph h (alter f i h).
Proof.
  intros Hf. apply Forall2_same_length_lookup. split; [by rewrite length_alter|].
  intros j p q Hp Hq. destruct (decide (i = j)) as [->|Hne].
  - rewrite list_lookup_alter_eq, Hp in Hq. simplify_eq/=. apply Hf.
  - rewrite list_lookup_alter_ne in Hq by done. simplify_eq. apply same_graph_refl.
Qed.

Lemma heap_same_graph_imap (f : nat -> Particle F -> Particle F) h :
  (forall i p, same_graph p (f i p)) -> heap_same_graph h (imap f h).
Proof.
  intros Hf. apply Forall2_same_length_lookup. split; [by rewrite length_imap|].
  intros j p q Hp Hq. rewrite list_lookup_imap, Hp in Hq. simplify_eq/=. apply Hf.
Qed.

Lemma heap_same_graph_length h h' : heap_same_graph h h' -> List.length h' = List.length h.
Proof. intros Hs. symmetry. by eapply Forall2_length. Qed.

Lemma heap_same_graph_lookup h h' i p :
  heap_same_graph h h' -> h !! i = Some p -> exists p', h' !! i = Some p' /\ same_graph p p'.
Proof. intros Hs Hp. by eapply Forall2_lookup_l. Qed.

Lemma heap_same_graph_lookup_None h h' i :
  heap_same_graph h h' -> h !! i = None -> h' !! i = None.
Proof.
  intros Hs Hp. apply lookup_ge_None. apply lookup_ge_None in Hp.
  by rewrite (heap_same_graph_length _ _ Hs).
Qed.

Lemma heap_same_graph_conn h h' i : heap_same_graph h h' -> conn h' i = conn h i.
Proof.
  intros Hs. unfold conn. destruct (h !! i) as [p|] eqn:E.
  - destruct (heap_same_graph_lookup _ _ _ _ Hs E) as (p' & -> & (?&?&?&?)). done.
  - by rewrite (heap_same_graph_lookup_None _ _ _ Hs E).
Qed.

Lemma heap_same_graph_type_of h h' i : heap_same_graph h h' -> type_of h' i = type_of h i.
Proof.
  intros Hs. unfold type_of. destruct (h !! i) as [p|] eqn:E.
  - destruct (heap_same_graph_lookup _ _ _ _ Hs E) as (p' & -> & (?&?&?&?)). simpl. congruence.
  - by rewrite (heap_same_graph_lookup_None _ _ _ Hs E).
Qed.

Lemma heap_same_graph_is_type t h h' i : heap_same_graph h h' -> is_type t h' i = is_type t h i.
Proof. intros Hs. unfold is_type. by rewrite (heap_same_graph_type_of _ _ _ Hs). Qed.

Lemma heap_same_graph_ok h h' :
  heap_same_graph h h' -> Forall particle_ok h -> Forall particle_ok h'.
Proof.
  intros Hs Hok. apply Forall_lookup. intros i p' Hp'.
  destruct (h !! i) as [p|] eqn:E.
  - destruct (heap_same_graph_lookup _ _ _ _ Hs E) as (q & Hq & (Ht&Hr&Hc&Hm)).
    simplify_eq. pose proof (Forall_lookup_1 _ _ _ _ Hok E) as (?&?&?).
    unfold particle_ok. rewrite Ht, Hr, Hc, Hm. done.
  - rewrite (heap_same_graph_lookup_None _ _ _ Hs E) in Hp'. done.
Qed.

Lemma wf_set_heap_same_graph h' s :
  heap_same_graph (heap s) h' -> wf s -> wf (set_heap h' s).
Proof.
  intros Hs [Hp Hnd Hh Hq Hpend Hst]. constructor; simpl; try done.
  - intros i Hi. rewrite (heap_same_graph_length _ _ Hs). auto.
  - by eapply heap_same_graph_ok.
  - intros i Hi. rewrite (heap_same_graph_length _ _ Hs). by apply Hpend.
Qed.

(** The three operations that touch bodies only. *)

Lemma move_same_graph kin s : heap_same_graph (heap s) (heap (move kin s)).
Proof.
  simpl. apply heap_same_graph_imap. intros i p. case_bool_decide; by repeat split.
Qed.

Lemma alter_body_same_graph f i h : heap_same_graph h (alter_body f i h).
Proof. apply heap_same_graph_alter. intros p. by repeat split. Qed.

Lemma brownian_same_graph particle g h : heap_same_graph h (brownian particle g h).
Proof.
  unfold brownian. destruct (negb _); [|apply heap_same_graph_refl].
  destruct (fltb _ _).
  - eapply heap_same_graph_trans; apply alter_body_same_graph.
  - apply alter_body_same_graph.
Qed.

Lemma brownian_loop_same_graph l g h : heap_same_graph h (brownian_loop l g h).
Proof.
  revert g h. induction l as [|i l IH]; intros g h; simpl; [apply heap_same_graph_refl|].
  eapply heap_same_graph_trans; [apply brownian_same_graph|apply IH].
Qed.

Lemma contain_same_graph (p : Particle F) : same_graph p (contain p).
Proof. unfold contain. destruct (fleb _ _); by repeat split. Qed.

Lemma boundary_same_graph s :
  heap_same_graph (heap s) (heap (handle_boundary_collision s)).
Proof.
  simpl. generalize (heap s). induction (particles s) as [|i l IH]; intros h; simpl;
    [apply heap_same_graph_refl|].
  eapply heap_same_graph_trans; [|apply IH].
  apply heap_same_graph_alter, contain_same_graph.
Qed.

Lemma wf_move kin s : wf s -> wf (move kin s).
Proof. apply (wf_set_heap_same_graph _ s), move_same_graph. Qed.

Lemma wf_apply_brownian_motion g s : wf s -> wf (apply_brownian_motion g s).
Proof. apply (wf_set_heap_same_graph _ s), brownian_loop_same_graph. Qed.

Lemma wf_handle_boundary_collision s : wf s -> wf (handle_boundary_collision s).
Proof. apply (wf_set_heap_same_graph _ s), boundary_same_graph. Qed.

End BodyOnly.

Section Removal.
Context {F : Type} `{PyFloat F}.
Implicit Types (s : Simulation F) (h : list (Particle F)).

Lemma disconnect_ok fuel k particle h h' :
  disconnect fuel k particle h = Some h' ->
  Forall particle_ok h -> Forall particle_ok h' /\ List.length h' = List.length h.
Proof.
  revert k h. induction fuel as [|fuel IH]; intros k h; simpl; [by intros [= <-]|].
  destruct (conn h particle !! k) as [connected|]; [|by intros [= <-]].
  destruct (list_remove particle (conn h connected)) as [l|] eqn:E; [|done].
  intros Hd Hok. apply IH in Hd as [Hok' Hlen].
  - split; [done|]. by rewrite Hlen, length_alter.
  - apply Forall_alter; [done|]. intros p Hp Hpok.
    apply particle_ok_shrink; [|done].
    rewrite (conn_lookup _ _ _ Hp) in E. apply list_remove_length in E. lia.
Qed.

Lemma age_same_graph i h :
  heap_same_graph h (alter (fun p => set_age (age p + 1) p) i h).
Proof. apply heap_same_graph_alter. intros p. by repeat split. Qed.

Lemma wf_disintegrate particle u s s' :
  disintegrate particle u s = Some s' -> wf s -> wf s'.
Proof.
  unfold disintegrate. destruct (is_type LINK (heap s) particle) eqn:Hl; [|by intros [= <-]].
  intros Hd Hwf.
  pose proof (wf_set_heap_same_graph _ s (age_same_graph particle (heap s)) Hwf) as Hwf1.
  set (s1 := set_heap _ s) in *.
  destruct (_ && _); [|by simplify_eq].
  destruct (disconnect _ _ _ _) as [h|] eqn:E; [|done]. simplify_eq.
  destruct (disconnect_ok _ _ _ _ _ E (wf_heap _ Hwf1)) as [Hok Hlen].
  apply wf_enqueue.
  { simpl. rewrite !length_app, Hlen. simpl. unfold s1. simpl. rewrite length_alter.
    apply is_type_lt in Hl. lia. }
  do 2 apply wf_Particle_init.
  destruct Hwf1 as [Hp Hnd Hh Hq Hpend Hst]. constructor; simpl in *; try done.
  - intros i Hi. rewrite Hlen. auto.
  - intros i Hi. rewrite Hlen. by apply Hpend.
Qed.

Lemma wf_disintegration_loop snapshot u s s' :
  disintegration_loop snapshot u s = Some s' -> wf s -> wf s'.
Proof.
  revert u s. induction snapshot as [|i l IH]; intros u s; simpl; [by intros [= <-]|].
  destruct (disintegrate i (u 0%nat) s) as [s1|] eqn:E; [|done].
  intros Hl Hwf. eapply IH; [done|]. by eapply wf_disintegrate.
Qed.

Lemma wf_handle_disintegration u s s' :
  handle_disintegration u s = Some s' -> wf s -> wf s'.
Proof. apply wf_disintegration_loop. Qed.

(** remove_particle *)

Lemma find_shape_Some shape (l : list pid) i :
  List.find (fun p => bool_decide (ShapeOf p = shape)) l = Some i ->
  shape = ShapeOf i /\ i ∈ l.
Proof.
  intros Hf. apply find_some in Hf as [Hin Hb].
  apply bool_decide_eq_true in Hb. split; [done|by apply list_elem_of_In].
Qed.

Lemma find_shape_None shape (l : list pid) :
  List.find (fun p => bool_decide (ShapeOf p = shape)) l = None ->
  forall i, i ∈ l -> shape <> ShapeOf i.
Proof.
  intros Hf i Hi ->. apply list_elem_of_In in Hi.
  pose proof (find_none _ _ Hf _ Hi) as Hb. simpl in Hb.
  by rewrite bool_decide_eq_true_2 in Hb.
Qed.


Lemma NoDup_filter_bool (f : nat -> bool) (l : list nat) : NoDup l -> NoDup (List.filter f l).
Proof.
  induction 1 as [|x l Hx Hnd IH]; simpl; [constructor|].
  destruct (f x); [|done]. constructor; [|done].
  intros Hin. apply Hx. apply list_elem_of_In in Hin. apply filter_In in Hin as [Hin _].
  by apply list_elem_of_In.
Qed.

Lemma elem_of_filter_bool (f : nat -> bool) (l : list nat) x :
  x ∈ List.filter f l <-> x ∈ l /\ f x = true.
Proof. rewrite !list_elem_of_In. apply filter_In. Qed.

Lemma filter_bool_ext (f g : nat -> bool) (l : list nat) :
  (forall x, x ∈ l -> f x = g x) -> List.filter f l = List.filter g l.
Proof.
  intros Hfg. apply filter_ext_in. intros x Hx. apply Hfg. by apply list_elem_of_In.
Qed.

Lemma filter_bool_true (f : nat -> bool) (l : list nat) :
  (forall x, x ∈ l -> f x = true) -> List.filter f l = l.
Proof.
  induction l as [|x l IH]; intros Hf; simpl; [done|].
  rewrite Hf by left. f_equal. apply IH. intros y Hy. apply Hf. by right.
Qed.

Lemma filter_bool_filter (f g : nat -> bool) (l : list nat) :
  List.filter f (List.filter g l) = List.filter (fun x => g x && f x) l.
Proof.
  induction l as [|x l IH]; simpl; [done|].
  destruct (g x); simpl; [destruct (f x)|]; by rewrite ?IH.
Qed.

Lemma length_filter_ne (l : list nat) x :
  NoDup l -> x ∈ l ->
  (List.length (List.filter (fun j => negb (bool_decide (j = x))) l) + 1
   = List.length l)%nat.
Proof.
  intros Hnd Hx. apply list_remove_is_Some in Hx as [l' Hl'].
  rewrite <- (list_remove_filter _ _ _ Hnd Hl').
  apply list_remove_length in Hl'. lia.
Qed.

Lemma filter_ne_absent (l : list nat) x :
  x ∉ l -> List.filter (fun j => negb (bool_decide (j = x))) l = l.
Proof.
  intros Hx. apply filter_bool_true. intros j Hj.
  apply negb_true_iff, bool_decide_eq_false. by intros ->.
Qed.

Lemma filter_bool_comm (f g : nat -> bool) (l : list nat) :
  List.filter f (List.filter g l) = List.filter g (List.filter f l).
Proof. rewrite !filter_bool_filter. apply filter_bool_ext. intros x _. apply andb_comm. Qed.

Lemma react_heap shape second s :
  heap (react shape second s) = heap s ++ [new_link shape second s].
Proof. done. Qed.

Lemma react_particles shape second s :
  particles (react shape second s) = particles s ++ [List.length (heap s)].
Proof. done. Qed.

Lemma react_to_remove shape second s :
  to_remove (react shape second s)
  = to_remove s ++ [(Some shape, None); (Some (ShapeOf second), None)].
Proof. simpl. by rewrite <- app_assoc. Qed.

Lemma is_type_app_l t h (p : Particle F) i :
  (i < List.length h)%nat -> is_type t (h ++ [p]) i = is_type t h i.
Proof. intros Hi. unfold is_type, type_of. by rewrite lookup_app_l. Qed.

Lemma is_type_app_new t h (p : Particle F) :
  is_type t (h ++ [p]) (List.length h) = bool_decide (type p = t).
Proof.
  unfold is_type, type_of. rewrite list_lookup_middle by done. simpl.
  apply bool_decide_ext. split; [by intros [= ->]|by intros ->].
Qed.

Lemma is_type_app_ne t h (p : Particle F) i :
  type p <> t -> is_type t (h ++ [p]) i = is_type t h i.
Proof.
  intros Hne. destruct (decide (i < List.length h)%nat) as [Hi|Hi];
    [by apply is_type_app_l|].
  unfold is_type, type_of. rewrite (lookup_ge_None_2 h i) by lia. simpl.
  transitivity false; [|done].
  apply bool_decide_eq_false. rewrite lookup_app_r by lia.
  destruct (i - List.length h)%nat as [|n]; simpl; [|done]. by intros [= ?].
Qed.

Lemma position_of_app_l h (p : Particle F) i :
  (i < List.length h)%nat -> position_of (h ++ [p]) i = position_of h i.
Proof. intros Hi. unfold position_of. by rewrite lookup_app_l. Qed.

(** ** The handler pymunk runs inside [space.remove] *)

(** A separate event changes the state only by a reaction: its substrate
    shape belongs to a SUBSTRATE, its other shape to the CATALYST. *)
Lemma callback_separate_cases c s :
  phase c = Separate ->
  callback c s = s
  \/ exists i other second,
       ((shape_a c = other /\ shape_b c = ShapeOf i)
        \/ (shape_a c = ShapeOf i /\ shape_b c = other))
       /\ collision_type (heap s) other = Some (value CATALYST)
       /\ is_type SUBSTRATE (heap s) i = true
       /\ second ∈ nearby_substrates s (ShapeOf i)
       /\ callback c s = react (ShapeOf i) second s.
Proof.
  intros Hph. unfold callback. rewrite Hph.
  destruct (in_space s (shape_a c) && in_space s (shape_b c)); [|by left].
  case_bool_decide as H1.
  - destruct H1 as [Ha Hb]. apply collision_type_substrate in Hb as (i & Hi & Ht).
    destruct (handle_catalyst_substrate_cases (shape_a c, shape_b c) (draw c) (pick c) s)
      as [[-> _]|(j & _ & Hj & ->)]; [by left|].
    right. exists i, (shape_a c), j. simpl in *. rewrite Hi in *. eauto 10.
  - case_bool_decide as H2; [|by left].
    destruct H2 as [Ha Hb]. apply collision_type_substrate in Ha as (i & Hi & Ht).
    destruct (handle_catalyst_substrate_cases (shape_b c, shape_a c) (draw c) (pick c) s)
      as [[-> _]|(j & _ & Hj & ->)]; [by left|].
    right. exists i, (shape_b c), j. simpl in *. rewrite Hi in *. eauto 10.
Qed.

Lemma separate_on_remove_cases (e : Ended) shape s :
  separate_on_remove e shape s = s
  \/ exists c, phase c = Separate /\ shape_b c = shape
               /\ separate_on_remove e shape s = callback c s.
Proof.
  destruct e as [[[other u] k]|]; [|by left]. right.
  by exists (mkContact Separate other shape u k).
Qed.

(** What the handler run inside [space.remove] for the shape of particle
    [i] may do: nothing, or a reaction; and if it reacts, [i] is not a
    LINK. *)
Lemma separate_on_remove_react (e : Ended) i s :
  separate_on_remove e (ShapeOf i) s = s
  \/ exists j second,
       is_type SUBSTRATE (heap s) j = true /\ second ∈ nearby_substrates s (ShapeOf j)
       /\ is_type LINK (heap s) i = false
       /\ separate_on_remove e (ShapeOf i) s = react (ShapeOf j) second s.
Proof.
  destruct (separate_on_remove_cases e (ShapeOf i) s) as [?|(c & Hph & Hb & ->)]; [by left|].
  destruct (callback_separate_cases c s Hph)
    as [?|(j & other & second & Hsh & Hcat & Hsub & Hnear & ->)]; [by left|].
  right. exists j, second. split; [done|]. split; [done|]. split; [|done].
  destruct Hsh as [[_ Hj]|[_ Ho]].
  - assert (j = i) as -> by congruence.
    apply not_true_iff_false. intros Hl.
    apply is_type_lookup in Hsub as (p & Hp1 & Htp).
    apply is_type_lookup in Hl as (p' & Hp2 & Htp'). congruence.
  - rewrite Hb in Ho. subst other. simpl in Hcat.
    apply not_true_iff_false. intros (p & Hp & Htp)%is_type_lookup.
    unfold type_of in Hcat. rewrite Hp in Hcat. simpl in Hcat. rewrite Htp in Hcat. done.
Qed.

(** ** remove_particle *)

Lemma wf_set_space sp s : wf s -> wf (set_space sp s).
Proof. intros [Hp Hnd Hh Hq Hpend Hst]. by constructor. Qed.

Lemma wf_remove_sensor i s : wf s -> wf (remove_sensor i s).
Proof. intros Hwf. unfold remove_sensor. destruct (has_sensor _ _); [by apply wf_set_space|done]. Qed.

Lemma wf_separate_on_remove (e : Ended) shape s : wf s -> wf (separate_on_remove e shape s).
Proof.
  intros Hwf. destruct (separate_on_remove_cases e shape s) as [->|(c & _ & _ & ->)];
    [done|by apply wf_callback].
Qed.

Lemma wf_space_remove (e : Ended) i s : wf s -> wf (space_remove e i s).
Proof. intros Hwf. unfold space_remove. by apply wf_set_space, wf_separate_on_remove. Qed.

Lemma particles_remove_particles i s :
  NoDup (particles s) -> i ∈ particles s ->
  particles (particles_remove i s) = without i (particles s).
Proof.
  intros Hnd Hi. unfold particles_remove. simpl.
  destruct (proj2 (list_remove_is_Some i (particles s)) Hi) as [l Hl].
  rewrite Hl. simpl. by apply list_remove_filter.
Qed.

Lemma particles_remove_sub i s j :
  j ∈ particles (particles_remove i s) -> j ∈ particles s.
Proof.
  unfold particles_remove. simpl.
  destruct (list_remove i (particles s)) as [l|] eqn:El; simpl; [|done].
  by eapply list_remove_elem_of.
Qed.

Lemma wf_particles_remove i s : wf s -> wf (particles_remove i s).
Proof.
  intros [Hp Hnd Hh Hq Hpend Hst]. constructor; try done.
  - intros j Hj%particles_remove_sub. auto.
  - unfold particles_remove. simpl.
    destruct (list_remove i (particles s)) as [l|] eqn:El; simpl; [|done].
    by destruct (list_remove_NoDup _ _ _ Hnd El).
Qed.

Lemma remove_particle_cases (e : Ended) shape s :
  (exists i, shape = ShapeOf i /\ i ∈ particles s
     /\ remove_particle e shape s
        = particles_remove i (space_remove e i (remove_sensor i s)))
  \/ ((forall i, i ∈ particles s -> shape <> ShapeOf i)
      /\ remove_particle e shape s = print not_found s).
Proof.
  unfold remove_particle. destruct (List.find _ (particles s)) as [i|] eqn:E.
  - left. exists i. apply find_shape_Some in E as [-> Hi]. done.
  - right. split; [|done]. by apply find_shape_None.
Qed.

Lemma wf_print line s : wf s -> wf (print line s).
Proof. intros [Hp Hnd Hh Hq Hpend Hst]. by constructor. Qed.

Lemma wf_remove_particle (e : Ended) shape s : wf s -> wf (remove_particle e shape s).
Proof.
  intros Hwf. destruct (remove_particle_cases e shape s) as [(i & _ & _ & ->)|[_ ->]].
  - by apply wf_particles_remove, wf_space_remove, wf_remove_sensor.
  - by apply wf_print.
Qed.

Lemma wf_remove_if_shape (e : Ended) m s : wf s -> wf (remove_if_shape e m s).
Proof. intros Hwf. unfold remove_if_shape. destruct (fst m); [by apply wf_remove_particle|done]. Qed.

(** ** What one turn of the flush does, whatever pymunk ends *)

(** The queue and the registry through the steps of a removal. *)
Lemma separate_on_remove_frame (e : Ended) shape s :
  wf s ->
  (exists l, to_remove (separate_on_remove e shape s) = to_remove s ++ l)
  /\ (forall i, i ∈ particles (separate_on_remove e shape s) <->
        i ∈ particles s
        \/ (i = List.length (heap s)
            /\ particles (separate_on_remove e shape s) <> particles s))
  /\ (List.length (heap s) <= List.length (heap (separate_on_remove e shape s)))%nat
  /\ bonds (separate_on_remove e shape s) = bonds s
  /\ springs (separate_on_remove e shape s) = springs s
  /\ stats (separate_on_remove e shape s) = stats s
  /\ stdout (separate_on_remove e shape s) = stdout s.
Proof.
  intros Hwf. destruct (separate_on_remove_cases e shape s) as [->|(c & Hph & _ & ->)].
  - split; [exists []; by rewrite app_nil_r|]. split; [|done]. intros i. split; [auto|].
    by intros [?|[_ ?]].
  - destruct (callback_separate_cases c s Hph) as [->|(j & o & second & _ & _ & _ & _ & ->)].
    + split; [exists []; by rewrite app_nil_r|]. split; [|done]. intros i. split; [auto|].
      by intros [?|[_ ?]].
    + split; [rewrite react_to_remove; eauto|]. split; [|split; [|done]].
      * intros i. rewrite react_particles, elem_of_app, list_elem_of_singleton.
        split; [|intros [?|[-> _]]; auto]. intros [?| ->]; [by left|].
        right. split; [done|].
        intros Heq. apply (f_equal List.length) in Heq. rewrite length_app in Heq.
        simpl in Heq. lia.
      * rewrite react_heap, length_app. lia.
Qed.

Lemma remove_sensor_frame i s :
  heap (remove_sensor i s) = heap s /\ particles (remove_sensor i s) = particles s
  /\ to_remove (remove_sensor i s) = to_remove s /\ bonds (remove_sensor i s) = bonds s
  /\ springs (remove_sensor i s) = springs s /\ stats (remove_sensor i s) = stats s
  /\ stdout (remove_sensor i s) = stdout s.
Proof. unfold remove_sensor. by destruct (has_sensor _ _). Qed.

Lemma filter_subseteq {A} (f : A -> bool) (l : list A) : List.filter f l ⊆ l.
Proof. intros x Hx. apply list_elem_of_In in Hx. apply filter_In in Hx as [Hx _]. by apply list_elem_of_In. Qed.

Lemma elem_of_without i (l : list pid) j : j ∈ without i l <-> j ∈ l /\ j <> i.
Proof.
  unfold without. rewrite elem_of_filter_bool, negb_true_iff, bool_decide_eq_false. done.
Qed.

(** The registry and the queue after [remove_particle]: the registry loses
    the owner of the shape and gains at most the LINK of a reaction, and
    the queue only grows. *)
Lemma remove_particle_registry (e : Ended) shape s :
  wf s ->
  (forall i, i ∈ particles (remove_particle e shape s) ->
     i ∈ particles s \/ (List.length (heap s) <= i)%nat)
  /\ (forall i, shape = ShapeOf i -> i ∉ particles (remove_particle e shape s))
  /\ (exists l, to_remove (remove_particle e shape s) = to_remove s ++ l)
  /\ (List.length (heap s) <= List.length (heap (remove_particle e shape s)))%nat.
Proof.
  intros Hwf. destruct (remove_particle_cases e shape s) as [(i0 & -> & Hi0 & ->)|[Hno ->]].
  - destruct (remove_sensor_frame i0 s) as (Hh1 & Hp1 & Hq1 & _).
    pose proof (wf_remove_sensor i0 s Hwf) as Hwf1.
    set (s1 := remove_sensor i0 s) in *.
    destruct (separate_on_remove_frame e (ShapeOf i0) s1 Hwf1) as ([l Hq2] & Hp2 & Hl2 & _).
    pose proof (wf_space_remove e i0 s1 Hwf1) as Hwf3.
    set (s3 := space_remove e i0 s1) in *.
    assert (particles s3 = particles (separate_on_remove e (ShapeOf i0) s1)) as Hp3 by done.
    split; [|split; [|split]].
    + intros i Hi%particles_remove_sub. rewrite Hp3 in Hi. apply Hp2 in Hi as [Hi|[-> _]].
      * left. by rewrite <- Hp1.
      * right. rewrite Hh1. done.
    + intros i [= <-]. rewrite particles_remove_particles.
      * intros [_ ?]%elem_of_without. done.
      * apply (wf_nodup _ Hwf3).
      * rewrite Hp3. apply Hp2. left. by rewrite Hp1.
    + exists l. simpl. rewrite Hq2. by rewrite Hq1.
    + simpl. by rewrite <- Hh1.
  - split; [by left|]. split; [|split; [exists []; by rewrite app_nil_r|done]].
    intros i -> Hi. by apply (Hno i).
Qed.

Lemma flush_one_null (e : Ended) m s :
  null_bond m -> flush_one e m s = Some (remove_if_shape e m s).
Proof. intros Hm. unfold flush_one. by rewrite Hm. Qed.

(** After the loop, no particle of the registry is queued. *)
Lemma flush_loop_processed fuel k (e : nat -> Ended) s s' :
  wf s ->
  (forall j (m : Pending) i, (j < k)%nat -> to_remove s !! j = Some m ->
     fst m = Some (ShapeOf i) ->
     i ∉ particles s) ->
  flush_loop fuel k e s = Some s' ->
  wf s' /\ forall i, pending s' i -> i ∉ particles s'.
Proof.
  revert k s. induction fuel as [|fuel IH]; intros k s Hwf Hdone; simpl.
  - destruct (to_remove s !! k) as [m|] eqn:Em; [done|]. intros [= <-]. split; [done|].
    intros i (m & Hm & Hin)%list_elem_of_fmap. apply list_elem_of_lookup in Hin as [j Hj].
    apply (Hdone j m i); [|done|done].
    apply lookup_ge_None in Em. apply lookup_lt_Some in Hj.
    eapply Nat.lt_le_trans; eassumption.
  - destruct (to_remove s !! k) as [m|] eqn:Em.
    2:{ intros [= <-]. split; [done|].
        intros i (m & Hm & Hin)%list_elem_of_fmap. apply list_elem_of_lookup in Hin as [j Hj].
        apply (Hdone j m i); [|done|done].
        apply lookup_ge_None in Em. apply lookup_lt_Some in Hj.
        eapply Nat.lt_le_trans; eassumption. }
    pose proof (proj1 (Forall_lookup _ _) (wf_queue _ Hwf) k m Em) as Hnull.
    rewrite (flush_one_null _ _ _ Hnull). apply IH; [by apply wf_remove_if_shape|].
    intros j m' i Hj Hm' Hfst. unfold remove_if_shape in *.
    destruct (fst m) as [shape|] eqn:Efst.
    + destruct (remove_particle_registry (e k) shape s Hwf) as (Hsub & Hgone & [l Hq] & _).
      rewrite Hq in Hm'.
      assert (j < List.length (to_remove s))%nat as Hlt
        by (apply lookup_lt_Some in Em; lia).
      rewrite lookup_app_l in Hm' by done.
      destruct (decide (j = k)) as [->|Hne].
      * rewrite Em in Hm'. injection Hm' as <-. apply Hgone. congruence.
      * intros [Hin|Hin]%Hsub.
        -- apply (Hdone j m' i); [lia|done|done|done].
        -- assert (pending s i) as Hp.
           { apply list_elem_of_fmap. exists m'. split; [done|].
             by eapply list_elem_of_lookup_2. }
           apply (wf_pending _ Hwf) in Hp. lia.
    + destruct (decide (j = k)) as [->|Hne];
        [rewrite Em in Hm'; injection Hm' as <-; congruence|].
      apply (Hdone j m' i); [lia|done|done].
Qed.

Lemma flush_loop_processed0 fuel (e : nat -> Ended) s s' :
  wf s -> flush_loop fuel 0 e s = Some s' ->
  wf s' /\ forall i, pending s' i -> i ∉ particles s'.
Proof.
  intros Hwf. apply flush_loop_processed; [done|]. intros j m i Hj.
  by apply Nat.nlt_0_r in Hj.
Qed.

Lemma wf_flush (e : nat -> Ended) s s' : flush e s = Some s' -> wf s -> wf s'.
Proof.
  unfold flush. destruct (flush_loop _ _ _ _) as [s1|] eqn:E; [|done]. intros [= <-] Hwf.
  destruct (flush_loop_processed0 _ _ _ _ Hwf E) as [[Hp Hnd Hh Hq Hpend Hst] _].
  constructor; [done|done|done|constructor| |done].
  intros i. unfold pending, queued. simpl. by intros ?%not_elem_of_nil.
Qed.

(** ** The loop stops: the fuel [flush] gives is enough *)

Lemma remove_if_shape_measure (e : Ended) m s :
  wf s ->
  (2 * List.length (List.filter (fun i => negb (is_type LINK (heap (remove_if_shape e m s)) i))
                      (particles (remove_if_shape e m s)))
   + List.length (to_remove (remove_if_shape e m s))
   <= 2 * List.length (List.filter (fun i => negb (is_type LINK (heap s) i)) (particles s))
      + List.length (to_remove s))%nat.
Proof.
  intros Hwf. unfold remove_if_shape. destruct (fst m) as [shape|]; [|done].
  destruct (remove_particle_cases e shape s) as [(i0 & -> & Hi0 & ->)|[Hno ->]]; [|done].
  destruct (remove_sensor_frame i0 s) as (Hh1 & Hp1 & Hq1 & _).
  pose proof (wf_remove_sensor i0 s Hwf) as Hwf1.
  rewrite <- Hh1, <- Hp1, <- Hq1. clear Hh1 Hq1. rewrite <- Hp1 in Hi0. clear Hp1.
  generalize dependent (remove_sensor i0 s). clear s Hwf. intros s Hi0 Hwf.
  pose proof (wf_space_remove e i0 s Hwf) as Hwf3.
  assert (forall s2, wf s2 -> i0 ∈ particles s2 ->
            (List.length (List.filter (fun i => negb (is_type LINK (heap s2) i))
                            (without i0 (particles s2)))
             + (if is_type LINK (heap s2) i0 then 0 else 1)
             = List.length (List.filter (fun i => negb (is_type LINK (heap s2) i))
                              (particles s2)))%nat) as Hcount.
  { intros s2 Hwf2 Hin. unfold without. rewrite filter_bool_comm.
    destruct (is_type LINK (heap s2) i0) eqn:Ht.
    - rewrite filter_ne_absent; [lia|].
      intros [_ Hx]%elem_of_filter_bool. by rewrite Ht in Hx.
    - apply length_filter_ne; [apply NoDup_filter_bool, (wf_nodup _ Hwf2)|].
      apply elem_of_filter_bool. by rewrite Ht. }
  unfold space_remove in *.
  destruct (separate_on_remove_react e i0 s) as [Heq|(j & second & Hj & Hsec & Hnl & Heq)].
  - rewrite Heq in *. rewrite particles_remove_particles by (try apply (wf_nodup _ Hwf); done).
    simpl. pose proof (Hcount s Hwf Hi0). destruct (is_type LINK (heap s) i0); lia.
  - rewrite Heq in *.
    assert (i0 ∈ particles (react (ShapeOf j) second s)) as Hin
      by (rewrite react_particles; apply elem_of_app; by left).
    rewrite particles_remove_particles by (try apply (wf_nodup _ Hwf3); done).
    cbn [heap particles to_remove set_space particles_remove set_particles].
    pose proof (Hcount (react (ShapeOf j) second s)) as Hc.
    rewrite react_heap, is_type_app_l, Hnl in Hc by by apply (wf_particles _ Hwf).
    rewrite react_heap, react_to_remove, length_app. simpl.
    assert (wf (react (ShapeOf j) second s)) as Hwfr.
    { apply wf_react; [simpl; by eapply is_type_lt| |done].
      apply nearby_substrates_elem in Hsec as (Hs & _). by apply (wf_particles _ Hwf). }
    specialize (Hc Hwfr Hin).
    assert (List.length (List.filter
              (fun i => negb (is_type LINK (heap s ++ [new_link (ShapeOf j) second s]) i))
              (particles (react (ShapeOf j) second s)))
            = List.length (List.filter (fun i => negb (is_type LINK (heap s) i)) (particles s)))
      as Hsame.
    { rewrite react_particles, List.filter_app, length_app. simpl.
      rewrite is_type_app_new. simpl. rewrite Nat.add_0_r. f_equal.
      apply filter_bool_ext. intros i Hi. f_equal. apply is_type_app_l.
      by apply (wf_particles _ Hwf). }
    rewrite react_particles in Hc, Hsame. lia.
Qed.

Lemma flush_loop_enough fuel k (e : nat -> Ended) s :
  wf s ->
  (2 * List.length (List.filter (fun i => negb (is_type LINK (heap s) i)) (particles s))
   + List.length (to_remove s) <= fuel + k)%nat ->
  exists s', flush_loop fuel k e s = Some s'.
Proof.
  revert k s. induction fuel as [|fuel IH]; intros k s Hwf Hm; simpl.
  - destruct (to_remove s !! k) as [m|] eqn:Em; [|eauto].
    apply lookup_lt_Some in Em. lia.
  - destruct (to_remove s !! k) as [m|] eqn:Em; [|eauto].
    pose proof (proj1 (Forall_lookup _ _) (wf_queue _ Hwf) k m Em) as Hnull.
    rewrite (flush_one_null _ _ _ Hnull). apply IH; [by apply wf_remove_if_shape|].
    pose proof (remove_if_shape_measure (e k) m s Hwf). lia.
Qed.

(** The flush returns. *)
Lemma flush_total (e : nat -> Ended) s : wf s -> exists s', flush e s = Some s'.
Proof.
  intros Hwf. unfold flush.
  destruct (flush_loop_enough (2 * List.length (particles s) + List.length (to_remove s))
              0 e s Hwf) as [s' ->]; [|eauto].
  pose proof (List.filter_length_le (fun i => negb (is_type LINK (heap s) i)) (particles s)).
  lia.
Qed.

(** ** Invariants of the flush

    A property that the reaction handler, the removals from the space and
    the removal of a queued particle from the registry keep is kept by the
    loop of the flush, whatever contacts pymunk ends. *)
Section FlushInvariant.
Variable I : Simulation F -> Prop.
Hypothesis I_space : forall s sp,
  I s -> constraints sp = constraints (space s) ->
  shapes sp ⊆ shapes (space s) -> bodies sp ⊆ bodies (space s) -> I (set_space sp s).
Hypothesis I_callback : forall s c, wf s -> I s -> phase c = Separate -> I (callback c s).
Hypothesis I_remove : forall s i,
  wf s -> I s -> i ∈ particles s -> pending s i -> I (particles_remove i s).
Hypothesis I_print : forall s, I s -> I (print not_found s).

Lemma remove_particle_inv (e : Ended) shape s :
  wf s -> I s -> (forall i, shape = ShapeOf i -> pending s i) ->
  I (remove_particle e shape s).
Proof.
  intros Hwf HI Hpend.
  destruct (remove_particle_cases e shape s) as [(i0 & -> & Hi0 & ->)|[Hno ->]];
    [|by apply I_print].
  specialize (Hpend i0 eq_refl).
  destruct (remove_sensor_frame i0 s) as (Hh1 & Hp1 & Hq1 & _).
  pose proof (wf_remove_sensor i0 s Hwf) as Hwf1.
  assert (I (remove_sensor i0 s)) as HI1.
  { unfold remove_sensor. destruct (has_sensor _ _); [|done].
    apply I_space; [done|done|apply filter_subseteq|done]. }
  set (s1 := remove_sensor i0 s) in *.
  destruct (separate_on_remove_frame e (ShapeOf i0) s1 Hwf1) as ([l Hq2] & Hp2 & _).
  pose proof (wf_separate_on_remove e (ShapeOf i0) s1 Hwf1) as Hwf2.
  assert (I (separate_on_remove e (ShapeOf i0) s1)) as HI2.
  { destruct (separate_on_remove_cases e (ShapeOf i0) s1) as [->|(c & Hph & _ & ->)];
      [done|by apply I_callback]. }
  unfold space_remove. set (s2 := separate_on_remove e (ShapeOf i0) s1) in *.
  apply I_remove.
  - by apply wf_set_space.
  - apply I_space; [done|done|apply filter_subseteq|apply filter_subseteq].
  - simpl. apply Hp2. left. by rewrite Hp1.
  - unfold pending, queued. simpl. rewrite Hq2, Hq1, fmap_app. apply elem_of_app. by left.
Qed.

Lemma flush_loop_inv fuel k (e : nat -> Ended) s s' :
  wf s -> I s -> flush_loop fuel k e s = Some s' -> I s'.
Proof.
  revert k s. induction fuel as [|fuel IH]; intros k s Hwf HI; simpl.
  - destruct (to_remove s !! k); [done|]. by intros [= <-].
  - destruct (to_remove s !! k) as [m|] eqn:Em; [|by intros [= <-]].
    pose proof (proj1 (Forall_lookup _ _) (wf_queue _ Hwf) k m Em) as Hnull.
    rewrite (flush_one_null _ _ _ Hnull). apply IH; [by apply wf_remove_if_shape|].
    unfold remove_if_shape. destruct (fst m) as [shape|] eqn:Efst; [|done].
    apply remove_particle_inv; [done|done|]. intros i ->.
    apply list_elem_of_fmap. exists m. split; [done|]. by eapply list_elem_of_lookup_2.
Qed.

Hypothesis I_clear : forall s,
  wf s -> I s -> (forall i, pending s i -> i ∉ particles s) -> I (set_to_remove [] s).

Lemma flush_inv (e : nat -> Ended) s s' : wf s -> I s -> flush e s = Some s' -> I s'.
Proof.
  intros Hwf HI. unfold flush. destruct (flush_loop _ _ _ _) as [s1|] eqn:E; [|done].
  intros [= <-].
  destruct (flush_loop_processed0 _ _ _ _ Hwf E) as [Hwf1 Hdone].
  apply I_clear; [done| |done]. exact (flush_loop_inv _ _ _ _ _ Hwf HI E).
Qed.

End FlushInvariant.

Lemma react_frame shape second s :
  bonds (react shape second s) = bonds s /\ stats (react shape second s) = stats s
  /\ springs (react shape second s) = springs s /\ stdout (react shape second s) = stdout s
  /\ constraints (space (react shape second s)) = constraints (space s).
Proof. done. Qed.

(** The same with the handler's clause stated for the reaction that fires. *)
Lemma flush_inv_react (I : Simulation F -> Prop) :
  (forall s sp, I s -> constraints sp = constraints (space s) ->
     shapes sp ⊆ shapes (space s) -> bodies sp ⊆ bodies (space s) -> I (set_space sp s)) ->
  (forall s i second, wf s -> I s -> is_type SUBSTRATE (heap s) i = true ->
     second ∈ nearby_substrates s (ShapeOf i) -> I (react (ShapeOf i) second s)) ->
  (forall s i, wf s -> I s -> i ∈ particles s -> pending s i -> I (particles_remove i s)) ->
  (forall s, I s -> I (print not_found s)) ->
  (forall s, wf s -> I s -> (forall i, pending s i -> i ∉ particles s) ->
     I (set_to_remove [] s)) ->
  forall (e : nat -> Ended) s s', wf s -> I s -> flush e s = Some s' -> I s'.
Proof.
  intros Hspace Hreact Hremove Hprint Hclear. apply flush_inv; try done.
  intros s c Hwf HI Hph.
  destruct (callback_separate_cases c s Hph) as [->|(i & other & second & _ & _ & Hi & Hs & ->)];
    [done|by apply Hreact].
Qed.

(** ** The flush when pymunk ends no contact *)

Lemma remove_if_shape_quiet_frame (m : Pending) s :
  heap (remove_if_shape None m s) = heap s /\ bonds (remove_if_shape None m s) = bonds s
  /\ to_remove (remove_if_shape None m s) = to_remove s
  /\ stats (remove_if_shape None m s) = stats s
  /\ springs (remove_if_shape None m s) = springs s.
Proof.
  unfold remove_if_shape. destruct (fst m) as [shape|]; [|done].
  unfold remove_particle. destruct (List.find _ _); [|done].
  unfold particles_remove, space_remove, remove_sensor. simpl. by destruct (has_sensor _ _).
Qed.

Lemma remove_if_shape_quiet_particles (m : Pending) s :
  NoDup (particles s) ->
  particles (remove_if_shape None m s)
  = List.filter (fun i => negb (bool_decide (fst m = Some (ShapeOf i)))) (particles s).
Proof.
  intros Hnd. unfold remove_if_shape. destruct (fst m) as [shape|].
  - destruct (remove_particle_cases None shape s) as [(i & -> & Hi & ->)|[Hno ->]].
    + assert (particles (space_remove None i (remove_sensor i s)) = particles s) as Hp
        by (unfold space_remove, remove_sensor; simpl; by destruct (has_sensor _ _)).
      rewrite particles_remove_particles by by rewrite Hp. rewrite Hp.
      apply filter_bool_ext. intros j _. f_equal. apply bool_decide_ext.
      split; [by intros ->|by intros [= ->]].
    + simpl. symmetry. apply filter_bool_true. intros i Hi.
      apply negb_true_iff, bool_decide_eq_false. intros [= ->]. by eapply Hno.
  - symmetry. apply filter_bool_true. intros i _. done.
Qed.

(** With no contact ended the loop is a fold over the queue as it stands. *)
Lemma flush_loop_quiet fuel k s :
  Forall null_bond (to_remove s) -> (List.length (to_remove s) <= fuel + k)%nat ->
  flush_loop fuel k quiet s
  = Some (foldl (fun s m => remove_if_shape None m s) s (drop k (to_remove s))).
Proof.
  revert k s. induction fuel as [|fuel IH]; intros k s Hq Hlen; simpl.
  - rewrite (proj2 (lookup_ge_None _ _)) by lia. by rewrite drop_ge by lia.
  - destruct (to_remove s !! k) as [m|] eqn:Em.
    + pose proof (proj1 (Forall_lookup _ _) Hq k m Em) as Hnull.
      unfold quiet at 1. rewrite (flush_one_null _ _ _ Hnull).
      destruct (remove_if_shape_quiet_frame m s) as (_ & _ & Hq1 & _).
      rewrite IH by (rewrite Hq1; (done || lia)).
      rewrite Hq1, (drop_S _ _ _ Em). done.
    + apply lookup_ge_None in Em. by rewrite drop_ge by lia.
Qed.

Lemma flush_quiet s :
  Forall null_bond (to_remove s) ->
  flush quiet s
  = Some (set_to_remove [] (foldl (fun s m => remove_if_shape None m s) s (to_remove s))).
Proof.
  intros Hq. unfold flush. rewrite flush_loop_quiet by (done || lia). by rewrite drop_0.
Qed.

(** The fold drops from the registry exactly the particles whose shape is
    in the list. *)
Lemma fold_remove_spec (q : list Pending) s :
  NoDup (particles s) ->
  particles (foldl (fun s m => remove_if_shape None m s) s q)
  = List.filter (fun i => negb (bool_decide (queued q i))) (particles s)
  /\ heap (foldl (fun s m => remove_if_shape None m s) s q) = heap s
  /\ bonds (foldl (fun s m => remove_if_shape None m s) s q) = bonds s
  /\ to_remove (foldl (fun s m => remove_if_shape None m s) s q) = to_remove s
  /\ stats (foldl (fun s m => remove_if_shape None m s) s q) = stats s
  /\ springs (foldl (fun s m => remove_if_shape None m s) s q) = springs s.
Proof.
  revert s. induction q as [|m q IH]; intros s Hnd; simpl.
  - split; [|done]. symmetry. apply filter_bool_true. intros i _. done.
  - destruct (remove_if_shape_quiet_frame m s) as (Hh & Hb & Ht & Hst & Hsp).
    pose proof (remove_if_shape_quiet_particles m s Hnd) as Hparts.
    destruct (IH (remove_if_shape None m s)) as (Hp' & Hh' & Hb' & Ht' & Hst' & Hsp');
      [rewrite Hparts; by apply NoDup_filter_bool|].
    rewrite Hp', Hparts, filter_bool_filter.
    split; [|repeat split; congruence].
    apply filter_bool_ext. intros i _. rewrite <- negb_orb. f_equal.
    apply eq_true_iff_eq. rewrite orb_true_iff, !bool_decide_eq_true.
    unfold queued. rewrite fmap_cons, elem_of_cons. split; intros [?|?]; auto.
Qed.


Lemma wf_update_stats s : wf s -> wf (update_stats s).
Proof. intros [Hp Hnd Hh Hq Hpend Hst]. by constructor. Qed.

Lemma wf_exec o s s' : exec o s = Some s' -> wf s -> wf s'.
Proof.
  destruct o; simpl; intros He Hwf; simplify_eq;
    eauto using wf_move, wf_callback, wf_apply_brownian_motion,
      wf_handle_disintegration, wf_handle_boundary_collision, wf_flush, wf_update_stats.
Qed.

Lemma reachable_wf s : reachable s -> wf s.
Proof. induction 1; eauto using wf_init, wf_exec. Qed.

End Removal.

Section Frames.
Context {F : Type} `{PyFloat F}.
Implicit Types (s : Simulation F) (h : list (Particle F)).

Lemma disintegrate_frame particle u s s' :
  disintegrate particle u s = Some s' ->
  particles s' = particles s /\ bonds s' = bonds s /\ stats s' = stats s
  /\ springs s' = springs s /\ stdout s' = stdout s.
Proof.
  unfold disintegrate. destruct (is_type LINK (heap s) particle); [|by intros [= <-]].
  destruct (_ && _); [|by intros [= <-]].
  destruct (disconnect _ _ _ _); [|done]. by intros [= <-].
Qed.

Lemma disintegration_loop_frame snapshot u s s' :
  disintegration_loop snapshot u s = Some s' ->
  particles s' = particles s /\ bonds s' = bonds s /\ stats s' = stats s
  /\ springs s' = springs s /\ stdout s' = stdout s.
Proof.
  revert u s. induction snapshot as [|i l IH]; intros u s; simpl; [by intros [= <-]|].
  destruct (disintegrate i (u 0%nat) s) as [s1|] eqn:E; [|done].
  intros Hl. apply IH in Hl as (-> & -> & -> & -> & ->). by eapply disintegrate_frame.
Qed.

Lemma callback_bonds c s :
  bonds (callback c s) = bonds s
  \/ bonds (callback c s) = bonds s ++ [List.length (springs s)].
Proof.
  assert (forall arbiter u k, bonds (handle_catalyst_substrate arbiter u k s) = bonds s) as Hr.
  { intros arbiter u k.
    by destruct (handle_catalyst_substrate_cases arbiter u k s) as [[-> _]|(j & _ & _ & ->)]. }
  assert (forall arbiter, bonds (handle_link_detection arbiter s) = bonds s
            \/ bonds (handle_link_detection arbiter s) = bonds s ++ [List.length (springs s)]) as Hb.
  { intros arbiter.
    destruct (handle_link_detection_cases arbiter s) as [->|(p1 & p2 & _ & _ & _ & ->)]; auto. }
  unfold callback. destruct (_ && _); [|by left].
  destruct (phase c); repeat case_bool_decide; auto.
Qed.

Lemma callback_stats c s : stats (callback c s) = stats s.
Proof.
  assert (forall arbiter u k, stats (handle_catalyst_substrate arbiter u k s) = stats s) as Hr.
  { intros arbiter u k.
    by destruct (handle_catalyst_substrate_cases arbiter u k s) as [[-> _]|(j & _ & _ & ->)]. }
  assert (forall arbiter, stats (handle_link_detection arbiter s) = stats s) as Hb.
  { intros arbiter.
    by destruct (handle_link_detection_cases arbiter s) as [->|(p1 & p2 & _ & _ & _ & ->)]. }
  unfold callback. destruct (_ && _); [|done].
  destruct (phase c); repeat case_bool_decide; auto.
Qed.

(** What no flush changes, whatever contacts pymunk ends in it. *)
Lemma flush_frame (e : nat -> Ended) s s' :
  wf s -> flush e s = Some s' ->
  bonds s' = bonds s /\ stats s' = stats s /\ springs s' = springs s
  /\ constraints (space s') = constraints (space s)
  /\ heap s `prefix_of` heap s'.
Proof.
  intros Hwf.
  apply (flush_inv_react
           (fun s' => bonds s' = bonds s /\ stats s' = stats s /\ springs s' = springs s
                      /\ constraints (space s') = constraints (space s)
                      /\ heap s `prefix_of` heap s')); try done.
  - intros s1 sp (? & ? & ? & ? & ?) Hc _ _. simpl. repeat split; try done. congruence.
  - intros s1 i second _ (? & ? & ? & ? & ?) _ _.
    destruct (react_frame (ShapeOf i) second s1) as (-> & -> & -> & _ & ->).
    repeat split; try done. rewrite react_heap. by apply prefix_app_r.
Qed.

Lemma flush_to_remove (e : nat -> Ended) s s' : flush e s = Some s' -> to_remove s' = [].
Proof. unfold flush. destruct (flush_loop _ _ _ _); [|done]. by intros [= <-]. Qed.

Lemma exec_bonds o s s' :
  wf s -> exec o s = Some s' ->
  bonds s `prefix_of` bonds s'
  /\ (stat_bonds (stats s) <= stat_bonds (stats s'))%nat.
Proof.
  intros Hwf. destruct o; simpl; intros He; simplify_eq; simpl; try done.
  - rewrite callback_stats. split; [|done].
    destruct (callback_bonds c s) as [->| ->]; [done|by apply prefix_app_r].
  - apply disintegration_loop_frame in He as (_ & -> & -> & _). done.
  - destruct (flush_frame e s s' Hwf He) as (-> & -> & _). done.
  - split; [done|]. apply (wf_stats _ Hwf).
Qed.

End Frames.

Section Claims.
Context {F : Type} `{PyFloat F}.
Implicit Types (s : Simulation F) (h : list (Particle F)).

(** C3: in every state the engine's operations can reach, a LINK particle
    has between 0 and 2 connections and a particle of another kind has
    none.  This holds for every particle object, also for those no longer
    in the registry. *)
Theorem connections_bounded s i (p : Particle F) :
  reachable s -> heap s !! i = Some p -> degree_ok p.
Proof.
  intros Hr Hp. apply reachable_wf in Hr.
  pose proof (Forall_lookup_1 _ _ _ _ (wf_heap _ Hr) Hp) as (Hm & Hc & _).
  unfold degree_ok. destruct (decide (type p = LINK)) as [Ht|Ht].
  - split; [intros _; lia|done].
  - split; [done|intros _]. destruct (connections p); [done|simpl in Hc; lia].
Qed.

Lemma remove_if_shape_set_to_remove (q : list Pending) (m : Pending) s :
  remove_if_shape None m (set_to_remove q s) = set_to_remove q (remove_if_shape None m s).
Proof.
  unfold remove_if_shape. destruct (fst m) as [shape|]; [|done].
  unfold remove_particle. simpl. destruct (List.find _ _) as [i|]; [|done].
  unfold particles_remove, space_remove, remove_sensor. simpl.
  by destruct (has_sensor _ _).
Qed.

Lemma fold_remove_set_to_remove (q q' : list Pending) s :
  foldl (fun s m => remove_if_shape None m s) (set_to_remove q s) q'
  = set_to_remove q (foldl (fun s m => remove_if_shape None m s) s q').
Proof.
  revert s. induction q' as [|m q' IH]; intros s; simpl; [done|].
  by rewrite remove_if_shape_set_to_remove, IH.
Qed.

(** Once [remove_particle] has run for a shape, running it again for that
    shape only prints the warning, whatever contacts pymunk ends. *)
Lemma remove_particle_again (e e' : Ended) shape s :
  wf s ->
  remove_particle e' shape (remove_particle e shape s)
  = print not_found (remove_particle e shape s).
Proof.
  intros Hwf. destruct (remove_particle_registry e shape s Hwf) as (_ & Hgone & _).
  destruct (remove_particle_cases e' shape (remove_particle e shape s))
    as [(i & -> & Hi & _)|[_ ->]]; [|done].
  by apply Hgone in Hi.
Qed.

(** The loop of the flush only appends to the queue it walks. *)
Lemma flush_loop_queue fuel k (e : nat -> Ended) s s' :
  wf s -> flush_loop fuel k e s = Some s' -> to_remove s `prefix_of` to_remove s'.
Proof.
  intros Hwf.
  apply (flush_loop_inv (fun s' => to_remove s `prefix_of` to_remove s')); try done.
  intros s1 c _ Hp Hph.
  destruct (callback_separate_cases c s1 Hph) as [->|(i & other & second & _ & _ & _ & _ & ->)];
    [done|]. rewrite react_to_remove. by apply prefix_app_r.
Qed.

(** The flush returns, with an empty queue and none of the queued particles
    in the registry, whatever contacts pymunk ends. *)
Lemma flush_drops_pending (e : nat -> Ended) s :
  wf s ->
  exists s', flush e s = Some s' /\ to_remove s' = []
    /\ forall i, pending s i -> i ∉ particles s'.
Proof.
  intros Hwf. destruct (flush_total e s Hwf) as [s' Hs']. exists s'.
  split; [done|]. split; [by eapply flush_to_remove|].
  unfold flush in Hs'. destruct (flush_loop _ _ _ _) as [s1|] eqn:E; [|done].
  injection Hs' as <-. simpl.
  destruct (flush_loop_processed0 _ _ _ _ Hwf E) as [_ Hdone].
  destruct (flush_loop_queue _ _ _ _ _ Hwf E) as [l Hl].
  intros i Hi. apply Hdone. unfold pending, queued in *. rewrite Hl, fmap_app.
  apply elem_of_app. by left.
Qed.

(** C7: flushing a remove-particle mutation that the same flush has already
    carried out finds no particle, prints the warning and changes nothing
    else.  With no contact ended by the removals, the state after the flush
    of a queue that repeats one of its entries at the end is the one after
    the flush of the queue without the repeat, but for the warning line.
    Whatever contact pymunk ends, once [remove_particle] has run for a shape
    the next turn of the loop for that shape only prints the warning. *)
Theorem flush_twice_as_once s (q : list Pending) shape :
  reachable s -> Forall null_bond q -> (Some shape, None) ∈ q ->
  (exists s1, flush quiet (set_to_remove q s) = Some s1
     /\ flush quiet (set_to_remove (q ++ [(Some shape, None)]) s)
        = Some (print not_found s1))
  /\ forall e e' : Ended,
       flush_one e' (Some shape, None) (remove_particle e shape s)
       = Some (print not_found (remove_particle e shape s)).
Proof.
  intros Hr Hq Hin. apply reachable_wf in Hr. split.
  - rewrite (flush_quiet (set_to_remove q s)) by done.
    rewrite (flush_quiet (set_to_remove (q ++ [(Some shape, None)]) s))
      by (simpl; apply Forall_app; split; [done|by repeat constructor]).
    eexists. split; [done|]. f_equal. simpl.
    rewrite !fold_remove_set_to_remove, foldl_app. simpl.
    destruct (fold_remove_spec q s (wf_nodup _ Hr)) as (Hparts & _).
    set (s1 := foldl _ s q) in *.
    unfold remove_if_shape. simpl.
    destruct (remove_particle_cases None shape s1) as [(i & -> & Hi & _)|[_ ->]]; [|done].
    exfalso. rewrite Hparts in Hi. apply elem_of_filter_bool in Hi as [_ Hi].
    apply negb_true_iff, bool_decide_eq_false in Hi. apply Hi.
    unfold queued. by apply (list_elem_of_fmap_2 fst) in Hin.
  - intros e e'. rewrite flush_one_null by done. unfold remove_if_shape. simpl.
    by rewrite remove_particle_again.
Qed.

(** C9: every entry of the removal queue has [None] as its bond, so the
    one place that removes from [self.bonds] is never reached: whatever
    operation runs, the old list of bonds is a prefix of the new one and
    the bond count of the statistics does not go down. *)
Theorem bonds_never_removed s o s' :
  reachable s -> exec o s = Some s' ->
  Forall null_bond (to_remove s) /\ Forall null_bond (to_remove s')
  /\ bonds s `prefix_of` bonds s'
  /\ (stat_bonds (stats s) <= stat_bonds (stats s'))%nat.
Proof.
  intros Hr He. pose proof (reachable_wf _ Hr) as Hwf.
  pose proof (wf_exec _ _ _ He Hwf) as Hwf'.
  split; [apply (wf_queue _ Hwf)|]. split; [apply (wf_queue _ Hwf')|].
  by apply (exec_bonds o).
Qed.

End Claims.

Section Bonding.
Context {F : Type} `{PyFloat F}.
Implicit Types (s : Simulation F) (h : list (Particle F)).

Lemma conn_alter_eq (f : Particle F -> Particle F) h i :
  conn (alter f i h) i = from_option (fun p => connections (f p)) [] (h !! i).
Proof. unfold conn. rewrite list_lookup_alter_eq. by destruct (h !! i). Qed.

Lemma conn_alter_ne (f : Particle F -> Particle F) h i j :
  i <> j -> conn (alter f i h) j = conn h j.
Proof. intros Hne. unfold conn. by rewrite list_lookup_alter_ne. Qed.

Lemma conn_append h i j q :
  is_Some (h !! i) ->
  conn (alter (append_connection q) i h) j
  = if decide (i = j) then conn h i ++ [q] else conn h j.
Proof.
  intros [p Hp]. destruct (decide (i = j)) as [<-|Hne].
  - rewrite conn_alter_eq, Hp. simpl. by rewrite (conn_lookup _ _ _ Hp).
  - by apply conn_alter_ne.
Qed.

Lemma type_of_alter_graph (f : Particle F -> Particle F) h i j :
  (forall p, type (f p) = type p) -> type_of (alter f i h) j = type_of h j.
Proof.
  intros Hf. unfold type_of. destruct (decide (i = j)) as [<-|Hne].
  - rewrite list_lookup_alter_eq. destruct (h !! i); simpl; by rewrite ?Hf.
  - by rewrite list_lookup_alter_ne.
Qed.

Lemma create_bond_conn p1 p2 s j :
  p1 <> p2 -> is_Some (heap s !! p1) -> is_Some (heap s !! p2) ->
  conn (heap (create_bond p1 p2 s)) j
  = if decide (j = p1) then conn (heap s) p1 ++ [p2]
    else if decide (j = p2) then conn (heap s) p2 ++ [p1]
    else conn (heap s) j.
Proof.
  intros Hne H1 H2. simpl. rewrite conn_append.
  2:{ by rewrite list_lookup_alter_ne. }
  destruct (decide (p2 = j)) as [<-|Hne2].
  - rewrite decide_False by done. rewrite decide_True by done.
    by rewrite conn_alter_ne.
  - rewrite conn_append by done.
    destruct (decide (p1 = j)) as [<-|Hne1].
    + by rewrite decide_True.
    + by rewrite !decide_False.
Qed.

Lemma create_bond_type_of p1 p2 s j :
  type_of (heap (create_bond p1 p2 s)) j = type_of (heap s) j.
Proof. simpl. by rewrite !type_of_alter_graph. Qed.

Lemma max_connections_of_alter_graph (f : Particle F -> Particle F) h i j :
  (forall p, max_connections (f p) = max_connections p) ->
  max_connections_of (alter f i h) j = max_connections_of h j.
Proof.
  intros Hf. unfold max_connections_of. destruct (decide (i = j)) as [<-|Hne].
  - rewrite list_lookup_alter_eq. destruct (h !! i); simpl; by rewrite ?Hf.
  - by rewrite list_lookup_alter_ne.
Qed.

Lemma create_bond_max p1 p2 s j :
  max_connections_of (heap (create_bond p1 p2 s)) j = max_connections_of (heap s) j.
Proof. simpl. by rewrite !max_connections_of_alter_graph. Qed.

Lemma p1_candidates_create_bond p1 p2 s sensor :
  p1_candidates (create_bond p1 p2 s) sensor = p1_candidates s sensor.
Proof.
  unfold p1_candidates. apply filter_bool_ext. intros i _.
  unfold has_sensor, is_type. by rewrite create_bond_type_of.
Qed.

Lemma p1_candidates_head s sensor p1 :
  head (p1_candidates s sensor) = Some p1 ->
  sensor = SensorOf p1 /\ p1 ∈ particles s /\ is_type LINK (heap s) p1 = true.
Proof.
  intros Hh. assert (p1 ∈ p1_candidates s sensor) as Hin.
  { destruct (p1_candidates s sensor); simplify_eq/=. left. }
  apply elem_of_filter_bool in Hin as [Hin [Ht Heq]%andb_true_iff].
  apply bool_decide_eq_true in Heq. done.
Qed.

Lemma p2_candidates_head s shape p2 :
  head (p2_candidates s shape) = Some p2 -> shape = ShapeOf p2 /\ p2 ∈ particles s.
Proof.
  intros Hh. assert (p2 ∈ p2_candidates s shape) as Hin.
  { destruct (p2_candidates s shape); simplify_eq/=. left. }
  apply elem_of_filter_bool in Hin as [Hin Heq]. apply bool_decide_eq_true in Heq. done.
Qed.

Lemma link_max_connections s i :
  wf s -> is_type LINK (heap s) i = true -> max_connections_of (heap s) i = 2%Z.
Proof.
  intros Hwf (p & Hp & Ht)%is_type_lookup.
  rewrite (max_connections_of_lookup _ _ _ Hp).
  pose proof (Forall_lookup_1 _ _ _ _ (wf_heap _ Hwf) Hp) as (Hm & _).
  by rewrite Hm, decide_True.
Qed.

Lemma radius_of_link s i :
  wf s -> is_type LINK (heap s) i = true -> radius_of (heap s) i = 8%Z.
Proof.
  intros Hwf (p & Hp & Ht)%is_type_lookup. unfold radius_of. rewrite Hp. simpl.
  pose proof (Forall_lookup_1 _ _ _ _ (wf_heap _ Hwf) Hp) as (_ & _ & Hrad).
  rewrite Hrad, decide_True; [done|]. by rewrite Ht.
Qed.

(** C5: for a begin-overlap event that resolves to the sensor owner [p1] and
    the LINK body owner [p2], a bond is made exactly when the two differ,
    both have fewer than 2 connections and [p2] is not yet connected to
    [p1]; the bond is one new damped spring between the two bodies, of rest
    length 8 * 2.5, stiffness 150 and damping 1, added to the space and to
    the list of bonds, and it appends each particle to the other's
    connections; otherwise the state is unchanged; and the same event once
    more changes nothing. *)
Theorem bond_formation_rule s arbiter p1 p2 :
  reachable s ->
  head (p1_candidates s (fst arbiter)) = Some p1 ->
  head (p2_candidates s (snd arbiter)) = Some p2 ->
  is_type LINK (heap s) p2 = true ->
  ((p1 <> p2 /\ (List.length (conn (heap s) p1) < 2)%nat
     /\ (List.length (conn (heap s) p2) < 2)%nat /\ p2 ∉ conn (heap s) p1) ->
     springs (handle_link_detection arbiter s)
     = springs s ++ [mkSpring p1 p2 (fmul (of_Z 8) (lit 25 10)) 150 1]
     /\ constraints (space (handle_link_detection arbiter s))
        = constraints (space s) ++ [List.length (springs s)]
     /\ bonds (handle_link_detection arbiter s) = bonds s ++ [List.length (springs s)]
     /\ conn (heap (handle_link_detection arbiter s)) p1 = conn (heap s) p1 ++ [p2]
     /\ conn (heap (handle_link_detection arbiter s)) p2 = conn (heap s) p2 ++ [p1])
  /\ (~ (p1 <> p2 /\ (List.length (conn (heap s) p1) < 2)%nat
         /\ (List.length (conn (heap s) p2) < 2)%nat /\ p2 ∉ conn (heap s) p1) ->
      handle_link_detection arbiter s = s)
  /\ handle_link_detection arbiter (handle_link_detection arbiter s)
     = handle_link_detection arbiter s.
Proof.
  intros Hr H1 H2 Hl2. apply reachable_wf in Hr.
  destruct (p1_candidates_head _ _ _ H1) as (_ & _ & Hl1).
  assert (may_bond s p1 p2 = true <->
          p1 <> p2 /\ (List.length (conn (heap s) p1) < 2)%nat
          /\ (List.length (conn (heap s) p2) < 2)%nat /\ p2 ∉ conn (heap s) p1) as Hguard.
  { rewrite may_bond_true, !link_max_connections by done.
    split; intros (?&?&?&?); repeat split; try done; lia. }
  assert (is_Some (heap s !! p1)) as Hs1.
  { apply is_type_lookup in Hl1 as (p & -> & _). eauto. }
  assert (is_Some (heap s !! p2)) as Hs2.
  { apply is_type_lookup in Hl2 as (p & -> & _). eauto. }
  assert (handle_link_detection arbiter s
          = if may_bond s p1 p2 then create_bond p1 p2 s else s) as Hhandle.
  { unfold handle_link_detection.
    destruct (p1_candidates s (fst arbiter)); simplify_eq/=.
    destruct (p2_candidates s (snd arbiter)); simplify_eq/=. done. }
  split; [|split].
  - intros Hg. pose proof Hg as (Hne & _). apply Hguard in Hg.
    rewrite Hhandle, Hg.
    split; [simpl; by rewrite (radius_of_link s p1 Hr Hl1)|]. split; [done|]. split; [done|].
    rewrite !create_bond_conn by done.
    rewrite decide_True by done. rewrite (decide_False (P := p2 = p1)) by done.
    by rewrite decide_True.
  - intros Hg. rewrite Hhandle. destruct (may_bond s p1 p2) eqn:E; [|done].
    exfalso. by apply Hg, Hguard.
  - rewrite Hhandle. destruct (may_bond s p1 p2) eqn:E; [|by rewrite Hhandle, ?E].
    pose proof E as (Hne & _)%may_bond_true.
    unfold handle_link_detection at 1.
    rewrite p1_candidates_create_bond.
    destruct (p1_candidates s (fst arbiter)); simplify_eq/=.
    unfold p2_candidates in *. simpl.
    destruct (List.filter _ (particles s)); simplify_eq/=.
    assert (may_bond (create_bond p1 p2 s) p1 p2 = false) as ->; [|done].
    apply not_true_iff_false. intros (_ & _ & _ & Hnot)%may_bond_true.
    apply Hnot. rewrite create_bond_conn by done. rewrite decide_True by done.
    apply elem_of_app. right. left.
Qed.

End Bonding.

Section Reaction.
Context {F : Type} `{PyFloat F}.
Implicit Types (s : Simulation F) (h : list (Particle F)).

Lemma nearby_substrates_react shape second s shape' :
  is_Some (heap s !! owner shape') ->
  nearby_substrates (react shape second s) shape' = nearby_substrates s shape'.
Proof.
  intros Hsh%lookup_lt_is_Some. unfold nearby_substrates.
  rewrite react_particles, react_heap, List.filter_app. simpl.
  rewrite is_type_app_new. simpl. rewrite app_nil_r.
  apply filter_bool_ext. intros i _.
  rewrite is_type_app_ne by done.
  destruct (is_type SUBSTRATE (heap s) i) eqn:Ht; [|done]. simpl.
  apply is_type_lt in Ht. by rewrite !position_of_app_l.
Qed.

(** C2, as the code has it: a reaction takes nothing out of the registry,
    so the substrates it queued stay registered and stay candidates until
    the flush: the registry after a reaction event begins with the registry
    before it, and for any substrate shape of a later event the neighbour
    candidates after the event are the candidates before it, the queued
    ones included.  The flush then returns with no queued particle left in
    the registry, whatever contacts pymunk ends in it, and the turn of its
    loop that comes upon a shape [remove_particle] has already run for
    only prints the warning. *)
Theorem queued_substrate_stays_candidate s arbiter u k shape :
  is_Some (heap s !! owner shape) ->
  particles s `prefix_of` particles (handle_catalyst_substrate arbiter u k s)
  /\ nearby_substrates (handle_catalyst_substrate arbiter u k s) shape
     = nearby_substrates s shape
  /\ (reachable s ->
      (forall e : nat -> Ended,
         exists s', flush e s = Some s' /\ to_remove s' = []
           /\ forall i, pending s i -> i ∉ particles s')
      /\ (forall (e e' : Ended) i,
            flush_one e' (Some (ShapeOf i), None) (remove_particle e (ShapeOf i) s)
            = Some (print not_found (remove_particle e (ShapeOf i) s)))).
Proof.
  intros Hsh. split; [|split].
  - destruct (handle_catalyst_substrate_cases arbiter u k s) as [[-> _]|(j & _ & _ & ->)];
      [done|]. rewrite react_particles. by apply prefix_app_r.
  - destruct (handle_catalyst_substrate_cases arbiter u k s) as [[-> _]|(j & _ & _ & ->)];
      [done|by apply nearby_substrates_react].
  - intros Hwf%reachable_wf. split.
    + intros e. by apply flush_drops_pending.
    + intros e e' i. rewrite flush_one_null by done. unfold remove_if_shape. simpl.
      by rewrite remove_particle_again.
Qed.

End Reaction.

Section Conservation.
Context {F : Type} `{PyFloat F}.
Implicit Types (s : Simulation F) (h : list (Particle F)).

Lemma pending_react shape second s i :
  pending (react shape second s) i
  <-> pending s i \/ shape = ShapeOf i \/ second = i.
Proof.
  unfold pending, queued. rewrite react_to_remove, fmap_app, elem_of_app. simpl.
  rewrite !elem_of_cons. split.
  - intros [?|[[= ?]|[[= ?]|?%not_elem_of_nil]]]; auto. done.
  - intros [?|[->| ->]]; auto.
Qed.




End Conservation.

Section Graph.
Context {F : Type} `{PyFloat F}.
Implicit Types (s : Simulation F) (h : list (Particle F)).

Lemma conn_app_empty h (p : Particle F) i :
  connections p = [] -> conn (h ++ [p]) i = conn h i.
Proof.
  intros Hp. unfold conn. destruct (decide (i < List.length h)%nat) as [Hi|Hi].
  - by rewrite lookup_app_l.
  - rewrite (lookup_ge_None_2 h i) by lia. rewrite lookup_app_r by lia.
    destruct (i - List.length h)%nat as [|n]; simpl; [done|]. done.
Qed.

Lemma conn_elem_lt h i j : j ∈ conn h i -> (i < List.length h)%nat.
Proof.
  unfold conn. destruct (h !! i) as [p|] eqn:E; simpl.
  - intros _. by eapply lookup_lt_Some.
  - by intros ?%not_elem_of_nil.
Qed.

(** A state change that keeps the registry, the queue, the kinds and the
    connection lists keeps the graph invariant. *)
Lemma graph_ok_transfer s s' :
  particles s' = particles s -> to_remove s' = to_remove s ->
  (forall i, conn (heap s') i = conn (heap s) i) ->
  (forall i, is_type LINK (heap s') i = is_type LINK (heap s) i) ->
  graph_ok s -> graph_ok s'.
Proof.
  intros Hp Hq Hc Ht [Hnd Hirr Hmut].
  assert (forall i, active s' i <-> active s i) as Hact.
  { intros i. unfold active, live, pending. by rewrite Hp, Hq, Ht. }
  constructor.
  - intros i. rewrite Hc. apply Hnd.
  - intros i. rewrite Hc. apply Hirr.
  - intros i j. rewrite !Hact, !Hc. apply Hmut.
Qed.

Lemma graph_ok_set_heap_same_graph h' s :
  heap_same_graph (heap s) h' -> graph_ok s -> graph_ok (set_heap h' s).
Proof.
  intros Hs. apply graph_ok_transfer; try done; simpl.
  - intros i. by apply heap_same_graph_conn.
  - intros i. by apply heap_same_graph_is_type.
Qed.

Lemma no_link_pending_set_heap_same_graph h' s :
  heap_same_graph (heap s) h' -> no_link_pending s -> no_link_pending (set_heap h' s).
Proof.
  intros Hs Hn i Hi. simpl. rewrite (heap_same_graph_is_type _ _ _ _ Hs). by apply Hn.
Qed.

(** The same for a change that may let the registry and the queue grow. *)
Lemma graph_ok_grow s s' :
  (forall i, conn (heap s') i = conn (heap s) i) ->
  (forall i j, active s' i -> j ∈ conn (heap s) i -> active s i) ->
  (forall i j, active s' i -> j ∈ conn (heap s) i -> active s j -> active s' j) ->
  graph_ok s -> graph_ok s'.
Proof.
  intros Hc Hb Hf [Hnd Hirr Hmut]. constructor.
  - intros i. rewrite Hc. apply Hnd.
  - intros i. rewrite Hc. apply Hirr.
  - intros i j Hi. rewrite !Hc. intros Hj.
    destruct (Hmut i j) as [Haj Hij]; eauto.
Qed.

(** Construction: a new particle has no connections. *)

Lemma graph_ok_Particle_init px py t s :
  wf s -> graph_ok s -> graph_ok (snd (Particle_init px py t s)).
Proof.
  intros Hwf. apply graph_ok_grow; simpl.
  - intros i. by apply conn_app_empty.
  - intros i j (Hl & Ht & Hp) _. repeat split; try done.
    simpl in Ht. rewrite is_type_app_l in Ht; [done|]. by apply (wf_particles _ Hwf).
  - intros i j _ _ (Hl & Ht & Hp). repeat split; try done.
    simpl. rewrite is_type_app_l; [done|]. by apply (wf_particles _ Hwf).
Qed.

Lemma graph_ok_register px py t s :
  wf s -> graph_ok s ->
  graph_ok (set_particles (particles s ++ [List.length (heap s)])
              (snd (Particle_init px py t s))).
Proof.
  intros Hwf. apply graph_ok_grow; simpl.
  - intros i. by apply conn_app_empty.
  - intros i j (Hl & Ht & Hp) Hj. apply conn_elem_lt in Hj.
    unfold live in Hl. simpl in Hl. apply elem_of_app in Hl as [Hl|Hl%list_elem_of_singleton];
      [|lia].
    repeat split; try done. simpl in Ht. by rewrite is_type_app_l in Ht.
  - intros i j _ _ (Hl & Ht & Hp). repeat split; try done.
    + unfold live. simpl. apply elem_of_app. by left.
    + simpl. rewrite is_type_app_l; [done|]. by apply (wf_particles _ Hwf).
Qed.

Lemma between_ticks_add_substrates n k offsets s :
  between_ticks s -> between_ticks (add_substrates n k offsets s).
Proof.
  revert k s. induction n as [|n IH]; intros k s (Hwf & Hg & Hq); simpl; [done|].
  apply IH. split; [apply (wf_register _ _ SUBSTRATE s Hwf)|].
  split; [by apply (graph_ok_register _ _ SUBSTRATE s)|done].
Qed.

Lemma between_ticks_init offsets : between_ticks (init offsets).
Proof.
  unfold init, setup_simulation. generalize num_substrate. intros n.
  apply between_ticks_add_substrates.
  set (s0 := mkSim [] [] (mkSpace [] [] []) [] [] [] (mkStats 0 0 0) []).
  assert (wf s0) as Hwf0.
  { constructor; simpl; try done; try constructor; intros i Hi; inversion Hi. }
  assert (graph_ok s0) as Hg0.
  { constructor; simpl.
    - intros i. unfold conn. rewrite lookup_nil. constructor.
    - intros i. unfold conn. rewrite lookup_nil. apply not_elem_of_nil.
    - intros i j _. unfold conn. rewrite lookup_nil. by intros ?%not_elem_of_nil. }
  split; [apply (wf_register _ _ CATALYST s0 Hwf0)|].
  split; [by apply (graph_ok_register _ _ CATALYST s0)|done].
Qed.

(** The reaction: a new LINK without connections, two substrates queued. *)

Lemma graph_ok_react shape second s :
  wf s -> (forall j, shape = ShapeOf j -> is_type LINK (heap s) j = false) ->
  second ∈ nearby_substrates s shape ->
  graph_ok s -> graph_ok (react shape second s).
Proof.
  intros Hwf Hshape (Hsec & Ht2 & _)%nearby_substrates_elem.
  apply graph_ok_grow.
  - intros i. rewrite react_heap. by apply conn_app_empty.
  - intros i j (Hl & Ht & Hp) Hj. apply conn_elem_lt in Hj.
    unfold live in Hl. rewrite react_particles in Hl.
    apply elem_of_app in Hl as [Hl|Hl%list_elem_of_singleton]; [|lia].
    repeat split; try done.
    + rewrite react_heap in Ht. by rewrite is_type_app_l in Ht.
    + intros Hpend. apply Hp, pending_react. by left.
  - intros i j _ _ (Hl & Ht & Hp). repeat split.
    + unfold live. rewrite react_particles. apply elem_of_app. by left.
    + rewrite react_heap, is_type_app_l; [done|]. by apply (wf_particles _ Hwf).
    + intros [?|[Hs| ->]]%pending_react; [done| |].
      * apply Hshape in Hs. congruence.
      * apply is_type_lookup in Ht as (p & Hp1 & Htp).
        apply is_type_lookup in Ht2 as (p' & Hp2 & Htp'). congruence.
Qed.

Lemma no_link_pending_react shape second s :
  wf s -> no_link_pending s ->
  (forall j, shape = ShapeOf j -> is_type SUBSTRATE (heap s) j = true) ->
  second ∈ nearby_substrates s shape ->
  no_link_pending (react shape second s).
Proof.
  intros Hwf Hn Hshape (Hsec & Ht2 & _)%nearby_substrates_elem i Hi.
  rewrite react_heap.
  assert (forall j, is_type SUBSTRATE (heap s) j = true ->
            is_type LINK (heap s ++ [new_link shape second s]) j = false) as Hsub.
  { intros j Hj. rewrite is_type_app_l by by eapply is_type_lt.
    apply not_true_iff_false. intros Hl.
    apply is_type_lookup in Hj as (p & Hp1 & Htp).
    apply is_type_lookup in Hl as (p' & Hp2 & Htp'). congruence. }
  apply pending_react in Hi as [Hi|[Hs| ->]]; [|by auto..].
  rewrite is_type_app_l; [by apply Hn|]. by apply (wf_pending _ Hwf).
Qed.

End Graph.

Section GraphBond.
Context {F : Type} `{PyFloat F}.
Implicit Types (s : Simulation F) (h : list (Particle F)).

Lemma is_type_positive_max s i :
  wf s -> (0 < max_connections_of (heap s) i)%Z -> is_type LINK (heap s) i = true.
Proof.
  intros Hwf Hm. destruct (max_connections_positive _ _ Hm) as [p Hp].
  rewrite (max_connections_of_lookup _ _ _ Hp) in Hm.
  pose proof (Forall_lookup_1 _ _ _ _ (wf_heap _ Hwf) Hp) as (Hmax & _).
  apply is_type_lookup. exists p. split; [done|].
  destruct (decide (type p = LINK)); [done|]. rewrite Hmax in Hm. lia.
Qed.

Lemma graph_ok_create_bond p1 p2 s :
  wf s -> no_link_pending s -> p1 ∈ particles s -> p2 ∈ particles s ->
  may_bond s p1 p2 = true -> graph_ok s -> graph_ok (create_bond p1 p2 s).
Proof.
  intros Hwf Hnl Hl1 Hl2 Hb [Hnd Hirr Hmut].
  pose proof Hb as (Hne & Hm1 & Hm2 & Hnot)%may_bond_true.
  assert (is_type LINK (heap s) p1 = true) as Ht1 by (apply is_type_positive_max; [done|lia]).
  assert (is_type LINK (heap s) p2 = true) as Ht2 by (apply is_type_positive_max; [done|lia]).
  assert (is_Some (heap s !! p1)) as Hs1.
  { apply is_type_lookup in Ht1 as (p & -> & _). eauto. }
  assert (is_Some (heap s !! p2)) as Hs2.
  { apply is_type_lookup in Ht2 as (p & -> & _). eauto. }
  assert (forall i, active s i <-> live s i /\ is_type LINK (heap s) i = true) as Hact.
  { intros i. split; [by intros (?&?&?)|]. intros [? Ht]. repeat split; try done.
    intros Hp%Hnl. congruence. }
  assert (active s p1 /\ active s p2) as [Ha1 Ha2] by by rewrite !Hact.
  assert (p1 ∉ conn (heap s) p2) as Hnot'.
  { intros Hin. by destruct (Hmut p2 p1 Ha2 Hin) as [_ ?]. }
  assert (forall i, active (create_bond p1 p2 s) i <-> active s i) as Hact'.
  { intros i. unfold active, live, pending, is_type.
    by rewrite create_bond_type_of. }
  assert (forall i j, j ∈ conn (heap s) i -> j ∈ conn (heap (create_bond p1 p2 s)) i) as Hmono.
  { intros i j Hj. rewrite create_bond_conn by done.
    repeat case_decide; subst; try done; apply elem_of_app; by left. }
  constructor.
  - intros i. rewrite create_bond_conn by done. repeat case_decide; subst; try done.
    + apply NoDup_app. split; [done|]. split; [|apply NoDup_singleton].
      intros x Hx ->%list_elem_of_singleton. done.
    + apply NoDup_app. split; [done|]. split; [|apply NoDup_singleton].
      intros x Hx ->%list_elem_of_singleton. done.
  - intros i. rewrite create_bond_conn by done. repeat case_decide; subst; try done.
    + intros [?|?%list_elem_of_singleton]%elem_of_app; [by eapply Hirr|done].
    + intros [?|?%list_elem_of_singleton]%elem_of_app; [by eapply Hirr|congruence].
  - intros i j Hi%Hact'. rewrite (create_bond_conn _ _ _ i) by done. rewrite Hact'.
    repeat case_decide; subst.
    + intros [Hj|Hj%list_elem_of_singleton]%elem_of_app.
      * destruct (Hmut _ _ Hi Hj). auto.
      * subst. split; [done|]. rewrite create_bond_conn by done.
        rewrite decide_False by done. rewrite decide_True by done.
        apply elem_of_app. right. left.
    + intros [Hj|Hj%list_elem_of_singleton]%elem_of_app.
      * destruct (Hmut _ _ Hi Hj). auto.
      * subst. split; [done|]. rewrite create_bond_conn by done.
        rewrite decide_True by done. apply elem_of_app. right. left.
    + intros Hj. destruct (Hmut _ _ Hi Hj). auto.
Qed.

Lemma no_link_pending_create_bond p1 p2 s :
  no_link_pending s -> no_link_pending (create_bond p1 p2 s).
Proof.
  intros Hn i Hi. unfold is_type. rewrite create_bond_type_of. by apply Hn.
Qed.

Lemma in_step_handle_catalyst_substrate arbiter u k s :
  (forall j, snd arbiter = ShapeOf j -> is_type SUBSTRATE (heap s) j = true) ->
  (owner (snd arbiter) < List.length (heap s))%nat ->
  in_step s -> in_step (handle_catalyst_substrate arbiter u k s).
Proof.
  intros Hshape Hlt (Hwf & Hg & Hn).
  destruct (handle_catalyst_substrate_cases arbiter u k s) as [[-> _]|(j & _ & Hj & ->)];
    [done|].
  split; [|split].
  - apply wf_react; [done| |done].
    apply nearby_substrates_elem in Hj as (Hj & _). by apply (wf_particles _ Hwf).
  - apply graph_ok_react; try done. intros i Hi%Hshape.
    apply not_true_iff_false. intros Hl.
    apply is_type_lookup in Hi as (p & Hp1 & Htp).
    apply is_type_lookup in Hl as (p' & Hp2 & Htp'). congruence.
  - by apply no_link_pending_react.
Qed.

Lemma in_step_handle_link_detection arbiter s :
  in_step s -> in_step (handle_link_detection arbiter s).
Proof.
  intros (Hwf & Hg & Hn).
  destruct (handle_link_detection_cases arbiter s) as [->|(p1 & p2 & H1 & H2 & Hb & ->)];
    [done|].
  apply p1_candidates_head in H1 as (_ & Hl1 & _).
  apply p2_candidates_head in H2 as (_ & Hl2).
  split; [by apply wf_create_bond|].
  split; [by apply graph_ok_create_bond|by apply no_link_pending_create_bond].
Qed.

Lemma in_step_callback c s : in_step s -> in_step (callback c s).
Proof.
  intros Hs. unfold callback.
  destruct (in_space s (shape_a c) && in_space s (shape_b c)); [|done].
  destruct (phase c); repeat case_bool_decide; auto using in_step_handle_link_detection;
    match goal with
    | Hc : _ /\ _ |- _ => destruct Hc as [Ha Hb]
    end.
  - apply collision_type_substrate in Hb as (i & Hi & Ht).
    apply in_step_handle_catalyst_substrate; simpl; [|rewrite Hi; by eapply is_type_lt|done].
    intros j Hj. congruence.
  - apply collision_type_substrate in Ha as (i & Hi & Ht).
    apply in_step_handle_catalyst_substrate; simpl; [|rewrite Hi; by eapply is_type_lt|done].
    intros j Hj. congruence.
Qed.

Lemma in_step_space_step kin contacts s :
  in_step s -> in_step (space_step kin contacts s).
Proof.
  intros (Hwf & Hg & Hn). unfold space_step.
  assert (in_step (move kin s)) as Hm.
  { split; [by apply wf_move|].
    split; [apply (graph_ok_set_heap_same_graph _ s), Hg; apply move_same_graph|].
    apply (no_link_pending_set_heap_same_graph _ s), Hn. apply move_same_graph. }
  revert Hm. generalize (move kin s). induction contacts as [|c l IH]; intros s' Hs'; simpl;
    [done|].
  apply IH. by apply in_step_callback.
Qed.

End GraphBond.

Section GraphDecay.
Context {F : Type} `{PyFloat F}.
Implicit Types (s : Simulation F) (h : list (Particle F)).

Lemma conn_set_connections h i l j :
  is_Some (h !! i) ->
  conn (alter (set_connections l) i h) j = if decide (i = j) then l else conn h j.
Proof.
  intros [p Hp]. destruct (decide (i = j)) as [<-|Hne].
  - rewrite conn_alter_eq, Hp. done.
  - by apply conn_alter_ne.
Qed.

Lemma elem_of_drop_elem (c : list pid) k j : j ∈ drop k c -> j ∈ c.
Proof. apply subseteq_drop. Qed.

(** The loop over [particle.connections]: when the connections are
    distinct, do not contain the particle itself and each of them lists the
    particle, the loop ends normally, having dropped the particle from each
    of them and changed nothing else. *)
Lemma disconnect_spec particle c fuel k h :
  conn h particle = c -> particle ∉ c -> NoDup c ->
  (forall j, NoDup (conn h j)) ->
  (List.length c <= k + fuel)%nat ->
  (forall j, j ∈ drop k c -> particle ∈ conn h j) ->
  exists h', disconnect fuel k particle h = Some h'
    /\ List.length h' = List.length h
    /\ (forall j, type_of h' j = type_of h j)
    /\ forall j, conn h' j
         = if decide (j ∈ drop k c) then without particle (conn h j) else conn h j.
Proof.
  intros Hc Hni Hnd. revert k h Hc.
  induction fuel as [|fuel IH]; intros k h Hc Hndall Hlen Hall.
  - exists h. simpl. do 3 (split; [done|]). intros j.
    rewrite drop_ge by lia. by rewrite decide_False by apply not_elem_of_nil.
  - simpl. rewrite Hc. destruct (c !! k) as [j0|] eqn:Ek.
    + pose proof (drop_S _ _ _ Ek) as Hdrop.
      assert (j0 ∈ drop k c) as Hj0 by (rewrite Hdrop; left).
      assert (j0 <> particle) as Hne.
      { intros ->. by apply Hni, (elem_of_drop_elem _ k). }
      assert (j0 ∉ drop (S k) c) as Hj0'.
      { assert (NoDup (drop k c)) as Hndk by (eapply sublist_NoDup; [done|apply sublist_drop]).
        rewrite Hdrop in Hndk. by apply NoDup_cons in Hndk as [? _]. }
      pose proof (Hall _ Hj0) as Hin.
      assert (is_Some (h !! j0)) as Hsome by (apply lookup_lt_is_Some; by eapply conn_elem_lt).
      destruct (proj2 (list_remove_is_Some particle (conn h j0)) Hin) as [l Hl].
      rewrite Hl. pose proof (list_remove_filter _ _ _ (Hndall j0) Hl) as Hlf.
      fold (without particle (conn h j0)) in Hlf.
      destruct (IH (S k) (alter (set_connections l) j0 h)) as (h' & Hd & Hlen' & Hty & Hconn).
      * rewrite conn_set_connections by done. by rewrite decide_False.
      * intros j. rewrite conn_set_connections by done. case_decide; [|done].
        subst l. by apply NoDup_filter_bool.
      * lia.
      * intros j Hj. rewrite conn_set_connections by done.
        rewrite decide_False by (intros ->; done). apply Hall. rewrite Hdrop. by right.
      * exists h'. split; [done|]. split; [by rewrite Hlen', length_alter|].
        split; [intros j; by rewrite Hty, type_of_alter_graph|].
        intros j. rewrite Hconn, conn_set_connections by done. rewrite Hdrop.
        destruct (decide (j0 = j)) as [<-|Hnej].
        -- rewrite decide_False by done. rewrite decide_True by left. done.
        -- destruct (decide (j ∈ drop (S k) c)) as [Hj|Hj].
           ++ by rewrite decide_True by by right.
           ++ rewrite decide_False; [done|].
              intros [?|?]%elem_of_cons; [congruence|done].
    + exists h. do 3 (split; [done|]). intros j.
      apply lookup_ge_None in Ek. rewrite drop_ge by lia.
      by rewrite decide_False by apply not_elem_of_nil.
Qed.

End GraphDecay.

Section GraphTick.
Context {F : Type} `{PyFloat F}.
Implicit Types (s : Simulation F) (h : list (Particle F)).

(** The graph after an active LINK [i] has been dropped from the
    connections of its neighbours and queued. *)
Lemma graph_ok_disconnected i s s' :
  wf s -> graph_ok s -> active s i ->
  particles s' = particles s ->
  (forall j, pending s' j <-> pending s j \/ j = i) ->
  (forall j, conn (heap s') j
     = if decide (j ∈ conn (heap s) i) then without i (conn (heap s) j)
       else conn (heap s) j) ->
  (forall j, (j < List.length (heap s))%nat ->
     is_type LINK (heap s') j = is_type LINK (heap s) j) ->
  graph_ok s'.
Proof.
  intros Hwf [Hnd Hirr Hmut] Hai Hp Hq Hc Ht.
  assert (forall a b, b ∈ conn (heap s') a -> b ∈ conn (heap s) a /\ b <> i \/
                      b ∈ conn (heap s) a /\ a ∉ conn (heap s) i) as Hsub.
  { intros a b. rewrite Hc. case_decide; [|by right].
    intros [? ?]%elem_of_without. by left. }
  assert (forall a, active s' a <-> active s a /\ a <> i) as Hact.
  { intros a. unfold active, live. rewrite Hp, Hq. split.
    - intros (Hl & Hta & Hpa). rewrite Ht in Hta by by apply (wf_particles _ Hwf).
      repeat split; auto.
    - intros ((Hl & Hta & Hpa) & Hne). rewrite Ht by by apply (wf_particles _ Hwf).
      repeat split; try done. by intros [?|?]. }
  constructor.
  - intros a. rewrite Hc. case_decide; [apply NoDup_filter_bool|]; apply Hnd.
  - intros a Ha. apply Hsub in Ha as [[Ha _]|[Ha _]]; by eapply Hirr.
  - intros a b [Ha Hnea]%Hact Hb.
    assert (b ∈ conn (heap s) a /\ b <> i) as [Hb' Hneb].
    { apply Hsub in Hb as [?|[Hb Hna]]; [done|]. split; [done|].
      intros ->. destruct (Hmut _ _ Ha Hb) as [_ Hin]. done. }
    destruct (Hmut _ _ Ha Hb') as [Hab Hin]. split; [by apply Hact|].
    rewrite Hc. case_decide; [|done]. by apply elem_of_without.
Qed.

Lemma in_decay_disintegrate i rest u s :
  in_decay (i :: rest) s -> NoDup (i :: rest) ->
  exists s', disintegrate i u s = Some s' /\ in_decay rest s'.
Proof.
  intros (Hwf & Hg & Hlive & Hnp) [Hirest Hndrest]%NoDup_cons.
  assert (in_decay rest s) as Hrest.
  { split; [done|]. split; [done|].
    split; intros j Hj; [apply Hlive|apply Hnp]; by right. }
  destruct (disintegrate i u s) as [s'|] eqn:Hd.
  2:{ exfalso. revert Hd. unfold disintegrate.
      destruct (is_type LINK (heap s) i) eqn:Hl; [|done].
      set (s1 := set_heap _ s). destruct (_ && _); [|done].
      assert (heap_same_graph (heap s) (heap s1)) as Hsg by apply age_same_graph.
      pose proof (graph_ok_set_heap_same_graph _ s Hsg Hg) as [Hnd1 Hirr1 Hmut1].
      fold s1 in Hnd1, Hirr1, Hmut1.
      assert (active s1 i) as Hai.
      { repeat split.
        - apply Hlive. left.
        - simpl. by rewrite (heap_same_graph_is_type _ _ _ _ Hsg).
        - apply Hnp; [left|done]. }
      destruct (disconnect_spec i (conn (heap s1) i) (List.length (conn (heap s1) i)) 0
                  (heap s1)) as (h' & -> & _); try done.
      intros j Hj. rewrite drop_0 in Hj. by destruct (Hmut1 _ _ Hai Hj). }
  exists s'. split; [done|].
  pose proof (wf_disintegrate _ _ _ _ Hd Hwf) as Hwf'.
  revert Hd. unfold disintegrate.
  destruct (is_type LINK (heap s) i) eqn:Hl; [|by intros [= <-]].
  set (s1 := set_heap _ s).
  assert (heap_same_graph (heap s) (heap s1)) as Hsg by apply age_same_graph.
  pose proof (wf_set_heap_same_graph _ s Hsg Hwf) as Hwf1.
  pose proof (graph_ok_set_heap_same_graph _ s Hsg Hg) as Hg1.
  fold s1 in Hwf1, Hg1.
  assert (forall j, is_type LINK (heap s1) j = is_type LINK (heap s) j) as Hty1.
  { intros j. by apply heap_same_graph_is_type. }
  assert (in_decay rest s1) as Hrest1.
  { destruct Hrest as (_ & _ & Hl1 & Hn1). split; [done|]. split; [done|].
    split; [done|]. intros j Hj. rewrite Hty1. by apply Hn1. }
  destruct (_ && _); [|by intros [= <-]].
  assert (active s1 i) as Hai.
  { repeat split; [apply Hlive; left|by rewrite Hty1|apply Hnp; [left|done]]. }
  pose proof Hg1 as [Hnd1 Hirr1 Hmut1].
  destruct (disconnect_spec i (conn (heap s1) i) (List.length (conn (heap s1) i)) 0
              (heap s1)) as (h' & Hdis & Hlen & Hty & Hconn); try done.
  { intros j Hj. rewrite drop_0 in Hj. by destruct (Hmut1 _ _ Hai Hj). }
  rewrite Hdis. intros [= <-].
  match goal with |- in_decay _ ?st => set (sf := st) in * end.
  assert (forall j, pending sf j <-> pending s1 j \/ j = i) as Hpend.
  { intros j. unfold sf. rewrite pending_enqueue. simpl.
    split; intros [?|?]; auto; right; congruence. }
  assert (exists p1 p2, heap sf = (h' ++ [p1]) ++ [p2]
            /\ connections p1 = [] /\ connections p2 = []) as (p1 & p2 & Hhf & Hc1 & Hc2).
  { do 2 eexists. split; [reflexivity|done]. }
  assert (particles sf = particles s1) as Hpf by reflexivity.
  assert (forall j, (j < List.length (heap s1))%nat ->
            is_type LINK (heap sf) j = is_type LINK (heap s1) j) as Htyf.
  { intros j Hj. rewrite Hhf, !is_type_app_l by (rewrite ?length_app; lia).
    unfold is_type. by rewrite Hty. }
  split; [done|]. split; [|split].
  - eapply (graph_ok_disconnected i s1); try done.
    intros j. rewrite Hhf, !conn_app_empty by done. rewrite Hconn, drop_0. done.
  - intros j Hj. rewrite Hpf. by apply Hrest1.
  - intros j Hj Hlj. rewrite Hpend. intros [Hp| ->]; [|done].
    destruct Hrest1 as (_ & _ & Hl1 & Hn1). apply (Hn1 j Hj); [|done].
    rewrite <- Htyf; [done|]. by apply (wf_particles _ Hwf1), Hl1.
Qed.

Lemma in_decay_loop rest u s :
  in_decay rest s -> NoDup rest ->
  exists s', disintegration_loop rest u s = Some s' /\ wf s' /\ graph_ok s'.
Proof.
  revert u s. induction rest as [|i rest IH]; intros u s Hin Hnd; simpl.
  - exists s. destruct Hin as (? & ? & _). done.
  - destruct (in_decay_disintegrate i rest (u 0%nat) s Hin Hnd) as (s1 & -> & Hin1).
    apply IH; [done|]. by apply NoDup_cons in Hnd as [_ ?].
Qed.

Lemma in_step_handle_disintegration u s :
  in_step s -> exists s', handle_disintegration u s = Some s' /\ wf s' /\ graph_ok s'.
Proof.
  intros (Hwf & Hg & Hn). apply in_decay_loop; [|apply (wf_nodup _ Hwf)].
  split; [done|]. split; [done|]. split; [done|]. intros j _ Hl Hp%Hn. congruence.
Qed.

Lemma graph_ok_flush (e : nat -> Ended) s s' :
  wf s -> graph_ok s -> flush e s = Some s' -> graph_ok s'.
Proof.
  apply (flush_inv_react graph_ok).
  - intros s1 sp Hg _ _ _. revert Hg. by apply graph_ok_transfer.
  - intros s1 i second Hwf Hg Hi Hsec. apply graph_ok_react; try done.
    intros j [= <-]. apply is_type_lookup in Hi as (p & Hp & Ht).
    unfold is_type, type_of. rewrite Hp. simpl. rewrite Ht.
    by apply bool_decide_eq_false.
  - intros s1 i Hwf [Hnd Hirr Hmut] Hi Hpend.
    assert (forall a, active (particles_remove i s1) a <-> active s1 a) as Hact.
    { intros a. unfold active, live, pending.
      rewrite particles_remove_particles by (try apply (wf_nodup _ Hwf); done).
      simpl. rewrite elem_of_without. split.
      - intros ((? & ?) & ? & ?). done.
      - intros (? & ? & Hp). repeat split; try done. by intros ->. }
    constructor.
    + intros a. apply Hnd.
    + intros a. apply Hirr.
    + intros a b. rewrite !Hact. apply Hmut.
  - intros s1 Hg. revert Hg. by apply graph_ok_transfer.
  - intros s1 Hwf [Hnd Hirr Hmut] Hdone.
    assert (forall a, active (set_to_remove [] s1) a <-> active s1 a) as Hact.
    { intros a. unfold active, live, pending, queued. simpl. split.
      - intros (Hl & ? & _). repeat split; try done. intros Hp. by apply (Hdone a).
      - intros (? & ? & ?). repeat split; try done. apply not_elem_of_nil. }
    constructor.
    + intros a. apply Hnd.
    + intros a. apply Hirr.
    + intros a b. rewrite !Hact. apply Hmut.
Qed.

(** One turn of the main loop never raises and re-establishes what holds
    between turns. *)
Lemma between_ticks_tick t s :
  between_ticks s -> exists s', tick t s = Some s' /\ between_ticks s'.
Proof.
  intros (Hwf & Hg & Hq). unfold tick.
  assert (in_step s) as Hs.
  { split; [done|]. split; [done|]. intros i. unfold pending, queued. rewrite Hq. simpl.
    by intros ?%not_elem_of_nil. }
  apply (in_step_space_step (kin t) (contacts t)) in Hs.
  set (s1 := space_step (kin t) (contacts t) s) in *.
  assert (in_step (apply_brownian_motion (gauss t) s1)) as Hs2.
  { destruct Hs as (Hwf1 & Hg1 & Hn1).
    pose proof (brownian_loop_same_graph (particles s1) (gauss t) (heap s1)) as Hsg.
    split; [by apply wf_apply_brownian_motion|].
    split; [by apply (graph_ok_set_heap_same_graph _ s1)|].
    by apply (no_link_pending_set_heap_same_graph _ s1). }
  destruct (in_step_handle_disintegration (decay t) _ Hs2) as (s3 & -> & Hwf3 & Hg3).
  pose proof (wf_handle_boundary_collision _ Hwf3) as Hwf4.
  pose proof (graph_ok_set_heap_same_graph _ s3 (boundary_same_graph s3) Hg3) as Hg4.
  destruct (flush_total (ends t) _ Hwf4) as (s5 & Hs5).
  pose proof (flush_to_remove _ _ _ Hs5) as Hq5.
  change (set_heap _ s3) with (handle_boundary_collision s3) in Hg4.
  rewrite Hs5. eexists. split; [done|].
  pose proof (wf_flush _ _ _ Hs5 Hwf4) as Hwf5.
  pose proof (graph_ok_flush _ _ _ Hwf4 Hg4 Hs5) as Hg5.
  split; [by apply wf_update_stats|]. split; [|done].
  revert Hg5. by apply graph_ok_transfer.
Qed.

Lemma between_ticks_run ts s :
  between_ticks s -> exists s', run ts s = Some s' /\ between_ticks s'.
Proof.
  revert s. induction ts as [|t ts IH]; intros s Hs; simpl; [eauto|].
  destruct (between_ticks_tick t s Hs) as (s1 & -> & Hs1). by apply IH.
Qed.

Lemma between_ticks_symmetric s : between_ticks s -> symmetric_live s.
Proof.
  intros (Hwf & [Hnd Hirr Hmut] & Hq).
  assert (forall p q, live s p -> q ∈ conn (heap s) p -> p ∈ conn (heap s) q) as Hhalf.
  { intros p q Hp Hin. apply (Hmut p q); [|done].
    repeat split; [done| |].
    - pose proof (conn_elem_lt _ _ _ Hin) as Hlt.
      apply lookup_lt_is_Some in Hlt as [pt Hpt].
      pose proof (Forall_lookup_1 _ _ _ _ (wf_heap _ Hwf) Hpt) as (Hm & Hc & _).
      apply is_type_lookup. exists pt. split; [done|].
      destruct (decide (type pt = LINK)); [done|].
      rewrite (conn_lookup _ _ _ Hpt) in Hin. destruct (connections pt); simpl in *; [|lia].
      by apply not_elem_of_nil in Hin.
    - unfold pending, queued. rewrite Hq. apply not_elem_of_nil. }
  intros p q Hp Hq'. split; by apply Hhalf.
Qed.

(** C10: the main loop never raises, and after every turn of it the
    connections relation among the particles of the registry is symmetric. *)
Theorem connections_symmetric_after_tick (offsets : nat -> F * F) (ts : list Tick) :
  exists s, run ts (init offsets) = Some s /\ symmetric_live s.
Proof.
  destruct (between_ticks_run ts (init offsets) (between_ticks_init offsets))
    as (s & Hs & Hb).
  exists s. split; [done|by apply between_ticks_symmetric].
Qed.

End GraphTick.

Section Loops.
Context {F : Type} `{PyFloat F}.
Implicit Types (s : Simulation F) (h : list (Particle F)).

Lemma foldl_alter_lookup (f : Particle F -> Particle F) (l : list pid) h j :
  NoDup l ->
  foldl (fun h i => alter f i h) h l !! j
  = if decide (j ∈ l) then f <$> h !! j else h !! j.
Proof.
  intros Hnd. revert h. induction Hnd as [|i l Hi Hnd IH]; intros h; simpl.
  - done.
  - rewrite IH. destruct (decide (j ∈ l)) as [Hj|Hj].
    + rewrite decide_True by by right.
      rewrite list_lookup_alter_ne by (intros ->; done). done.
    + destruct (decide (i = j)) as [->|Hne].
      * rewrite decide_True by left. by rewrite list_lookup_alter_eq.
      * rewrite decide_False by (intros [?|?]%elem_of_cons; congruence).
        by rewrite list_lookup_alter_ne.
Qed.

Lemma boundary_lookup s j :
  NoDup (particles s) ->
  heap (handle_boundary_collision s) !! j
  = if decide (j ∈ particles s) then contain <$> heap s !! j else heap s !! j.
Proof. intros Hnd. simpl. by apply foldl_alter_lookup. Qed.

Lemma alter_dangling (f : Particle F -> Particle F) i h :
  h !! i = None -> alter f i h = h.
Proof.
  intros Hi. rewrite <- (list_alter_id (fun p => p) h i) at 2 by done.
  apply list_alter_ext; [|done]. intros x Hx. congruence.
Qed.

Lemma brownian_push particle g h : brownian particle g h = alter (push g) particle h.
Proof.
  unfold brownian, push, alter_body, is_type, type_of, position_of.
  destruct (h !! particle) as [p|] eqn:E; simpl.
  - assert (bool_decide (Some (type p) = Some CATALYST) = bool_decide (type p = CATALYST))
      as -> by (apply bool_decide_ext; split; [by intros [= ->]|by intros ->]).
    destruct (bool_decide (type p = CATALYST)) eqn:Ht; simpl.
    + symmetry. apply list_eq. intros j. destruct (decide (particle = j)) as [<-|Hne].
      * rewrite list_lookup_alter_eq, E. simpl. by rewrite Ht.
      * by rewrite list_lookup_alter_ne.
    + rewrite list_lookup_alter_eq, E. simpl.
      destruct (fltb _ _) eqn:Hd.
      * rewrite list_alter_alter_eq. apply list_alter_ext; [|done].
        intros q Hq. simplify_eq. simpl. rewrite Ht. simpl. by rewrite Hd.
      * apply list_alter_ext; [|done].
        intros q Hq. simplify_eq. simpl. rewrite Ht. simpl. by rewrite Hd.
  - rewrite !alter_dangling by done. by destruct (fltb _ _).
Qed.

Lemma brownian_loop_lookup (l : list pid) g h :
  NoDup l ->
  (forall k i, l !! k = Some i -> brownian_loop l g h !! i = push (g k) <$> h !! i)
  /\ (forall j, j ∉ l -> brownian_loop l g h !! j = h !! j).
Proof.
  intros Hnd. revert g h. induction Hnd as [|i l Hi Hnd IH]; intros g h; simpl.
  - split; [intros k i Hk; by rewrite lookup_nil in Hk|done].
  - destruct (IH (fun k => g (S k)) (brownian i (g 0%nat) h)) as [IH1 IH2]. split.
    + intros [|k] j; simpl.
      * intros [= <-]. rewrite IH2 by done. by rewrite brownian_push, list_lookup_alter_eq.
      * intros Hk. rewrite (IH1 k j Hk). rewrite brownian_push, list_lookup_alter_ne; [done|].
        intros ->. apply list_elem_of_lookup_2 in Hk. done.
    + intros j [Hne Hj]%not_elem_of_cons. rewrite IH2 by done.
      by rewrite brownian_push, list_lookup_alter_ne.
Qed.

End Loops.

(** ** Geometry, over the real numbers *)

Section Geometry.
Local Open Scope R_scope.
Implicit Types (s : Simulation R) (p : Particle R) (v : Vec2d R).

Lemma Rleb_true a b : Rleb a b = true <-> a <= b.
Proof. unfold Rleb. destruct (Rle_dec a b); split; intros; try done; lra. Qed.

Lemma Rltb_true a b : Rltb a b = true <-> a < b.
Proof. unfold Rltb. destruct (Rlt_dec a b); split; intros; try done; lra. Qed.

Lemma Reqb_true a b : Reqb a b = true <-> a = b.
Proof. unfold Reqb. destruct (Req_dec_T a b); split; intros; try done. Qed.

Lemma sqrt_scaled a b c :
  0 <= c -> sqrt ((a * c) * (a * c) + (b * c) * (b * c)) = c * sqrt (a * a + b * b).
Proof.
  intros Hc.
  replace ((a * c) * (a * c) + (b * c) * (b * c)) with ((c * c) * (a * a + b * b)) by ring.
  rewrite sqrt_mult_alt by nra. by rewrite sqrt_square.
Qed.

Lemma length_scale v c : 0 <= c -> Vec2d.length (Vec2d.scale v c) = c * Vec2d.length v.
Proof. intros Hc. destruct v as [a b]. unfold Vec2d.length. simpl. by apply sqrt_scaled. Qed.

Lemma get_distance_length u v : Vec2d.get_distance u v = Vec2d.length (Vec2d.sub u v).
Proof. done. Qed.

Lemma get_distance_sym u v : Vec2d.get_distance u v = Vec2d.get_distance v u.
Proof.
  destruct u as [a b], v as [c d]. unfold Vec2d.get_distance. simpl. f_equal. ring.
Qed.

Lemma normalized_scale v :
  0 < Vec2d.length v -> Vec2d.normalized v = Vec2d.scale v (/ Vec2d.length v).
Proof.
  destruct v as [a b]. unfold Vec2d.normalized, Vec2d.length. simpl. intros Hl.
  destruct (Reqb _ _) eqn:E; simpl.
  - apply Reqb_true in E. lra.
  - reflexivity.
Qed.

Lemma scale_scale v a b : Vec2d.scale (Vec2d.scale v a) b = Vec2d.scale v (a * b).
Proof. destruct v as [c d]. unfold Vec2d.scale. simpl. f_equal; ring. Qed.

Lemma get_distance_offset c v : Vec2d.get_distance c (Vec2d.add c v) = Vec2d.length v.
Proof.
  destruct c as [a b], v as [x y]. unfold Vec2d.get_distance, Vec2d.length. simpl.
  f_equal. ring.
Qed.

(** Boundary containment of one particle. *)
Lemma contain_outside p :
  0 < IZR (boundary_radius - radius p) ->
  IZR (boundary_radius - radius p) <= Vec2d.get_distance center (position (body p)) ->
  Vec2d.get_distance center (position (body (contain p))) = IZR (boundary_radius - radius p)
  /\ (exists c, 0 < c
        /\ Vec2d.sub (position (body (contain p))) center
           = Vec2d.scale (Vec2d.sub (position (body p)) center) c)
  /\ velocity (body (contain p)) = Vec2d.neg (velocity (body p))
  /\ same_graph p (contain p).
Proof.
  intros Hpos Hd. unfold contain.
  assert (fleb (of_Z (boundary_radius - radius p))
               (Vec2d.get_distance center (position (body p))) = true) as ->
    by by apply Rleb_true.
  cbv zeta. cbn [body position velocity set_body set_position set_velocity].
  change (@of_Z R ideal) with IZR in *.
  set (rho := IZR (boundary_radius - radius p)) in *.
  set (v := Vec2d.sub (position (body p)) center).
  assert (Vec2d.length v = Vec2d.get_distance center (position (body p))) as Hlen.
  { unfold v. by rewrite <- get_distance_length, get_distance_sym. }
  assert (0 < Vec2d.length v) as Hv by lra.
  rewrite normalized_scale, scale_scale by done. split; [|split; [|split]].
  - rewrite get_distance_offset, length_scale.
    + field. lra.
    + apply Rlt_le, Rmult_lt_0_compat; [by apply Rinv_0_lt_compat|done].
  - exists (/ Vec2d.length v * rho). split.
    + apply Rmult_lt_0_compat; [by apply Rinv_0_lt_compat|done].
    + destruct center as [a b], v as [x y]. unfold Vec2d.sub, Vec2d.add, Vec2d.scale.
      simpl. f_equal; ring.
  - done.
  - by repeat split.
Qed.

Lemma contain_inside p :
  Vec2d.get_distance center (position (body p)) < IZR (boundary_radius - radius p) ->
  contain p = p.
Proof.
  intros Hd. unfold contain.
  assert (fleb (of_Z (boundary_radius - radius p))
               (Vec2d.get_distance center (position (body p))) = false) as ->; [|done].
  apply not_true_iff_false. intros Hle%Rleb_true.
  change (@of_Z R ideal) with IZR in *. lra.
Qed.

Lemma particle_ok_radius p :
  particle_ok p -> 0 < IZR (boundary_radius - radius p) <= 200.
Proof.
  intros (_ & _ & ->). unfold boundary_radius.
  case_decide; [replace (200 - 8)%Z with 192%Z by done|replace (200 - 12)%Z with 188%Z by done];
    lra.
Qed.

(** C6: after boundary containment, a particle of the registry that was at
    distance at least 200 minus its radius from the centre of the membrane
    is at exactly that distance, on the same ray from the centre, with its
    velocity negated; a particle that was closer is untouched; so every
    particle of the registry is within 200 of the centre.  (Coordinates are
    real numbers here: the rounding of floats is left out.) *)
Theorem boundary_containment s i p :
  reachable s -> i ∈ particles s -> heap s !! i = Some p ->
  exists p', heap (handle_boundary_collision s) !! i = Some p'
    /\ (IZR (200 - radius p) <= Vec2d.get_distance center (position (body p)) ->
        Vec2d.get_distance center (position (body p')) = IZR (200 - radius p)
        /\ (exists c, 0 < c
              /\ Vec2d.sub (position (body p')) center
                 = Vec2d.scale (Vec2d.sub (position (body p)) center) c)
        /\ velocity (body p') = Vec2d.neg (velocity (body p)))
    /\ (Vec2d.get_distance center (position (body p)) < IZR (200 - radius p) -> p' = p)
    /\ Vec2d.get_distance center (position (body p')) <= 200.
Proof.
  intros Hr Hi Hp. apply reachable_wf in Hr.
  pose proof (particle_ok_radius p (Forall_lookup_1 _ _ _ _ (wf_heap _ Hr) Hp)) as [Hpos Hle].
  exists (contain p). split.
  { rewrite boundary_lookup by apply (wf_nodup _ Hr). rewrite decide_True by done.
    by rewrite Hp. }
  split; [|split].
  - intros Hd. by destruct (contain_outside p Hpos Hd) as (? & ? & ? & _).
  - apply contain_inside.
  - destruct (Rle_or_lt (IZR (boundary_radius - radius p))
                (Vec2d.get_distance center (position (body p)))) as [Hd|Hd].
    + destruct (contain_outside p Hpos Hd) as (-> & _). done.
    + rewrite (contain_inside p Hd). unfold boundary_radius in *. lra.
Qed.

End Geometry.

Section Forces.
Local Open Scope R_scope.
Implicit Types (s : Simulation R) (p : Particle R) (v : Vec2d R).

Lemma push_catalyst g p : type p = CATALYST -> push g p = p.
Proof. intros Ht. unfold push. by rewrite bool_decide_eq_true_2. Qed.

Lemma push_frame g p :
  same_graph p (push g p) /\ age (push g p) = age p
  /\ position (body (push g p)) = position (body p)
  /\ velocity (body (push g p)) = velocity (body p).
Proof.
  unfold push. destruct (negb _); [|by repeat split].
  cbv zeta. destruct (fltb _ _); by repeat split.
Qed.

Lemma push_forces g p :
  type p <> CATALYST ->
  (Vec2d.get_distance center (position (body p)) <= 200 ->
   applied (body (push g p))
   = applied (body p) ++ [(Vec2d.mk (fst g) (snd g), origin)])
  /\ (200 < Vec2d.get_distance center (position (body p)) ->
      exists f,
        applied (body (push g p))
        = applied (body p) ++ [(Vec2d.mk (fst g) (snd g), origin); (f, origin)]
        /\ Vec2d.length f
           = (Vec2d.get_distance center (position (body p)) - 200) * (5 / 10)
        /\ exists c, 0 < c /\ f = Vec2d.scale (Vec2d.sub center (position (body p))) c).
Proof.
  intros Ht. unfold push. rewrite bool_decide_eq_false_2 by done.
  cbv zeta. cbn [negb body position set_body apply_force_at_local_point].
  set (d := Vec2d.get_distance center (position (body p))).
  change (fltb (of_Z confinement_radius) d) with (Rltb 200 d).
  split.
  - intros Hd. assert (Rltb 200 d = false) as ->; [|done].
    apply not_true_iff_false. intros ?%Rltb_true. lra.
  - intros Hd. assert (Rltb 200 d = true) as -> by by apply Rltb_true.
    cbn [body applied].
    set (v := Vec2d.sub center (position (body p))).
    assert (Vec2d.length v = d) as Hlen by done.
    rewrite normalized_scale, !scale_scale by lra.
    cbn [body applied set_body apply_force_at_local_point]. eexists.
    split; [by rewrite <- app_assoc|].
    change (fsub d (of_Z confinement_radius)) with (d - 200).
    change attraction_strength with (5 / 10).
    assert (0 < / Vec2d.length v * ((d - 200) * (5 / 10))) as Hc.
    { rewrite Hlen. apply Rmult_lt_0_compat; [apply Rinv_0_lt_compat|]; lra. }
    split.
    + rewrite length_scale by lra. rewrite Hlen. field. lra.
    + eexists. split; [exact Hc|done].
Qed.

(** C8: the force field hands forces to the physics engine and does nothing
    else.  Registry, space, bonds and queue are as before; every particle
    keeps its kind, connections, age, position and velocity; a CATALYST and
    a particle outside the registry are untouched; a particle of the
    registry that is not a CATALYST gets its Brownian force and, exactly
    when it is farther than 200 from the centre, one more force of
    magnitude (distance - 200) * 0.5 along the direction to the centre.
    (Coordinates are real numbers here: the rounding of floats is left
    out.) *)
Theorem force_field_frame s g i p :
  reachable s -> heap s !! i = Some p ->
  particles (apply_brownian_motion g s) = particles s
  /\ space (apply_brownian_motion g s) = space s
  /\ bonds (apply_brownian_motion g s) = bonds s
  /\ to_remove (apply_brownian_motion g s) = to_remove s
  /\ exists p', heap (apply_brownian_motion g s) !! i = Some p'
       /\ same_graph p p' /\ age p' = age p
       /\ position (body p') = position (body p)
       /\ velocity (body p') = velocity (body p)
       /\ (type p = CATALYST \/ i ∉ particles s -> p' = p)
       /\ forall k, particles s !! k = Some i -> type p <> CATALYST ->
            (Vec2d.get_distance center (position (body p)) <= 200 ->
             applied (body p')
             = applied (body p) ++ [(Vec2d.mk (fst (g k)) (snd (g k)), origin)])
            /\ (200 < Vec2d.get_distance center (position (body p)) ->
                exists f,
                  applied (body p')
                  = applied (body p)
                    ++ [(Vec2d.mk (fst (g k)) (snd (g k)), origin); (f, origin)]
                  /\ Vec2d.length f
                     = (Vec2d.get_distance center (position (body p)) - 200) * (5 / 10)
                  /\ exists c, 0 < c
                       /\ f = Vec2d.scale (Vec2d.sub center (position (body p))) c).
Proof.
  intros Hr Hp. apply reachable_wf in Hr. do 4 (split; [done|]).
  destruct (brownian_loop_lookup (particles s) g (heap s) (wf_nodup _ Hr)) as [Hin Hout].
  destruct (decide (i ∈ particles s)) as [Hi|Hi].
  - pose proof Hi as [k Hk]%list_elem_of_lookup_1.
    exists (push (g k) p). simpl. rewrite (Hin k i Hk), Hp.
    destruct (push_frame (g k) p) as (? & ? & ? & ?). do 5 (split; [done|]).
    split.
    + intros [Ht|?]; [by apply push_catalyst|done].
    + intros k' Hk' Ht.
      assert (k' = k) as -> by (eapply NoDup_lookup; [apply (wf_nodup _ Hr)|done..]).
      by apply push_forces.
  - exists p. simpl. rewrite (Hout i Hi). split; [done|].
    split; [apply same_graph_refl|]. do 4 (split; [done|]).
    intros k Hk%list_elem_of_lookup_2. done.
Qed.

End Forces.

(** ** The example states *)

Lemma reachable_fresh : reachable fresh.
Proof. exact (reachable_init row). Qed.

Lemma reachable_first_reaction : reachable first_reaction.
Proof.
  exact (reachable_exec (OpCallback (separation 151 39)) fresh first_reaction
           reachable_fresh eq_refl).
Qed.

Lemma reachable_second_reaction : reachable second_reaction.
Proof.
  exact (reachable_exec (OpCallback (separation 153 38)) first_reaction second_reaction
           reachable_first_reaction eq_refl).
Qed.

Lemma reachable_bonded : reachable bonded.
Proof.
  exact (reachable_exec (OpCallback overlap) second_reaction bonded
           reachable_second_reaction eq_refl).
Qed.

Lemma reachable_escaped : reachable escaped.
Proof.
  exact (reachable_exec (OpMove thrown) freshR escaped (reachable_init rowR) eq_refl).
Qed.

(** C1, on the code: two bonded LINKs of age 1000 both disintegrate in one
    turn of the loop.  The registry goes from 299 particles to 297: the two
    LINKs leave it and no SUBSTRATE joins it (296 before and after).  The
    four substrates the rule constructs, 303 to 306, are in the physics
    space, 10 units left and right of the LINKs, but not in the registry.
    The bond of the two LINKs stays in the list of bonds. *)
Theorem disintegration_registers_no_substrate :
  (fun s => (summary s, bonds s, conn (heap s) 301, conn (heap s) 302,
             age_of (heap s) 301, age_of (heap s) 302)) <$> aged
  = Some ((299, 296, 2), [0], [302], [301], 1000%Z, 1000%Z)%nat
  /\ (fun s => (summary s, bonds s, stat_bonds (stats s))) <$> (aged ≫= tick decaying)
     = Some ((297, 296, 0), [0], 1)%nat
  /\ (fun s => (position_of (heap s) 303, position_of (heap s) 304,
                position_of (heap s) 305, position_of (heap s) 306))
       <$> (aged ≫= tick decaying)
     = Some (Vec2d.mk (lit 821 2) (of_Z 400), Vec2d.mk (lit 781 2) (of_Z 400),
             Vec2d.mk (lit 827 2) (of_Z 400), Vec2d.mk (lit 787 2) (of_Z 400))
  /\ (fun s => forallb (fun i => is_type SUBSTRATE (heap s) i && in_space s (ShapeOf i)
                                 && negb (bool_decide (i ∈ particles s)))
                       [303; 304; 305; 306]%nat)
       <$> (aged ≫= tick decaying)
     = Some true.
Proof. vm_compute. repeat split. Qed.

(** C2, on the code: substrate 152, queued by the reaction of 151, is the
    neighbour the reaction of 153 chooses later in the same step, so it is
    consumed by both reactions and queued twice. *)
Lemma queued_substrate_chosen_again :
  to_remove first_reaction = [(Some (ShapeOf 151), None); (Some (ShapeOf 152), None)]
  /\ chosen first_reaction (ShapeOf 153) 38 = Some 152%nat
  /\ to_remove second_reaction
     = [(Some (ShapeOf 151), None); (Some (ShapeOf 152), None);
        (Some (ShapeOf 153), None); (Some (ShapeOf 152), None)]
  /\ particles second_reaction = particles fresh ++ [301; 302]%nat.
Proof. vm_compute. repeat split. Qed.


Lemma connections_bounded_witness :
  exists p, heap bonded !! 301%nat = Some p /\ connections p = [302%nat] /\ degree_ok p.
Proof.
  eexists. split; [vm_compute; reflexivity|]. split; [reflexivity|].
  apply (connections_bounded bonded 301); [apply reachable_bonded|vm_compute; reflexivity].
Defined.

Lemma queued_substrate_stays_candidate_witness :
  particles first_reaction
    `prefix_of` particles (handle_catalyst_substrate (ShapeOf 0, ShapeOf 153) (lit 1 10) 38
                             first_reaction)
  /\ nearby_substrates (handle_catalyst_substrate (ShapeOf 0, ShapeOf 153) (lit 1 10) 38
                          first_reaction) (ShapeOf 152)
     = nearby_substrates first_reaction (ShapeOf 152)
  /\ (exists s', flush parting first_reaction = Some s' /\ to_remove s' = []
        /\ forall i, pending first_reaction i -> i ∉ particles s')
  /\ flush_one None (Some (ShapeOf 152), None)
       (remove_particle None (ShapeOf 152) first_reaction)
     = Some (print not_found (remove_particle None (ShapeOf 152) first_reaction)).
Proof.
  destruct (queued_substrate_stays_candidate first_reaction (ShapeOf 0, ShapeOf 153)
              (lit 1 10) 38 (ShapeOf 152)) as (Hkeep & Hnear & Hflush).
  - eexists. vm_compute. reflexivity.
  - destruct (Hflush reachable_first_reaction) as [Hdrop Hagain].
    split; [exact Hkeep|]. split; [exact Hnear|].
    split; [exact (Hdrop parting)|exact (Hagain None None 152%nat)].
Defined.


Lemma bond_formation_rule_witness :
  springs (handle_link_detection (SensorOf 301, ShapeOf 302) second_reaction)
  = springs second_reaction ++ [mkSpring 301%nat 302%nat (fmul (of_Z 8) (lit 25 10)) 150 1]
  /\ constraints (space (handle_link_detection (SensorOf 301, ShapeOf 302) second_reaction))
     = constraints (space second_reaction) ++ [List.length (springs second_reaction)]
  /\ bonds (handle_link_detection (SensorOf 301, ShapeOf 302) second_reaction)
     = bonds second_reaction ++ [List.length (springs second_reaction)]
  /\ conn (heap (handle_link_detection (SensorOf 301, ShapeOf 302) second_reaction)) 301
     = conn (heap second_reaction) 301 ++ [302%nat]
  /\ conn (heap (handle_link_detection (SensorOf 301, ShapeOf 302) second_reaction)) 302
     = conn (heap second_reaction) 302 ++ [301%nat].
Proof.
  destruct (bond_formation_rule second_reaction (SensorOf 301, ShapeOf 302) 301 302)
    as (Hbond & _ & _).
  - apply reachable_second_reaction.
  - vm_compute. reflexivity.
  - vm_compute. reflexivity.
  - vm_compute. reflexivity.
  - apply Hbond. split; [lia|]. split; [vm_compute; lia|]. split; [vm_compute; lia|].
    apply (bool_decide_unpack _). vm_compute. exact I.
Defined.

Lemma flush_twice_as_once_witness :
  (exists s1, flush quiet (set_to_remove [(Some (ShapeOf 1), None)] fresh) = Some s1
     /\ flush quiet (set_to_remove ([(Some (ShapeOf 1), None)] ++ [(Some (ShapeOf 1), None)])
                       fresh)
        = Some (print not_found s1))
  /\ forall e e' : Ended,
       flush_one e' (Some (ShapeOf 1), None) (remove_particle e (ShapeOf 1) fresh)
       = Some (print not_found (remove_particle e (ShapeOf 1) fresh)).
Proof.
  apply flush_twice_as_once; [apply reachable_fresh|by repeat constructor|left].
Defined.

Lemma bonds_never_removed_witness :
  Forall null_bond (to_remove second_reaction) /\ Forall null_bond (to_remove bonded)
  /\ bonds second_reaction `prefix_of` bonds bonded
  /\ (stat_bonds (stats second_reaction) <= stat_bonds (stats bonded))%nat.
Proof.
  apply (bonds_never_removed second_reaction (OpCallback overlap) bonded);
    [apply reachable_second_reaction|reflexivity].
Defined.

Section GeometryExamples.
Local Open Scope R_scope.

Lemma escaped_lookup : heap escaped !! 1%nat = Some thrown_particle.
Proof. reflexivity. Qed.

Lemma escaped_live : 1%nat ∈ particles escaped.
Proof. apply (bool_decide_unpack _). vm_compute. exact I. Qed.

Lemma escaped_index : particles escaped !! 1%nat = Some 1%nat.
Proof. reflexivity. Qed.

Lemma distance_thrown : Vec2d.get_distance center (Vec2d.mk 650 400) = 250.
Proof.
  unfold Vec2d.get_distance, center, width, height. simpl.
  replace ((800 / 2 - 650) * (800 / 2 - 650) + (800 / 2 - 400) * (800 / 2 - 400))
    with (250 * 250) by lra.
  apply sqrt_square. lra.
Qed.

Lemma boundary_containment_witness :
  exists p', heap (handle_boundary_collision escaped) !! 1%nat = Some p'
    /\ Vec2d.get_distance center (position (body p')) = 192
    /\ velocity (body p') = Vec2d.neg (Vec2d.mk 3 (-4))
    /\ Vec2d.get_distance center (position (body p')) <= 200.
Proof.
  destruct (boundary_containment escaped 1 thrown_particle
              reachable_escaped escaped_live escaped_lookup)
    as (p' & Hl & Hout & _ & Hle).
  exists p'. split; [exact Hl|].
  destruct Hout as (Hd & _ & Hv).
  - change (position (body thrown_particle)) with (Vec2d.mk 650 400).
    rewrite distance_thrown. change (IZR (200 - radius thrown_particle)) with 192. lra.
  - split; [exact Hd|]. split; [exact Hv|exact Hle].
Defined.

Lemma force_field_frame_witness :
  exists p' f, heap (apply_brownian_motion gust escaped) !! 1%nat = Some p'
    /\ applied (body p') = [(Vec2d.mk 1 2, origin); (f, origin)]
    /\ Vec2d.length f = 25
    /\ position (body p') = Vec2d.mk 650 400
    /\ particles (apply_brownian_motion gust escaped) = particles escaped.
Proof.
  destruct (force_field_frame escaped gust 1 thrown_particle
              reachable_escaped escaped_lookup)
    as (Hparts & _ & _ & _ & p' & Hl & _ & _ & Hpos & _ & _ & Hf).
  destruct (Hf 1%nat escaped_index) as [_ Hfar]; [discriminate|].
  destruct Hfar as (f & Happ & Hlen & _).
  - change (position (body thrown_particle)) with (Vec2d.mk 650 400).
    rewrite distance_thrown. lra.
  - exists p', f. split; [exact Hl|]. split; [exact Happ|].
    split; [|split; [exact Hpos|exact Hparts]].
    rewrite Hlen. change (position (body thrown_particle)) with (Vec2d.mk 650 400).
    rewrite distance_thrown. lra.
Defined.

End GeometryExamples.

(** ** More of the engine *)

Section Frame2.
Context {F : Type} `{PyFloat F}.
Implicit Types (s : Simulation F) (h : list (Particle F)).

(** Two versions of a particle that differ at most in their connections. *)
Lemma disconnect_fields fuel k particle h h' :
  disconnect fuel k particle h = Some h' ->
  Forall2 same_fields h h'.
Proof.
  revert k h. induction fuel as [|fuel IH]; intros k h; simpl.
  - intros [= <-]. apply Forall2_same_length_lookup. split; [done|].
    intros i p q ? ?. by simplify_eq.
  - destruct (conn h particle !! k) as [connected|].
    2:{ intros [= <-]. apply Forall2_same_length_lookup. split; [done|].
        intros i p q ? ?. by simplify_eq. }
    destruct (list_remove particle (conn h connected)) as [l|]; [|done].
    intros Hd. apply IH in Hd.
    eapply (Forall2_trans same_fields same_fields same_fields); [| |exact Hd].
    + intros p q r (?&?&?&?&?) (?&?&?&?&?). repeat split; congruence.
    + apply Forall2_same_length_lookup. split; [by rewrite length_alter|].
      intros i p q Hp Hq. destruct (decide (connected = i)) as [->|Hne].
      * rewrite list_lookup_alter_eq, Hp in Hq. by simplify_eq/=.
      * rewrite list_lookup_alter_ne in Hq by done. by simplify_eq.
Qed.

Lemma grows_refl h : grows h h.
Proof. intros i p Hp. eauto. Qed.

Lemma grows_trans h1 h2 h3 : grows h1 h2 -> grows h2 h3 -> grows h1 h3.
Proof.
  intros H12 H23 i p Hp. destruct (H12 i p Hp) as (q & Hq & ? & ? & ?).
  destruct (H23 i q Hq) as (r & Hr & ? & ? & ?). exists r. repeat split; congruence.
Qed.

Lemma grows_app h l : grows h (h ++ l).
Proof. intros i p Hp. exists p. split; [by apply lookup_app_l_Some|done]. Qed.

Lemma grows_same_graph h h' : heap_same_graph h h' -> grows h h'.
Proof.
  intros Hs i p Hp. destruct (heap_same_graph_lookup _ _ _ _ Hs Hp) as (p' & Hp' & ? & ? & ? & ?).
  eauto 10.
Qed.

Lemma grows_same_fields h h' : Forall2 same_fields h h' -> grows h h'.
Proof.
  intros Hs i p Hp. destruct (Forall2_lookup_l _ _ _ _ _ Hs Hp) as (p' & Hp' & ? & ? & ? & ? & ?).
  eauto 10.
Qed.

Lemma grows_alter (f : Particle F -> Particle F) i h :
  (forall p, type (f p) = type p /\ radius (f p) = radius p
             /\ max_connections (f p) = max_connections p) ->
  grows h (alter f i h).
Proof.
  intros Hf j p Hp. destruct (decide (i = j)) as [->|Hne].
  - exists (f p). rewrite list_lookup_alter_eq, Hp. split; [done|apply Hf].
  - exists p. by rewrite list_lookup_alter_ne.
Qed.

Lemma grows_is_type t h h' i :
  grows h h' -> (i < List.length h)%nat -> is_type t h' i = is_type t h i.
Proof.
  intros Hg [p Hp]%lookup_lt_is_Some. destruct (Hg i p Hp) as (p' & Hp' & Ht & _).
  unfold is_type, type_of. rewrite Hp, Hp'. simpl. by rewrite Ht.
Qed.

Lemma grows_length h h' : grows h h' -> (List.length h <= List.length h')%nat.
Proof.
  intros Hg. destruct (decide (List.length h <= List.length h')%nat); [done|].
  destruct h as [|p h0] using rev_ind; [simpl; lia|].
  destruct (Hg (List.length h0) p) as (p' & Hp' & _); [by apply list_lookup_middle|].
  apply lookup_lt_Some in Hp'. rewrite length_app in *. simpl in *. lia.
Qed.

Lemma grows_react shape second s : grows (heap s) (heap (react shape second s)).
Proof. rewrite react_heap. apply grows_app. Qed.

Lemma grows_create_bond p1 p2 s : grows (heap s) (heap (create_bond p1 p2 s)).
Proof.
  simpl. eapply grows_trans; apply grows_alter; intros p; by repeat split.
Qed.

Lemma grows_callback c s : grows (heap s) (heap (callback c s)).
Proof.
  assert (forall arbiter u k, grows (heap s) (heap (handle_catalyst_substrate arbiter u k s)))
    as Hr.
  { intros arbiter u k.
    destruct (handle_catalyst_substrate_cases arbiter u k s) as [[-> _]|(j & _ & _ & ->)];
      [apply grows_refl|apply grows_react]. }
  assert (forall arbiter, grows (heap s) (heap (handle_link_detection arbiter s))) as Hb.
  { intros arbiter.
    destruct (handle_link_detection_cases arbiter s) as [->|(p1 & p2 & _ & _ & _ & ->)];
      [apply grows_refl|apply grows_create_bond]. }
  unfold callback. destruct (_ && _); [|apply grows_refl].
  destruct (phase c); repeat case_bool_decide; auto using grows_refl.
Qed.

Lemma grows_disintegrate particle u s s' :
  disintegrate particle u s = Some s' -> grows (heap s) (heap s').
Proof.
  unfold disintegrate. destruct (is_type LINK (heap s) particle);
    [|intros [= <-]; apply grows_refl].
  assert (grows (heap s) (alter (fun p => set_age (age p + 1) p) particle (heap s))) as Hage
    by apply grows_same_graph, age_same_graph.
  destruct (_ && _); [|by intros [= <-]].
  destruct (disconnect _ _ _ _) as [h|] eqn:E; [|done]. intros [= <-]. simpl.
  eapply grows_trans; [exact Hage|].
  eapply grows_trans; [apply grows_same_fields, (disconnect_fields _ _ _ _ _ E)|].
  eapply grows_trans; apply grows_app.
Qed.

Lemma grows_disintegration_loop snapshot u s s' :
  disintegration_loop snapshot u s = Some s' -> grows (heap s) (heap s').
Proof.
  revert u s. induction snapshot as [|i l IH]; intros u s; simpl;
    [intros [= <-]; apply grows_refl|].
  destruct (disintegrate i (u 0%nat) s) as [s1|] eqn:E; [|done].
  intros Hl. eapply grows_trans; [by eapply grows_disintegrate|by eapply IH].
Qed.

Lemma grows_exec o s s' : wf s -> exec o s = Some s' -> grows (heap s) (heap s').
Proof.
  intros Hwf. destruct o; simpl; intros He; simplify_eq.
  - apply grows_same_graph, move_same_graph.
  - apply grows_callback.
  - apply grows_same_graph, brownian_loop_same_graph.
  - by eapply grows_disintegration_loop.
  - apply grows_same_graph, boundary_same_graph.
  - destruct (flush_frame e s s' Hwf He) as (_ & _ & _ & _ & [l ->]). apply grows_app.
  - apply grows_refl.
Qed.

End Frame2.

Section Catalyst.
Context {F : Type} `{PyFloat F}.
Implicit Types (s : Simulation F) (h : list (Particle F)).

Lemma is_type_exclusive t t' h i :
  is_type t h i = true -> t <> t' -> is_type t' h i = false.
Proof.
  intros (p & Hp & Ht)%is_type_lookup Hne. apply not_true_iff_false.
  intros (p' & Hp' & Ht')%is_type_lookup. congruence.
Qed.

Lemma disintegrate_pending particle u s s' j :
  disintegrate particle u s = Some s' -> pending s' j ->
  pending s j \/ (j = particle /\ is_type LINK (heap s) particle = true).
Proof.
  unfold disintegrate. destruct (is_type LINK (heap s) particle) eqn:Hl;
    [|intros [= <-]; auto].
  destruct (_ && _); [|intros [= <-]; auto].
  destruct (disconnect _ _ _ _) as [h|]; [|done]. intros [= <-].
  intros [Hp|Hp]%pending_enqueue; [by left|]. right. simpl in Hp. by simplify_eq.
Qed.

Lemma catalysts_transfer s s' :
  wf s -> grows (heap s) (heap s') -> particles s' = particles s ->
  catalysts s' = catalysts s.
Proof.
  intros Hwf Hg Hp. unfold catalysts. rewrite Hp. apply filter_bool_ext.
  intros i Hi. apply grows_is_type; [done|]. by apply (wf_particles _ Hwf).
Qed.

Lemma catalyst_kept_step s s' :
  wf s -> grows (heap s) (heap s') -> particles s' = particles s ->
  (forall j, pending s' j -> pending s j \/ is_type CATALYST (heap s) j = false /\
                                            (j < List.length (heap s))%nat) ->
  catalyst_kept s -> catalyst_kept s'.
Proof.
  intros Hwf Hg Hp Hq [Hc Hn]. split; [by rewrite (catalysts_transfer s s')|].
  intros j [Hj|[Hj Hlt]]%Hq.
  - rewrite (grows_is_type _ _ _ _ Hg) by by apply (wf_pending _ Hwf). by apply Hn.
  - by rewrite (grows_is_type _ _ _ _ Hg).
Qed.

Lemma catalyst_kept_react shape second s :
  wf s -> (forall j, shape = ShapeOf j -> is_type SUBSTRATE (heap s) j = true) ->
  second ∈ nearby_substrates s shape ->
  catalyst_kept s -> catalyst_kept (react shape second s).
Proof.
  intros Hwf Hshape (Hsec & Ht2 & _)%nearby_substrates_elem [Hc Hn]. split.
  - unfold catalysts. rewrite react_particles, react_heap, List.filter_app. simpl.
    rewrite is_type_app_new. simpl. rewrite app_nil_r. rewrite <- Hc.
    apply filter_bool_ext. intros i Hi. apply is_type_app_l. by apply (wf_particles _ Hwf).
  - intros j Hj. rewrite react_heap.
    assert (forall i, is_type SUBSTRATE (heap s) i = true ->
              is_type CATALYST (heap s ++ [new_link shape second s]) i = false) as Hsub.
    { intros i Hi. rewrite is_type_app_l by by eapply is_type_lt.
      by apply (is_type_exclusive SUBSTRATE). }
    apply pending_react in Hj as [Hj|[Hs| <-]]; [|by auto..].
    rewrite is_type_app_l by by apply (wf_pending _ Hwf). by apply Hn.
Qed.

Lemma catalyst_kept_create_bond p1 p2 s :
  wf s -> catalyst_kept s -> catalyst_kept (create_bond p1 p2 s).
Proof.
  intros Hwf. apply catalyst_kept_step; try done; [apply grows_create_bond|].
  intros j Hj. by left.
Qed.

Lemma catalyst_kept_callback c s : wf s -> catalyst_kept s -> catalyst_kept (callback c s).
Proof.
  intros Hwf Hk.
  assert (forall arbiter u k,
            (forall j, snd arbiter = ShapeOf j -> is_type SUBSTRATE (heap s) j = true) ->
            catalyst_kept (handle_catalyst_substrate arbiter u k s)) as Hr.
  { intros arbiter u k Hsh.
    destruct (handle_catalyst_substrate_cases arbiter u k s) as [[-> _]|(j & _ & Hj & ->)];
      [done|by apply catalyst_kept_react]. }
  assert (forall arbiter, catalyst_kept (handle_link_detection arbiter s)) as Hb.
  { intros arbiter.
    destruct (handle_link_detection_cases arbiter s) as [->|(p1 & p2 & _ & _ & _ & ->)];
      [done|by apply catalyst_kept_create_bond]. }
  unfold callback. destruct (_ && _); [|done].
  destruct (phase c); repeat case_bool_decide; auto;
    match goal with
    | Hc : _ /\ _ |- _ => destruct Hc as [Ha Hb']
    end.
  - apply collision_type_substrate in Hb' as (i & Hi & Ht). apply Hr. simpl. congruence.
  - apply collision_type_substrate in Ha as (i & Hi & Ht). apply Hr. simpl. congruence.
Qed.

Lemma catalyst_kept_disintegration_loop snapshot u s s' :
  disintegration_loop snapshot u s = Some s' -> wf s -> catalyst_kept s -> catalyst_kept s'.
Proof.
  revert u s. induction snapshot as [|i l IH]; intros u s; simpl; [by intros [= <-]|].
  destruct (disintegrate i (u 0%nat) s) as [s1|] eqn:E; [|done].
  intros Hl Hwf Hk. eapply IH; [done|by eapply wf_disintegrate|].
  eapply (catalyst_kept_step s s1); try done.
  - by eapply grows_disintegrate.
  - by apply disintegrate_frame in E as (? & _).
  - intros j [Hj|[-> Hlink]]%(disintegrate_pending _ _ _ _ _ E); [by left|]. right.
    split; [by apply (is_type_exclusive LINK)|by eapply is_type_lt].
Qed.

Lemma catalyst_kept_flush (e : nat -> Ended) s s' :
  wf s -> flush e s = Some s' -> catalyst_kept s -> catalyst_kept s'.
Proof.
  intros Hwf Hf Hk. revert Hwf Hk Hf. apply (flush_inv_react catalyst_kept).
  - intros s1 sp Hk _ _ _. exact Hk.
  - intros s1 i second Hwf Hk Hi Hsec. apply catalyst_kept_react; try done.
    by intros j [= <-].
  - intros s1 i Hwf [Hc Hn] Hi Hpend. split; [|exact Hn].
    unfold catalysts. rewrite particles_remove_particles by (try apply (wf_nodup _ Hwf); done).
    simpl. unfold without. rewrite filter_bool_comm. fold (catalysts s1). rewrite Hc. simpl.
    destruct (bool_decide (0%nat = i)) eqn:E; [|done].
    apply bool_decide_eq_true in E. subst i. apply Hn in Hpend.
    assert (0%nat ∈ catalysts s1) as Hin by (rewrite Hc; left).
    apply elem_of_filter_bool in Hin as [_ Hin]. congruence.
  - intros s1 Hk. exact Hk.
  - intros s1 Hwf [Hc Hn] _. split; [exact Hc|].
    intros i. unfold pending, queued. simpl. by intros ?%not_elem_of_nil.
Qed.

Lemma catalyst_kept_exec o s s' :
  wf s -> exec o s = Some s' -> catalyst_kept s -> catalyst_kept s'.
Proof.
  intros Hwf. destruct o; simpl; intros He; simplify_eq.
  - apply catalyst_kept_step; try done; [apply grows_same_graph, move_same_graph|by left].
  - by apply catalyst_kept_callback.
  - apply catalyst_kept_step; try done;
      [apply grows_same_graph, brownian_loop_same_graph|by left].
  - by eapply catalyst_kept_disintegration_loop.
  - apply catalyst_kept_step; try done;
      [apply grows_same_graph, boundary_same_graph|by left].
  - by apply (catalyst_kept_flush e s).
  - apply catalyst_kept_step; try done; [apply grows_refl|by left].
Qed.

Lemma catalysts_add_substrates n k offsets s :
  wf s -> catalysts (add_substrates n k offsets s) = catalysts s.
Proof.
  revert k s. induction n as [|n IH]; intros k s Hwf; simpl; [done|].
  rewrite IH by apply (wf_register _ _ SUBSTRATE s Hwf).
  unfold catalysts. simpl. rewrite List.filter_app. simpl.
  rewrite is_type_app_new. simpl. rewrite app_nil_r.
  apply filter_bool_ext. intros i Hi. apply is_type_app_l. by apply (wf_particles _ Hwf).
Qed.

Lemma to_remove_add_substrates n k offsets s :
  to_remove (add_substrates n k offsets s) = to_remove s.
Proof. revert k s. induction n as [|n IH]; intros k s; simpl; [done|]. by rewrite IH. Qed.

Lemma catalyst_kept_init offsets : catalyst_kept (init offsets).
Proof.
  unfold init, setup_simulation. generalize num_substrate. intros n.
  set (s0 := mkSim [] [] (mkSpace [] [] []) [] [] [] (mkStats 0 0 0) []).
  assert (wf s0) as Hwf0.
  { constructor; simpl; try done; try constructor; intros i Hi; inversion Hi. }
  pose proof (wf_register (fdiv (of_Z width) (of_Z 2)) (fdiv (of_Z height) (of_Z 2))
                CATALYST s0 Hwf0) as Hwf1.
  set (s1 := set_particles _ _) in Hwf1.
  change (catalyst_kept (add_substrates n 0 offsets s1)).
  split.
  - by rewrite catalysts_add_substrates.
  - intros i. unfold pending, queued. rewrite to_remove_add_substrates. simpl.
    by intros ?%not_elem_of_nil.
Qed.

Lemma reachable_catalyst_kept s : reachable s -> catalyst_kept s.
Proof.
  induction 1 as [offsets|o s s' Hr IH He]; [apply catalyst_kept_init|].
  eapply catalyst_kept_exec; [by apply reachable_wf|done..].
Qed.

(** X1: The catalyst is never consumed: in every reachable state the registry
    holds exactly one CATALYST, particle 0, and it is not queued for
    removal. *)
Theorem one_catalyst_forever s :
  reachable s ->
  catalysts s = [0%nat] /\ count_type CATALYST s = 1%nat /\ ~ pending s 0.
Proof.
  intros [Hc Hn]%reachable_catalyst_kept. split; [done|]. split.
  - unfold count_type. fold (catalysts s). by rewrite Hc.
  - intros Hp%Hn. assert (0%nat ∈ catalysts s) as Hin by (rewrite Hc; left).
    apply elem_of_filter_bool in Hin as [_ Hin]. congruence.
Qed.

End Catalyst.

Section Ticks.
Context {F : Type} `{PyFloat F}.
Implicit Types (s : Simulation F) (h : list (Particle F)).

Lemma reachable_callbacks contacts s :
  reachable s -> reachable (foldl (fun s c => callback c s) s contacts).
Proof.
  revert s. induction contacts as [|c l IH]; intros s Hr; simpl; [done|].
  apply IH. by apply (reachable_exec (OpCallback c) s).
Qed.

Lemma reachable_tick t s s' : reachable s -> tick t s = Some s' -> reachable s'.
Proof.
  intros Hr. unfold tick.
  assert (reachable (space_step (kin t) (contacts t) s)) as H1.
  { apply reachable_callbacks. by apply (reachable_exec (OpMove (kin t)) s). }
  assert (reachable (apply_brownian_motion (gauss t) (space_step (kin t) (contacts t) s)))
    as H2 by by eapply (reachable_exec (OpBrownian (gauss t))).
  destruct (handle_disintegration _ _) as [s3|] eqn:E3; [|done].
  assert (reachable s3) as H3 by by eapply (reachable_exec (OpDisintegration (decay t))).
  assert (reachable (handle_boundary_collision s3)) as H4
    by by eapply (reachable_exec OpBoundary).
  destruct (flush _) as [s5|] eqn:E5; [|done].
  assert (reachable s5) as H5 by by eapply (reachable_exec (OpFlush (ends t))).
  intros [= <-]. by eapply (reachable_exec OpStats).
Qed.

Lemma reachable_run ts s s' : reachable s -> run ts s = Some s' -> reachable s'.
Proof.
  revert s. induction ts as [|t ts IH]; intros s Hr; simpl; [by intros [= <-]|].
  destruct (tick t s) as [s1|] eqn:E; [|done]. intros Hrun.
  eapply IH; [|done]. by eapply reachable_tick.
Qed.

(** Every particle of the registry is of exactly one of the three kinds. *)
Lemma kinds_partition h (l : list pid) :
  (forall i, i ∈ l -> (i < List.length h)%nat) ->
  List.length l
  = (List.length (List.filter (is_type SUBSTRATE h) l)
     + List.length (List.filter (is_type CATALYST h) l)
     + List.length (List.filter (is_type LINK h) l))%nat.
Proof.
  induction l as [|i l IH]; intros Hl; simpl; [done|].
  rewrite IH by (intros j Hj; apply Hl; by right).
  destruct (lookup_lt_is_Some_2 h i) as [p Hp]; [apply Hl; left|].
  unfold is_type, type_of. rewrite Hp. simpl.
  destruct (type p); simpl; lia.
Qed.

(** X2: After every turn of the main loop the statistics are the counts of the
    registry they were computed from, and the registry consists of the
    substrates, the links and the one catalyst. *)
Theorem stats_after_tick (offsets : nat -> F * F) (ts : list Tick) (t : Tick) :
  exists s s', run ts (init offsets) = Some s /\ tick t s = Some s'
    /\ stats s' = mkStats (count_type SUBSTRATE s') (count_type LINK s') (List.length (bonds s'))
    /\ (stat_substrate (stats s') + stat_links (stats s') + 1
        = List.length (particles s'))%nat.
Proof.
  destruct (between_ticks_run ts (init offsets) (between_ticks_init offsets))
    as (s & Hs & Hb).
  destruct (between_ticks_tick t s Hb) as (s' & Hs' & Hb').
  exists s, s'. do 2 (split; [done|]).
  assert (reachable s') as Hr'.
  { eapply reachable_tick; [|done]. eapply reachable_run; [|done]. apply reachable_init. }
  assert (stats s' = mkStats (count_type SUBSTRATE s') (count_type LINK s')
                       (List.length (bonds s'))) as Hst.
  { revert Hs'. unfold tick. destruct (handle_disintegration _ _); [|done].
    destruct (flush _); [|done]. by intros [= <-]. }
  split; [done|]. rewrite Hst. simpl.
  pose proof (reachable_wf _ Hr') as Hwf.
  pose proof (reachable_catalyst_kept _ Hr') as [Hc _].
  rewrite (kinds_partition (heap s') (particles s')) by apply (wf_particles _ Hwf).
  fold (catalysts s'). rewrite Hc. unfold count_type. simpl. lia.
Qed.

(** X3: No [list.remove] of the main loop fails and the loop of the flush
    ends: whatever the physics engine reports, whatever contacts the
    removals of the flush end and whatever the random draws are, every turn
    gets through the disintegration pass and the flush, and it ends with an
    empty removal queue and a registry without repetition. *)
Theorem main_loop_removals_succeed (offsets : nat -> F * F) (ts : list Tick) :
  exists s, run ts (init offsets) = Some s /\ to_remove s = [] /\ NoDup (particles s).
Proof.
  destruct (between_ticks_run ts (init offsets) (between_ticks_init offsets))
    as (s & Hs & Hwf & _ & Hq).
  exists s. split; [done|]. split; [done|apply (wf_nodup _ Hwf)].
Qed.

(** X4: In every reachable state the registry lists no particle twice, and every
    entry is a constructed particle with the radius and the capacity of its
    kind: radius 12 for the CATALYST and 8 otherwise, at most 2 connections
    for a LINK and none otherwise. *)
Theorem registry_integrity s :
  reachable s ->
  NoDup (particles s)
  /\ forall i, i ∈ particles s ->
       exists p, heap s !! i = Some p
         /\ radius p = (if decide (type p = CATALYST) then 12 else 8)%Z
         /\ max_connections p = (if decide (type p = LINK) then 2 else 0)%Z.
Proof.
  intros Hwf%reachable_wf. split; [apply (wf_nodup _ Hwf)|].
  intros i Hi. destruct (lookup_lt_is_Some_2 (heap s) i) as [p Hp];
    [by apply (wf_particles _ Hwf)|].
  exists p. split; [done|].
  pose proof (Forall_lookup_1 _ _ _ _ (wf_heap _ Hwf) Hp) as (Hm & _ & Hr).
  split; [|done]. rewrite Hr. by destruct (type p).
Qed.




End Ticks.

Section SpaceAndSetup.
Context {F : Type} `{PyFloat F}.
Implicit Types (s : Simulation F) (h : list (Particle F)).

(** *** setup_simulation *)

Lemma add_substrates_spec n k offsets s :
  heap (add_substrates n k offsets s)
  = heap s ++ ((fun j => initial_substrate offsets (k + j)) <$> seq 0 n)
  /\ particles (add_substrates n k offsets s)
     = particles s ++ seq (List.length (heap s)) n
  /\ shapes (space (add_substrates n k offsets s))
     = shapes (space s) ++ (ShapeOf <$> seq (List.length (heap s)) n)
  /\ bodies (space (add_substrates n k offsets s))
     = bodies (space s) ++ seq (List.length (heap s)) n
  /\ constraints (space (add_substrates n k offsets s)) = constraints (space s)
  /\ bonds (add_substrates n k offsets s) = bonds s
  /\ springs (add_substrates n k offsets s) = springs s
  /\ to_remove (add_substrates n k offsets s) = to_remove s
  /\ stdout (add_substrates n k offsets s) = stdout s.
Proof.
  revert k s. induction n as [|n IH]; intros k s; simpl.
  - rewrite !app_nil_r. by repeat split.
  - destruct (IH (S k) (set_particles (particles s ++ [List.length (heap s)])
                          (snd (Particle_init
                                  (fadd (fdiv (of_Z width) (of_Z 2)) (fst (offsets k)))
                                  (fadd (fdiv (of_Z height) (of_Z 2)) (snd (offsets k)))
                                  SUBSTRATE s))))
      as (Hh & Hp & Hsh & Hb & Hc & Hbo & Hsp & Hq & Ho).
    simpl in *. rewrite Hh, Hp, Hsh, Hb, Hc, Hbo, Hsp, Hq, Ho.
    rewrite !length_app. simpl. rewrite Nat.add_1_r, <- !app_assoc. simpl.
    rewrite Nat.add_0_r. repeat split; try done.
    f_equal. f_equal. rewrite <- fmap_S_seq, <- list_fmap_compose. apply list_fmap_ext.
    intros i j _. simpl. f_equal. lia.
Qed.

Lemma init_unfold (offsets : nat -> F * F) :
  init offsets
  = add_substrates num_substrate 0 offsets
      (set_particles [0%nat]
         (snd (Particle_init (fdiv (of_Z width) (of_Z 2)) (fdiv (of_Z height) (of_Z 2))
                 CATALYST (mkSim [] [] (mkSpace [] [] []) [] [] [] (mkStats 0 0 0) [])))).
Proof. reflexivity. Qed.

Lemma init_spec (offsets : nat -> F * F) :
  heap (init offsets)
  = Particle_fields (fdiv (of_Z width) (of_Z 2)) (fdiv (of_Z height) (of_Z 2)) CATALYST
    :: (initial_substrate offsets <$> seq 0 num_substrate)
  /\ particles (init offsets) = seq 0 (S num_substrate)
  /\ shapes (space (init offsets)) = ShapeOf <$> seq 0 (S num_substrate)
  /\ bodies (space (init offsets)) = seq 0 (S num_substrate)
  /\ constraints (space (init offsets)) = []
  /\ bonds (init offsets) = [] /\ springs (init offsets) = []
  /\ to_remove (init offsets) = [] /\ stdout (init offsets) = [].
Proof.
  rewrite init_unfold. generalize num_substrate. intros n.
  match goal with |- context [add_substrates n 0 offsets ?s] =>
    destruct (add_substrates_spec n 0 offsets s)
      as (-> & -> & -> & -> & -> & -> & -> & -> & ->)
  end.
  by repeat split.
Qed.

(** X6: The initial population: the catalyst at the centre of the window as
    particle 0, then one substrate per polar sample, at the centre plus the
    sample; all of them registered and in the space, in this order; no bond,
    no constraint, nothing queued, nothing printed. *)
Theorem initial_population (offsets : nat -> F * F) :
  heap (init offsets)
  = Particle_fields (fdiv (of_Z width) (of_Z 2)) (fdiv (of_Z height) (of_Z 2)) CATALYST
    :: (initial_substrate offsets <$> seq 0 num_substrate)
  /\ particles (init offsets) = seq 0 (S num_substrate)
  /\ shapes (space (init offsets)) = ShapeOf <$> seq 0 (S num_substrate)
  /\ bodies (space (init offsets)) = seq 0 (S num_substrate)
  /\ constraints (space (init offsets)) = []
  /\ bonds (init offsets) = [] /\ springs (init offsets) = []
  /\ to_remove (init offsets) = [] /\ stdout (init offsets) = [].
Proof.
  rewrite init_unfold. generalize num_substrate. intros n.
  match goal with |- context [add_substrates n 0 offsets ?s] =>
    destruct (add_substrates_spec n 0 offsets s)
      as (-> & -> & -> & -> & -> & -> & -> & -> & ->)
  end.
  by repeat split.
Qed.

End SpaceAndSetup.

Section SpaceInvariant.
Context {F : Type} `{PyFloat F}.
Implicit Types (s : Simulation F) (h : list (Particle F)).

Lemma elem_of_filter_shape (f : Shape -> bool) (l : list Shape) x :
  x ∈ List.filter f l <-> x ∈ l /\ f x = true.
Proof. rewrite !list_elem_of_In. apply filter_In. Qed.

Lemma react_space shape second s :
  shapes (space (react shape second s))
  = (shapes (space s) ++ [SensorOf (List.length (heap s))]) ++ [ShapeOf (List.length (heap s))]
  /\ bodies (space (react shape second s)) = bodies (space s) ++ [List.length (heap s)]
  /\ constraints (space (react shape second s)) = constraints (space s).
Proof. done. Qed.

Lemma disintegrate_space particle u s s' :
  disintegrate particle u s = Some s' ->
  (forall sh, sh ∈ shapes (space s) -> sh ∈ shapes (space s'))
  /\ (forall i, i ∈ bodies (space s) -> i ∈ bodies (space s'))
  /\ constraints (space s') = constraints (space s).
Proof.
  unfold disintegrate. destruct (is_type LINK (heap s) particle); [|by intros [= <-]].
  destruct (_ && _); [|by intros [= <-]].
  destruct (disconnect _ _ _ _); [|done]. intros [= <-]. simpl.
  split; [|split; [|done]]; intros x Hx; rewrite !elem_of_app; auto.
Qed.




End SpaceInvariant.

Section Springs.
Context {F : Type} `{PyFloat F}.
Implicit Types (s : Simulation F) (h : list (Particle F)).

Lemma spring_ok_grows h h' (sp : DampedSpring F) :
  grows h h' -> spring_ok h sp -> spring_ok h' sp.
Proof.
  intros Hg (Hne & Ha & Hb & Hrest). split; [done|].
  rewrite !(grows_is_type _ _ _ _ Hg) by by eapply is_type_lt. done.
Qed.

Lemma bonds_ok_transfer s s' :
  grows (heap s) (heap s') -> springs s' = springs s -> bonds s' = bonds s ->
  constraints (space s') = constraints (space s) ->
  bonds_ok s -> bonds_ok s'.
Proof.
  intros Hg Hs Hb Hc (H1 & H2 & H3). unfold bonds_ok. rewrite Hs, Hb, Hc.
  split; [done|]. split; [done|].
  eapply Forall_impl; [exact H3|]. intros sp. by apply spring_ok_grows.
Qed.

Lemma bonds_ok_create_bond p1 p2 s :
  wf s -> may_bond s p1 p2 = true -> bonds_ok s -> bonds_ok (create_bond p1 p2 s).
Proof.
  intros Hwf (Hne & H1 & H2 & _)%may_bond_true (Hb & Hc & Hs).
  assert (is_type LINK (heap s) p1 = true) as Ht1 by (apply is_type_positive_max; [done|lia]).
  assert (is_type LINK (heap s) p2 = true) as Ht2 by (apply is_type_positive_max; [done|lia]).
  unfold bonds_ok.
  change (springs (create_bond p1 p2 s))
    with (springs s ++ [mkSpring p1 p2 (fmul (of_Z (radius_of (heap s) p1)) (lit 25 10)) 150 1]).
  change (bonds (create_bond p1 p2 s)) with (bonds s ++ [List.length (springs s)]).
  change (constraints (space (create_bond p1 p2 s)))
    with (constraints (space s) ++ [List.length (springs s)]).
  rewrite length_app, Hc, Hb. simpl. split; [by rewrite Nat.add_1_r, seq_S|]. split; [done|].
  apply Forall_app. split.
  - eapply Forall_impl; [exact Hs|]. intros sp. apply spring_ok_grows, grows_create_bond.
  - apply Forall_singleton.
    apply (spring_ok_grows (heap s)); [apply grows_create_bond|].
    split; [done|]. simpl. by rewrite radius_of_link.
Qed.

Lemma bonds_ok_callback c s : wf s -> bonds_ok s -> bonds_ok (callback c s).
Proof.
  intros Hwf Hok.
  assert (forall arbiter u k, bonds_ok (handle_catalyst_substrate arbiter u k s)) as Hr.
  { intros arbiter u k.
    destruct (handle_catalyst_substrate_cases arbiter u k s) as [[-> _]|(j & _ & _ & ->)];
      [done|].
    eapply (bonds_ok_transfer s); try done. apply grows_react. }
  assert (forall arbiter, bonds_ok (handle_link_detection arbiter s)) as Hb.
  { intros arbiter.
    destruct (handle_link_detection_cases arbiter s) as [->|(p1 & p2 & _ & _ & Hm & ->)];
      [done|by apply bonds_ok_create_bond]. }
  unfold callback. destruct (_ && _); [|done].
  destruct (phase c); repeat case_bool_decide; auto.
Qed.

Lemma bonds_ok_exec o s s' : wf s -> exec o s = Some s' -> bonds_ok s -> bonds_ok s'.
Proof.
  intros Hwf He Hok. pose proof (grows_exec _ _ _ Hwf He) as Hg.
  destruct o; simpl in He; simplify_eq; try (by eapply (bonds_ok_transfer s)).
  - by apply bonds_ok_callback.
  - destruct (disintegration_loop_frame _ _ _ _ He) as (_ & Hb & _ & Hs & _).
    eapply (bonds_ok_transfer s); try done.
    clear Hg Hb Hs Hok Hwf. unfold handle_disintegration in He.
    revert He. generalize (particles s). intros l. revert u s.
    induction l as [|i l IH]; intros u s; simpl; [by intros [= <-]|].
    destruct (disintegrate i (u 0%nat) s) as [s1|] eqn:E; [|done].
    intros Hl. rewrite (IH _ _ Hl). by destruct (disintegrate_space _ _ _ _ E) as (_ & _ & ->).
  - destruct (flush_frame e s s' Hwf He) as (Hb & _ & Hs & Hc & _).
    by eapply (bonds_ok_transfer s).
Qed.

Lemma bonds_ok_init (offsets : nat -> F * F) : bonds_ok (init offsets).
Proof.
  destruct (init_spec offsets) as (_ & _ & _ & _ & Hc & Hb & Hs & _).
  unfold bonds_ok. rewrite Hb, Hs, Hc. split; [done|]. split; [done|]. by apply Forall_nil.
Qed.

Lemma reachable_bonds_ok s : reachable s -> bonds_ok s.
Proof.
  induction 1 as [offsets|o s s' Hr IH He]; [apply bonds_ok_init|].
  eapply bonds_ok_exec; [by apply reachable_wf|done..].
Qed.

(** X9: Every spring ever constructed is still a bond: the list of bonds and the
    constraints of the space both hold all the springs, in the order of
    their construction, and each spring joins two different particles that
    are LINKs, with rest length 8 * 2.5, stiffness 150 and damping 1. *)
Theorem bonds_are_link_springs s :
  reachable s ->
  bonds s = seq 0 (List.length (springs s))
  /\ constraints (space s) = bonds s
  /\ forall j sp, springs s !! j = Some sp ->
       spring_a sp <> spring_b sp
       /\ is_type LINK (heap s) (spring_a sp) = true
       /\ is_type LINK (heap s) (spring_b sp) = true
       /\ rest_length sp = fmul (of_Z 8) (lit 25 10)
       /\ stiffness sp = 150%Z /\ damping sp = 1%Z.
Proof.
  intros (Hb & Hc & Hs)%reachable_bonds_ok. split; [done|]. split; [done|].
  intros j sp Hj. exact (proj1 (Forall_lookup _ _) Hs j sp Hj).
Qed.

End Springs.

Section Ages.
Context {F : Type} `{PyFloat F}.
Implicit Types (s : Simulation F) (h : list (Particle F)).










Lemma callback_particles c s :
  particles (callback c s) = particles s
  \/ (particles (callback c s) = particles s ++ [List.length (heap s)]
      /\ exists p, heap (callback c s) = heap s ++ [p] /\ type p = LINK /\ age p = 0%Z).
Proof.
  assert (forall arbiter u k,
            particles (handle_catalyst_substrate arbiter u k s) = particles s
            \/ (particles (handle_catalyst_substrate arbiter u k s)
                = particles s ++ [List.length (heap s)]
                /\ exists p, heap (handle_catalyst_substrate arbiter u k s) = heap s ++ [p]
                             /\ type p = LINK /\ age p = 0%Z)) as Hr.
  { intros arbiter u k.
    destruct (handle_catalyst_substrate_cases arbiter u k s) as [[-> _]|(i & _ & _ & ->)];
      [by left|]. right. rewrite react_particles, react_heap. eauto. }
  assert (forall arbiter, particles (handle_link_detection arbiter s) = particles s) as Hb.
  { intros arbiter.
    destruct (handle_link_detection_cases arbiter s) as [->|(p1 & p2 & _ & _ & _ & ->)]; done. }
  unfold callback. destruct (_ && _); [|by left].
  destruct (phase c); repeat case_bool_decide; auto.
Qed.










End Ages.

Section Decay.
Context {F : Type} `{PyFloat F}.
Implicit Types (s : Simulation F) (h : list (Particle F)).

Lemma disintegrate_young i u s :
  (is_type LINK (heap s) i = true -> (age_of (heap s) i < 1000)%Z) ->
  disintegrate i u s
  = Some (if is_type LINK (heap s) i
          then set_heap (alter (fun p => set_age (age p + 1) p) i (heap s)) s else s).
Proof.
  intros Hy. unfold disintegrate. destruct (is_type LINK (heap s) i) eqn:Ht; [|done].
  specialize (Hy eq_refl). apply is_type_lookup in Ht as (p & Hp & _).
  cbv zeta. cbn [heap set_heap].
  replace (age_of (alter (fun p => set_age (age p + 1) p) i (heap s)) i)
    with (age_of (heap s) i + 1)%Z.
  2:{ unfold age_of. by rewrite list_lookup_alter_eq, Hp. }
  replace (2 * 500 <? age_of (heap s) i + 1)%Z with false by (symmetry; apply Z.ltb_ge; lia).
  done.
Qed.

Lemma disintegration_loop_young snapshot u s :
  NoDup snapshot ->
  (forall j, j ∈ snapshot -> is_type LINK (heap s) j = true -> (age_of (heap s) j < 1000)%Z) ->
  exists s', disintegration_loop snapshot u s = Some s'
    /\ to_remove s' = to_remove s /\ space s' = space s /\ particles s' = particles s
    /\ bonds s' = bonds s /\ heap_same_graph (heap s) (heap s').
Proof.
  revert u s. induction snapshot as [|i l IH]; intros u s Hnd Hy; cbn [disintegration_loop].
  - exists s. repeat split; try done. apply heap_same_graph_refl.
  - apply NoDup_cons in Hnd as [Hi Hnd].
    rewrite disintegrate_young by (apply Hy; by left).
    set (s1 := if is_type LINK (heap s) i
               then set_heap (alter (fun p => set_age (age p + 1) p) i (heap s)) s else s).
    assert (to_remove s1 = to_remove s /\ space s1 = space s /\ particles s1 = particles s
            /\ bonds s1 = bonds s /\ heap_same_graph (heap s) (heap s1)
            /\ forall j, j <> i -> age_of (heap s1) j = age_of (heap s) j)
      as (Hq & Hsp & Hp & Hb & Hsg & Ha).
    { unfold s1. destruct (is_type LINK (heap s) i).
      - repeat split; try done; [apply age_same_graph|].
        intros j Hne. simpl. unfold age_of. by rewrite list_lookup_alter_ne.
      - repeat split; try done. apply heap_same_graph_refl. }
    destruct (IH (fun k => u (S k)) s1 Hnd) as (s' & -> & Hq' & Hsp' & Hp' & Hb' & Hsg').
    { intros j Hj. rewrite (heap_same_graph_is_type _ _ _ _ Hsg), Ha by by intros ->.
      apply Hy. by right. }
    exists s'. split; [done|]. rewrite Hq', Hsp', Hp', Hb'.
    repeat split; try done. by eapply heap_same_graph_trans.
Qed.

(** X11: A LINK is safe while it is young: if every LINK of the registry is
    younger than 1000, the disintegration pass returns, whatever the random
    draws are, and it queues nothing, constructs nothing, and changes no
    list of connections; it only advances the ages. *)
Theorem young_links_never_decay s u :
  reachable s ->
  (forall j, j ∈ particles s -> is_type LINK (heap s) j = true ->
     (age_of (heap s) j < 1000)%Z) ->
  exists s', handle_disintegration u s = Some s'
    /\ to_remove s' = to_remove s /\ space s' = space s /\ particles s' = particles s
    /\ bonds s' = bonds s
    /\ List.length (heap s') = List.length (heap s)
    /\ forall j, conn (heap s') j = conn (heap s) j
                 /\ type_of (heap s') j = type_of (heap s) j.
Proof.
  intros Hr Hy.
  destruct (disintegration_loop_young (particles s) u s (wf_nodup _ (reachable_wf _ Hr)) Hy)
    as (s' & Hs' & Hq & Hsp & Hp & Hb & Hsg).
  exists s'. repeat split; try done.
  - by apply heap_same_graph_length.
  - by apply heap_same_graph_conn.
  - by apply heap_same_graph_type_of.
Qed.

(** ** The substrates of the registry *)

Lemma count_type_transfer t s s' :
  wf s -> grows (heap s) (heap s') -> particles s' = particles s ->
  count_type t s' = count_type t s.
Proof.
  intros Hwf Hg Hp. unfold count_type. rewrite Hp. f_equal. apply filter_bool_ext.
  intros i Hi. apply grows_is_type; [done|]. by apply (wf_particles _ Hwf).
Qed.

Lemma count_type_callback t c s :
  wf s ->
  count_type t (callback c s)
  = (count_type t s
     + if decide (t = LINK /\ particles (callback c s) <> particles s) then 1 else 0)%nat.
Proof.
  intros Hwf. destruct (callback_particles c s) as [Hp|(Hp & p & Hh & Ht & _)].
  - rewrite decide_False by (by intros [_ ?]).
    rewrite (count_type_transfer t s) by (done || apply grows_callback). lia.
  - unfold count_type. rewrite Hp, Hh, List.filter_app, length_app. simpl.
    rewrite is_type_app_new.
    rewrite (filter_bool_ext (is_type t (heap s ++ [p])) (is_type t (heap s)))
      by (intros i Hi; apply is_type_app_l; by apply (wf_particles _ Hwf)).
    f_equal. case_bool_decide as Hc; case_decide as Hd; simpl; try done.
    + exfalso. apply Hd. split; [congruence|]. intros Heq.
      apply (f_equal List.length) in Heq. rewrite length_app in Heq. simpl in Heq. lia.
    + destruct Hd as [-> _]. done.
Qed.

Lemma count_substrate_flush (e : nat -> Ended) s s' :
  wf s -> flush e s = Some s' -> (count_type SUBSTRATE s' <= count_type SUBSTRATE s)%nat.
Proof.
  intros Hwf Hf.
  apply (flush_inv_react
           (fun s' => (count_type SUBSTRATE s' <= count_type SUBSTRATE s)%nat))
    with (e := e) (s := s); [| | | | |exact Hwf| |exact Hf].
  - intros s1 sp HI _ _ _. exact HI.
  - intros s1 i second Hwf1 HI _ _.
    assert (count_type SUBSTRATE (react (ShapeOf i) second s1) = count_type SUBSTRATE s1)
      as ->; [|done].
    unfold count_type. rewrite react_particles, react_heap, List.filter_app, length_app.
    simpl. rewrite is_type_app_new. simpl. rewrite Nat.add_0_r. f_equal.
    apply filter_bool_ext. intros j Hj. apply is_type_app_l. by apply (wf_particles _ Hwf1).
  - intros s1 i Hwf1 HI Hi _. etransitivity; [|exact HI].
    unfold count_type.
    rewrite particles_remove_particles by (try apply (wf_nodup _ Hwf1); done).
    simpl. unfold without. rewrite filter_bool_comm. apply List.filter_length_le.
  - intros s1 HI. exact HI.
  - intros s1 _ HI _. exact HI.
  - done.
Qed.

Lemma count_substrate_exec o s s' :
  wf s -> exec o s = Some s' -> (count_type SUBSTRATE s' <= count_type SUBSTRATE s)%nat.
Proof.
  intros Hwf He. pose proof (grows_exec _ _ _ Hwf He) as Hg.
  destruct o; simpl in He; simplify_eq;
    try (by rewrite (count_type_transfer SUBSTRATE s)).
  - rewrite count_type_callback by done. rewrite decide_False by (by intros [? _]). lia.
  - destruct (disintegration_loop_frame _ _ _ _ He) as (Hp & _).
    by rewrite (count_type_transfer SUBSTRATE s).
  - by apply (count_substrate_flush e).
Qed.

Lemma count_substrate_add_substrates n k offsets s :
  wf s ->
  count_type SUBSTRATE (add_substrates n k offsets s) = (count_type SUBSTRATE s + n)%nat.
Proof.
  revert k s. induction n as [|n IH]; intros k s Hwf; simpl; [lia|].
  rewrite IH by apply (wf_register _ _ SUBSTRATE s Hwf).
  unfold count_type. simpl. rewrite List.filter_app, length_app. simpl.
  rewrite is_type_app_new. simpl.
  rewrite (filter_bool_ext (is_type SUBSTRATE (heap s ++ _)) (is_type SUBSTRATE (heap s)))
    by (intros i Hi; apply is_type_app_l; by apply (wf_particles _ Hwf)).
  lia.
Qed.

Lemma count_substrate_init (offsets : nat -> F * F) :
  count_type SUBSTRATE (init offsets) = num_substrate.
Proof.
  rewrite init_unfold. generalize num_substrate. intros n.
  set (s0 := mkSim [] [] (mkSpace [] [] []) [] [] [] (mkStats 0 0 0) []).
  assert (wf s0) as Hwf0.
  { constructor; simpl; try done; try constructor; intros i Hi; inversion Hi. }
  pose proof (wf_register (fdiv (of_Z width) (of_Z 2)) (fdiv (of_Z height) (of_Z 2))
                CATALYST s0 Hwf0) as Hwf1.
  rewrite count_substrate_add_substrates by exact Hwf1. done.
Qed.

Lemma reachable_count_substrate s :
  reachable s -> (count_type SUBSTRATE s <= num_substrate)%nat.
Proof.
  induction 1 as [offsets|o s s' Hr IH He]; [by rewrite count_substrate_init|].
  pose proof (count_substrate_exec _ _ _ (reachable_wf _ Hr) He). lia.
Qed.

(** X12: The substrates are never replenished: no operation of the engine raises
    the number of SUBSTRATE particles of the registry, so it never exceeds
    the 300 the simulation starts with; the reaction and bond callbacks
    leave it as it is (a reaction only queues its two substrates), and a
    disintegration pass leaves it as it is too. *)
Theorem substrate_count_never_grows s o s' :
  reachable s -> exec o s = Some s' ->
  (count_type SUBSTRATE s' <= count_type SUBSTRATE s <= num_substrate)%nat
  /\ (forall c, o = OpCallback c -> count_type SUBSTRATE s' = count_type SUBSTRATE s)
  /\ (forall u, o = OpDisintegration u -> count_type SUBSTRATE s' = count_type SUBSTRATE s).
Proof.
  intros Hr He. pose proof (reachable_wf _ Hr) as Hwf.
  split; [split; [by eapply count_substrate_exec|by apply reachable_count_substrate]|].
  split.
  - intros c ->. simpl in He. simplify_eq.
    rewrite count_type_callback by done. rewrite decide_False by (by intros [? _]). lia.
  - intros u ->. simpl in He.
    destruct (disintegration_loop_frame _ _ _ _ He) as (Hp & _).
    apply count_type_transfer; [done| |done]. by eapply grows_disintegration_loop.
Qed.

End Decay.

Section Orphans.
Context {F : Type} `{PyFloat F}.
Implicit Types (s : Simulation F) (h : list (Particle F)).

(** X13: No particle is ever destroyed or changes its kind: through every
    operation of the engine, each object constructed so far is still there
    with the kind, the radius and the capacity it was constructed with. *)
Theorem kinds_never_change s o s' i (p : Particle F) :
  reachable s -> exec o s = Some s' -> heap s !! i = Some p ->
  exists p', heap s' !! i = Some p' /\ type p' = type p /\ radius p' = radius p
             /\ max_connections p' = max_connections p.
Proof.
  intros Hr He Hp. exact (grows_exec o s s' (reachable_wf _ Hr) He i p Hp).
Qed.

Lemma callback_space_sup c s :
  (forall sh, sh ∈ shapes (space s) -> sh ∈ shapes (space (callback c s)))
  /\ (forall i, i ∈ bodies (space s) -> i ∈ bodies (space (callback c s))).
Proof.
  assert (forall arbiter u k,
            (forall sh, sh ∈ shapes (space s) ->
               sh ∈ shapes (space (handle_catalyst_substrate arbiter u k s)))
            /\ (forall i, i ∈ bodies (space s) ->
                  i ∈ bodies (space (handle_catalyst_substrate arbiter u k s)))) as Hr.
  { intros arbiter u k.
    destruct (handle_catalyst_substrate_cases arbiter u k s) as [[-> _]|(j & _ & _ & ->)];
      [done|].
    destruct (react_space (snd arbiter) j s) as (-> & -> & _).
    split; intros x Hx; rewrite !elem_of_app; auto. }
  assert (forall arbiter,
            (forall sh, sh ∈ shapes (space s) ->
               sh ∈ shapes (space (handle_link_detection arbiter s)))
            /\ (forall i, i ∈ bodies (space s) ->
                  i ∈ bodies (space (handle_link_detection arbiter s)))) as Hb.
  { intros arbiter.
    destruct (handle_link_detection_cases arbiter s) as [->|(p1 & p2 & _ & _ & _ & ->)];
      done. }
  unfold callback. destruct (_ && _); [|done].
  destruct (phase c); repeat case_bool_decide; auto.
Qed.

Lemma disintegration_loop_space_sup snapshot u s s' :
  disintegration_loop snapshot u s = Some s' ->
  (forall sh, sh ∈ shapes (space s) -> sh ∈ shapes (space s'))
  /\ (forall i, i ∈ bodies (space s) -> i ∈ bodies (space s')).
Proof.
  revert u s. induction snapshot as [|i l IH]; intros u s; simpl; [by intros [= <-]|].
  destruct (disintegrate i (u 0%nat) s) as [s1|] eqn:E; [|done].
  intros Hl. destruct (IH _ _ Hl) as [H1 H2].
  destruct (disintegrate_space _ _ _ _ E) as (H3 & H4 & _). split; auto.
Qed.

Lemma callback_keeps i c s :
  i ∉ particles s -> (i < List.length (heap s))%nat ->
  (i ∉ particles (callback c s))
  /\ (i < List.length (heap (callback c s)))%nat
  /\ (forall sh, owner sh = i -> sh ∈ shapes (space s) -> sh ∈ shapes (space (callback c s)))
  /\ (i ∈ bodies (space s) -> i ∈ bodies (space (callback c s))).
Proof.
  intros Hi Hlt. destruct (callback_space_sup c s) as [Hsh Hb].
  split; [|split; [|split; [intros sh _; apply Hsh|apply Hb]]].
  - destruct (callback_particles c s) as [->|(-> & _)]; [done|].
    rewrite elem_of_app, list_elem_of_singleton. intros [?| ->]; [done|lia].
  - pose proof (grows_length _ _ (grows_callback c s)). lia.
Qed.

Lemma remove_particle_keeps i (e : Ended) shape s :
  i ∉ particles s -> (i < List.length (heap s))%nat ->
  (i ∉ particles (remove_particle e shape s))
  /\ (i < List.length (heap (remove_particle e shape s)))%nat
  /\ (forall sh, owner sh = i -> sh ∈ shapes (space s) ->
        sh ∈ shapes (space (remove_particle e shape s)))
  /\ (i ∈ bodies (space s) -> i ∈ bodies (space (remove_particle e shape s))).
Proof.
  intros Hi Hlt.
  destruct (remove_particle_cases e shape s) as [(j & -> & Hj & ->)|[_ ->]]; [|done].
  assert (i <> j) as Hne by by intros ->.
  destruct (remove_sensor_frame j s) as (Hh1 & Hp1 & _).
  assert (~ i ∈ particles (separate_on_remove e (ShapeOf j) (remove_sensor j s))
          /\ (i < List.length (heap (separate_on_remove e (ShapeOf j) (remove_sensor j s))))%nat
          /\ (forall sh, owner sh = i -> sh ∈ shapes (space (remove_sensor j s)) ->
                sh ∈ shapes (space (separate_on_remove e (ShapeOf j) (remove_sensor j s))))
          /\ (i ∈ bodies (space (remove_sensor j s)) ->
              i ∈ bodies (space (separate_on_remove e (ShapeOf j) (remove_sensor j s)))))
    as (Hi2 & Hlt2 & Hsh2 & Hb2).
  { destruct (separate_on_remove_cases e (ShapeOf j) (remove_sensor j s))
      as [->|(c & _ & _ & ->)].
    - rewrite Hp1, Hh1. done.
    - apply callback_keeps; by rewrite ?Hp1, ?Hh1. }
  unfold space_remove. simpl. split; [|split; [done|split]].
  - intros Hin%particles_remove_sub. done.
  - intros sh Ho Hin. apply elem_of_filter_shape.
    split; [|apply negb_true_iff, bool_decide_eq_false; intros ->; simpl in Ho; congruence].
    apply Hsh2; [done|]. unfold remove_sensor. destruct (has_sensor (heap s) j); [|done].
    simpl. apply elem_of_filter_shape. split; [done|].
    apply negb_true_iff, bool_decide_eq_false. intros ->. simpl in Ho. congruence.
  - intros Hin. apply elem_of_filter_bool.
    split; [|by apply negb_true_iff, bool_decide_eq_false].
    apply Hb2. unfold remove_sensor. by destruct (has_sensor (heap s) j).
Qed.

Lemma flush_loop_keeps i fuel k (e : nat -> Ended) s s' :
  flush_loop fuel k e s = Some s' ->
  i ∉ particles s -> (i < List.length (heap s))%nat ->
  (i ∉ particles s')
  /\ (forall sh, owner sh = i -> sh ∈ shapes (space s) -> sh ∈ shapes (space s'))
  /\ (i ∈ bodies (space s) -> i ∈ bodies (space s')).
Proof.
  revert k s. induction fuel as [|fuel IH]; intros k s; simpl.
  - destruct (to_remove s !! k); [done|]. by intros [= <-].
  - destruct (to_remove s !! k) as [m|]; [|by intros [= <-]].
    destruct (flush_one (e k) m s) as [s1|] eqn:E1; [|done]. intros Hl Hi Hlt.
    assert (~ i ∈ particles s1 /\ (i < List.length (heap s1))%nat
            /\ (forall sh, owner sh = i -> sh ∈ shapes (space s) -> sh ∈ shapes (space s1))
            /\ (i ∈ bodies (space s) -> i ∈ bodies (space s1))) as (H1 & H2 & H3 & H4).
    { unfold flush_one, remove_if_shape in E1.
      assert (~ i ∈ particles (remove_if_shape (e k) m s)
              /\ (i < List.length (heap (remove_if_shape (e k) m s)))%nat
              /\ (forall sh, owner sh = i -> sh ∈ shapes (space s) ->
                    sh ∈ shapes (space (remove_if_shape (e k) m s)))
              /\ (i ∈ bodies (space s) -> i ∈ bodies (space (remove_if_shape (e k) m s))))
        as Hstep.
      { unfold remove_if_shape. destruct (fst m); [by apply remove_particle_keeps|done]. }
      unfold remove_if_shape in Hstep.
      destruct (snd m) as [bond|]; [|by injection E1 as <-].
      destruct (list_remove bond _); [|done]. by injection E1 as <-. }
    destruct (IH _ _ Hl H1 H2) as (H5 & H6 & H7). split; [done|]. split; auto.
Qed.

(** X14: A particle that is out of the registry never comes back, and nothing
    can take it out of the space: through every operation of the engine it
    stays unregistered, and each of its shapes and its body stay in the
    space if they are there.  This is the lot of the two substrates a
    disintegration constructs without registering them. *)
Theorem unregistered_stay_in_space s o s' i :
  exec o s = Some s' ->
  i ∉ particles s -> (i < List.length (heap s))%nat ->
  (i ∉ particles s')
  /\ (forall sh, owner sh = i -> sh ∈ shapes (space s) -> sh ∈ shapes (space s'))
  /\ (i ∈ bodies (space s) -> i ∈ bodies (space s')).
Proof.
  intros He Hi Hlt.
  destruct o; simpl in He; simplify_eq; try done.
  - destruct (callback_keeps i c s Hi Hlt) as (? & _ & ? & ?). done.
  - destruct (disintegration_loop_frame _ _ _ _ He) as (-> & _).
    destruct (disintegration_loop_space_sup _ _ _ _ He) as [Hsh Hb].
    split; [done|]. split; [intros sh _; apply Hsh|apply Hb].
  - unfold flush in He. destruct (flush_loop _ _ _ _) as [s1|] eqn:E; [|done]. simplify_eq.
    exact (flush_loop_keeps i _ _ _ _ _ E Hi Hlt).
Qed.

Lemma push_spec g (p : Particle F) :
  type (push g p) = type p /\ radius (push g p) = radius p
  /\ connections (push g p) = connections p
  /\ max_connections (push g p) = max_connections p /\ age (push g p) = age p
  /\ position (body (push g p)) = position (body p)
  /\ velocity (body (push g p)) = velocity (body p)
  /\ (type p = CATALYST -> push g p = p)
  /\ (type p <> CATALYST ->
      exists rest,
        applied (body (push g p))
        = applied (body p) ++ (Vec2d.mk (fst g) (snd g), origin) :: rest
        /\ (fltb (of_Z 200) (Vec2d.get_distance center (position (body p))) = false ->
            rest = [])
        /\ (fltb (of_Z 200) (Vec2d.get_distance center (position (body p))) = true ->
            exists f, rest = [(f, origin)])).
Proof.
  unfold push. case_bool_decide as Ht; simpl.
  - repeat split; try done.
  - change (of_Z confinement_radius) with (of_Z 200).
    destruct (fltb (of_Z 200) _) eqn:E; simpl.
    + repeat split; try done. intros _. eexists. rewrite <- app_assoc. simpl.
      split; [done|]. split; [done|]. intros _. eauto.
    + repeat split; try done. intros _. exists []. split; [done|]. split; [done|]. done.
Qed.

(** X15: The force field on any float arithmetic and whatever [** 2]
    returns: it moves no particle and changes no kind, radius, connection
    or age; it leaves the catalyst and the particles out of the registry as
    they are, and gives each other particle its Brownian force, followed by
    one confinement force exactly when [get_distance], computed in that
    arithmetic, finds the particle farther than 200 from the centre. *)
Theorem force_field_any_arithmetic s g i (p : Particle F) :
  reachable s -> heap s !! i = Some p ->
  exists p', heap (apply_brownian_motion g s) !! i = Some p'
    /\ type p' = type p /\ radius p' = radius p /\ connections p' = connections p
    /\ max_connections p' = max_connections p /\ age p' = age p
    /\ position (body p') = position (body p)
    /\ velocity (body p') = velocity (body p)
    /\ (type p = CATALYST \/ i ∉ particles s -> p' = p)
    /\ forall k, particles s !! k = Some i -> type p <> CATALYST ->
         exists rest,
           applied (body p')
           = applied (body p) ++ (Vec2d.mk (fst (g k)) (snd (g k)), origin) :: rest
           /\ (fltb (of_Z 200) (Vec2d.get_distance center (position (body p))) = false ->
               rest = [])
           /\ (fltb (of_Z 200) (Vec2d.get_distance center (position (body p))) = true ->
               exists f, rest = [(f, origin)]).
Proof.
  intros Hr Hp. pose proof (wf_nodup _ (reachable_wf _ Hr)) as Hnd.
  destruct (brownian_loop_lookup (particles s) g (heap s) Hnd) as [Hin Hout].
  unfold apply_brownian_motion. cbn [heap set_heap].
  destruct (decide (i ∈ particles s)) as [Hi|Hi].
  - destruct (proj1 (list_elem_of_lookup _ _) Hi) as [k Hk].
    exists (push (g k) p). rewrite (Hin k i Hk), Hp.
    destruct (push_spec (g k) p) as (H1 & H2 & H3 & H4 & H5 & H6 & H7 & H8 & H9).
    do 8 (split; [done|]). split.
    + intros [Ht|Hno]; [by apply H8|done].
    + intros k' Hk' Ht. rewrite (NoDup_lookup _ _ _ _ Hnd Hk' Hk). by apply H9.
  - exists p. rewrite (Hout i Hi). do 9 (split; [done|]).
    intros k Hk _. exfalso. apply Hi. exact (list_elem_of_lookup_2 _ _ _ Hk).
Qed.

End Orphans.

Section Ring.
Local Open Scope R_scope.
Implicit Types (s : Simulation R) (p : Particle R) (v : Vec2d R).





End Ring.

Section Connections.
Context {F : Type} `{PyFloat F}.
Implicit Types (s : Simulation F) (h : list (Particle F)).

Lemma connections_joined_sub s s' :
  (forall i j, j ∈ conn (heap s') i -> j ∈ conn (heap s) i) ->
  (forall sp, sp ∈ springs s -> sp ∈ springs s') ->
  connections_joined s -> connections_joined s'.
Proof.
  intros Hc Hs Hok i j Hj%Hc. destruct (Hok i j Hj) as (sp & Hsp & Hab).
  exists sp. split; [by apply Hs|done].
Qed.

Lemma connections_joined_create_bond p1 p2 s :
  may_bond s p1 p2 = true -> connections_joined s -> connections_joined (create_bond p1 p2 s).
Proof.
  intros (Hne & H1 & H2 & _)%may_bond_true Hok i j.
  rewrite create_bond_conn by (done || (apply max_connections_positive; lia)).
  assert (forall a b, joined s a b -> joined (create_bond p1 p2 s) a b) as Hold.
  { intros a b (sp & Hsp & Hab). exists sp. split; [|done].
    change (springs (create_bond p1 p2 s)) with (springs s ++ [mkSpring p1 p2
      (fmul (of_Z (radius_of (heap s) p1)) (lit 25 10)) 150 1]).
    apply elem_of_app. by left. }
  assert (joined (create_bond p1 p2 s) p1 p2 /\ joined (create_bond p1 p2 s) p2 p1)
    as [Hnew1 Hnew2].
  { split; eexists; (split; [apply elem_of_app; right; apply list_elem_of_singleton; done|]);
      simpl; auto. }
  repeat case_decide; subst.
  - intros [Hj| ->%list_elem_of_singleton]%elem_of_app; [by apply Hold, Hok|done].
  - intros [Hj| ->%list_elem_of_singleton]%elem_of_app; [by apply Hold, Hok|done].
  - intros Hj. by apply Hold, Hok.
Qed.

Lemma connections_joined_callback c s :
  connections_joined s -> connections_joined (callback c s).
Proof.
  intros Hok.
  assert (forall arbiter u k,
            connections_joined (handle_catalyst_substrate arbiter u k s)) as Hr.
  { intros arbiter u k.
    destruct (handle_catalyst_substrate_cases arbiter u k s) as [[-> _]|(j & _ & _ & ->)];
      [done|].
    eapply (connections_joined_sub s); try done.
    intros i x. rewrite react_heap. by rewrite conn_app_empty. }
  assert (forall arbiter, connections_joined (handle_link_detection arbiter s)) as Hb.
  { intros arbiter.
    destruct (handle_link_detection_cases arbiter s) as [->|(p1 & p2 & _ & _ & Hm & ->)];
      [done|by apply connections_joined_create_bond]. }
  unfold callback. destruct (_ && _); [|done].
  destruct (phase c); repeat case_bool_decide; auto.
Qed.

Lemma disconnect_sub fuel k particle h h' :
  disconnect fuel k particle h = Some h' ->
  forall i j, j ∈ conn h' i -> j ∈ conn h i.
Proof.
  revert k h. induction fuel as [|fuel IH]; intros k h; simpl; [by intros [= <-]|].
  destruct (conn h particle !! k) as [connected|]; [|by intros [= <-]].
  destruct (list_remove particle (conn h connected)) as [l|] eqn:El; [|done].
  intros Hd i j Hj. apply (IH _ _ Hd) in Hj.
  assert (is_Some (h !! connected)) as Hsome.
  { destruct (h !! connected) as [p|] eqn:Hp; [eauto|].
    unfold conn in El. rewrite Hp in El. simpl in El. done. }
  rewrite conn_set_connections in Hj by done. case_decide; [|done]. subst.
  by eapply list_remove_elem_of.
Qed.

Lemma disintegrate_conn_sub particle u s s' :
  disintegrate particle u s = Some s' ->
  forall i j, j ∈ conn (heap s') i -> j ∈ conn (heap s) i.
Proof.
  unfold disintegrate. destruct (is_type LINK (heap s) particle); [|by intros [= <-]].
  assert (forall i, conn (alter (fun p => set_age (age p + 1) p) particle (heap s)) i
                    = conn (heap s) i) as Hage
    by (intros i; apply heap_same_graph_conn, age_same_graph).
  simpl. destruct (_ && _).
  - destruct (disconnect _ _ _ _) as [h|] eqn:D; [|done]. intros [= <-] i j. simpl.
    rewrite !conn_app_empty by done. intros Hj%(disconnect_sub _ _ _ _ _ D).
    by rewrite (Hage i) in Hj.
  - intros [= <-] i j. simpl. by rewrite (Hage i).
Qed.

Lemma disintegration_loop_conn_sub snapshot u s s' :
  disintegration_loop snapshot u s = Some s' ->
  forall i j, j ∈ conn (heap s') i -> j ∈ conn (heap s) i.
Proof.
  revert u s. induction snapshot as [|x l IH]; intros u s; simpl; [by intros [= <-]|].
  destruct (disintegrate x (u 0%nat) s) as [s1|] eqn:E; [|done].
  intros Hl i j Hj. eapply disintegrate_conn_sub; [done|]. by eapply IH.
Qed.

Lemma connections_joined_same_graph s s' :
  heap_same_graph (heap s) (heap s') -> springs s' = springs s ->
  connections_joined s -> connections_joined s'.
Proof.
  intros Hsg Hs. apply connections_joined_sub; [|by rewrite Hs].
  intros i j. by rewrite (heap_same_graph_conn _ _ i Hsg).
Qed.

Lemma connections_joined_exec o s s' :
  wf s -> exec o s = Some s' -> connections_joined s -> connections_joined s'.
Proof.
  intros Hwf He. destruct o; simpl in He; simplify_eq.
  - apply connections_joined_same_graph; [apply move_same_graph|done].
  - apply connections_joined_callback.
  - apply connections_joined_same_graph; [apply brownian_loop_same_graph|done].
  - destruct (disintegration_loop_frame _ _ _ _ He) as (_ & _ & _ & Hs & _).
    apply connections_joined_sub; [by eapply disintegration_loop_conn_sub|by rewrite Hs].
  - apply connections_joined_same_graph; [apply boundary_same_graph|done].
  - intros Hok. revert Hwf Hok He. apply (flush_inv connections_joined).
    + intros s1 sp Hok _ _ _. revert Hok. by apply connections_joined_sub.
    + intros s1 c _ Hok _. by apply connections_joined_callback.
    + intros s1 i _ Hok _ _. revert Hok. by apply connections_joined_sub.
    + intros s1 Hok. revert Hok. by apply connections_joined_sub.
    + intros s1 _ Hok _. revert Hok. by apply connections_joined_sub.
  - by apply connections_joined_sub.
Qed.

Lemma conn_init (offsets : nat -> F * F) i : conn (heap (init offsets)) i = [].
Proof.
  destruct (init_spec offsets) as (-> & _).
  generalize (seq 0 num_substrate). intros l. unfold conn.
  destruct i as [|i]; [done|]. simpl.
  rewrite list_lookup_fmap. by destruct (l !! i).
Qed.

Lemma connections_joined_init (offsets : nat -> F * F) : connections_joined (init offsets).
Proof. intros i j. rewrite conn_init. by intros ?%not_elem_of_nil. Qed.

Lemma reachable_connections_joined s : reachable s -> connections_joined s.
Proof.
  induction 1 as [offsets|o s s' Hr IH He]; [apply connections_joined_init|].
  eapply connections_joined_exec; [by apply reachable_wf|done..].
Qed.

(** X17: Every connection is backed by a bond: in every reachable state, if
    [j] is in the connections of [i], a spring of [self.bonds] joins [i] and
    [j]; so both are LINKs, they are two different particles, and no
    particle is connected to itself.  (The converse does not hold: a
    disintegration takes the connection away and leaves the spring.) *)
Theorem connections_are_bonded s i j :
  reachable s -> j ∈ conn (heap s) i ->
  (exists k sp, bonds s !! k = Some k /\ springs s !! k = Some sp
     /\ ((spring_a sp = i /\ spring_b sp = j) \/ (spring_a sp = j /\ spring_b sp = i)))
  /\ is_type LINK (heap s) i = true /\ is_type LINK (heap s) j = true /\ i <> j.
Proof.
  intros Hr Hj.
  destruct (reachable_connections_joined s Hr i j Hj) as (sp & Hsp & Hab).
  destruct (reachable_bonds_ok s Hr) as (Hb & _ & Hok).
  apply list_elem_of_lookup in Hsp as [k Hk].
  pose proof (proj1 (Forall_lookup _ _) Hok k sp Hk) as (Hne & Ha & Hb' & _).
  split.
  - exists k, sp. split; [|done]. rewrite Hb. apply lookup_seq. split; [done|].
    by eapply lookup_lt_Some.
  - destruct Hab as [[<- <-]|[<- <-]]; repeat split; done.
Qed.

End Connections.

Lemma connections_are_bonded_witness :
  (exists k sp, bonds bonded !! k = Some k /\ springs bonded !! k = Some sp
     /\ ((spring_a sp = 301%nat /\ spring_b sp = 302%nat)
         \/ (spring_a sp = 302%nat /\ spring_b sp = 301%nat)))
  /\ is_type LINK (heap bonded) 301 = true /\ is_type LINK (heap bonded) 302 = true
  /\ 301%nat <> 302%nat.
Proof.
  apply (connections_are_bonded bonded 301 302); [apply reachable_bonded|].
  apply (bool_decide_unpack _). vm_compute. exact I.
Defined.

Section Placement.
Local Open Scope R_scope.
Implicit Types (s : Simulation R) (p : Particle R) (v : Vec2d R).

Lemma length_polar a rho : 0 <= rho -> Vec2d.length (Vec2d.mk (rho * cos a) (rho * sin a)) = rho.
Proof.
  intros Hr. unfold Vec2d.length. simpl.
  replace (rho * cos a * (rho * cos a) + rho * sin a * (rho * sin a))
    with (rho * rho * (Rsqr (sin a) + Rsqr (cos a))) by (unfold Rsqr; ring).
  rewrite sin2_cos2, Rmult_1_r. by apply sqrt_square.
Qed.

(** X18: The initial substrates are placed by their polar sample, in real
    arithmetic: the k-th substrate of a fresh simulation is registered, and
    its distance to the centre of the window is the radius [r] drawn for
    it, so it is inside the circle of radius 200 when [r] is at most 200. *)
Theorem initial_substrates_in_circle (angle r : nat -> R) (k : nat) :
  (k < num_substrate)%nat -> 0 <= r k ->
  exists p, heap (init (polar angle r)) !! S k = Some p
    /\ S k ∈ particles (init (polar angle r))
    /\ type p = SUBSTRATE
    /\ Vec2d.get_distance center (position (body p)) = r k
    /\ (r k <= 200 -> Vec2d.get_distance center (position (body p)) <= 200).
Proof.
  intros Hk Hr. destruct (init_spec (polar angle r)) as (Hh & Hp & _).
  rewrite Hh, Hp. clear Hh Hp. revert Hk. generalize num_substrate. intros n Hk.
  exists (initial_substrate (polar angle r) k). split.
  - change ((initial_substrate (polar angle r) <$> seq 0 n) !! k
            = Some (initial_substrate (polar angle r) k)).
    by rewrite list_lookup_fmap, lookup_seq_lt.
  - split; [apply elem_of_seq; lia|]. split; [done|].
    assert (Vec2d.get_distance center (position (body (initial_substrate (polar angle r) k)))
            = r k) as ->; [|done].
    change (position (body (initial_substrate (polar angle r) k)))
      with (Vec2d.add center (Vec2d.mk (r k * cos (angle k)) (r k * sin (angle k)))).
    rewrite get_distance_offset. by apply length_polar.
Qed.

Lemma sqrt_halves a b :
  sqrt (a / 2 * (a / 2) + b / 2 * (b / 2)) = sqrt (a * a + b * b) / 2.
Proof.
  replace (a / 2 * (a / 2) + b / 2 * (b / 2)) with (a * (/ 2) * (a * (/ 2)) + b * (/ 2) * (b * (/ 2)))
    by (unfold Rdiv; ring).
  rewrite sqrt_scaled by lra. unfold Rdiv. ring.
Qed.

Lemma midpoint_halfway (a b : Vec2d R) :
  Vec2d.get_distance (Vec2d.mk (fst (midpoint a b)) (snd (midpoint a b))) a = distance a b / 2
  /\ Vec2d.get_distance (Vec2d.mk (fst (midpoint a b)) (snd (midpoint a b))) b
     = distance a b / 2.
Proof.
  destruct a as [ax ay], b as [bx by']. unfold Vec2d.get_distance, distance, midpoint. simpl.
  rewrite <- !sqrt_halves. split; f_equal; field.
Qed.

(** X19: A LINK is born halfway between its reactants, in real arithmetic:
    for the substrate of the collision and any neighbour the handler may
    choose, the neighbour is a registered SUBSTRATE other than the
    substrate of the collision, less than 40 away from it, and the new LINK
    is at the same distance from both, half the distance between them, so
    less than 20 from each. *)
Theorem link_born_between_reactants s shape second :
  second ∈ nearby_substrates s shape ->
  second ∈ particles s /\ is_type SUBSTRATE (heap s) second = true
  /\ ShapeOf second <> shape
  /\ distance (position_of (heap s) (owner shape)) (position_of (heap s) second) < 40
  /\ Vec2d.get_distance (position (body (new_link shape second s)))
                        (position_of (heap s) (owner shape))
     = distance (position_of (heap s) (owner shape)) (position_of (heap s) second) / 2
  /\ Vec2d.get_distance (position (body (new_link shape second s)))
                        (position_of (heap s) second)
     = distance (position_of (heap s) (owner shape)) (position_of (heap s) second) / 2
  /\ Vec2d.get_distance (position (body (new_link shape second s)))
                        (position_of (heap s) second) < 20.
Proof.
  intros Hin. pose proof (nearby_substrates_elem _ _ _ Hin) as (Hp & Ht & Hne).
  apply elem_of_filter_bool in Hin as [_ Hf].
  apply andb_prop in Hf as [_ Hd]. apply Rltb_true in Hd.
  change (@of_Z R ideal 40) with 40 in Hd.
  destruct (midpoint_halfway (position_of (heap s) (owner shape))
                             (position_of (heap s) second)) as [H1 H2].
  split; [done|]. split; [done|]. split; [congruence|]. split; [done|].
  split; [exact H1|]. split; [exact H2|].
  change (Vec2d.get_distance (position (body (new_link shape second s)))
                             (position_of (heap s) second))
    with (Vec2d.get_distance
            (Vec2d.mk (fst (midpoint (position_of (heap s) (owner shape))
                                     (position_of (heap s) second)))
                      (snd (midpoint (position_of (heap s) (owner shape))
                                     (position_of (heap s) second))))
            (position_of (heap s) second)).
  rewrite H2. lra.
Qed.

End Placement.

Lemma initial_substrates_in_circle_witness :
  exists p, heap (init (polar (fun _ => 0%R) (fun _ => 100%R))) !! 1%nat = Some p
    /\ 1%nat ∈ particles (init (polar (fun _ => 0%R) (fun _ => 100%R)))
    /\ type p = SUBSTRATE
    /\ Vec2d.get_distance center (position (body p)) = 100%R
    /\ (100 <= 200 -> Vec2d.get_distance center (position (body p)) <= 200)%R.
Proof.
  apply (initial_substrates_in_circle (fun _ => 0%R) (fun _ => 100%R) 0).
  - unfold num_substrate. lia.
  - lra.
Defined.

Lemma link_born_between_reactants_witness :
  (152%nat ∈ particles freshR /\ is_type SUBSTRATE (heap freshR) 152 = true
   /\ ShapeOf 152 <> ShapeOf 151
   /\ distance (position_of (heap freshR) (owner (ShapeOf 151)))
               (position_of (heap freshR) 152) < 40
   /\ Vec2d.get_distance (position (body (new_link (ShapeOf 151) 152 freshR)))
                         (position_of (heap freshR) (owner (ShapeOf 151)))
      = distance (position_of (heap freshR) (owner (ShapeOf 151)))
                 (position_of (heap freshR) 152) / 2
   /\ Vec2d.get_distance (position (body (new_link (ShapeOf 151) 152 freshR)))
                         (position_of (heap freshR) 152)
      = distance (position_of (heap freshR) (owner (ShapeOf 151)))
                 (position_of (heap freshR) 152) / 2
   /\ Vec2d.get_distance (position (body (new_link (ShapeOf 151) 152 freshR)))
                         (position_of (heap freshR) 152) < 20)%R.
Proof.
  apply (link_born_between_reactants freshR (ShapeOf 151) 152).
  unfold nearby_substrates. apply elem_of_filter_bool. split.
  - apply (bool_decide_unpack _). vm_compute. exact I.
  - apply andb_true_intro. split; [vm_compute; reflexivity|].
    apply Rltb_true.
    change (position_of (heap freshR) (owner (ShapeOf 151)))
      with (Vec2d.mk (800 / 2 + 0)%R (800 / 2 + 0)%R).
    change (position_of (heap freshR) 152)
      with (Vec2d.mk (800 / 2 + 1)%R (800 / 2 + 0)%R).
    unfold distance. simpl.
    replace ((800 / 2 + 0 - (800 / 2 + 1)) * (800 / 2 + 0 - (800 / 2 + 1))
             + (800 / 2 + 0 - (800 / 2 + 0)) * (800 / 2 + 0 - (800 / 2 + 0)))%R
      with (1 * 1)%R by lra.
    rewrite sqrt_square by lra. lra.
Defined.

(** ** The properties above, on the example states *)

Lemma one_catalyst_forever_witness :
  catalysts second_reaction = [0%nat] /\ count_type CATALYST second_reaction = 1%nat
  /\ ~ pending second_reaction 0.
Proof. exact (one_catalyst_forever second_reaction reachable_second_reaction). Defined.

Lemma registry_integrity_witness :
  NoDup (particles bonded)
  /\ forall i, i ∈ particles bonded ->
       exists p, heap bonded !! i = Some p
         /\ radius p = (if decide (type p = CATALYST) then 12 else 8)%Z
         /\ max_connections p = (if decide (type p = LINK) then 2 else 0)%Z.
Proof. exact (registry_integrity bonded reachable_bonded). Defined.



Lemma bonds_are_link_springs_witness :
  bonds bonded = seq 0 (List.length (springs bonded))
  /\ constraints (space bonded) = bonds bonded
  /\ forall j sp, springs bonded !! j = Some sp ->
       spring_a sp <> spring_b sp
       /\ is_type LINK (heap bonded) (spring_a sp) = true
       /\ is_type LINK (heap bonded) (spring_b sp) = true
       /\ rest_length sp = fmul (of_Z 8) (lit 25 10)
       /\ stiffness sp = 150%Z /\ damping sp = 1%Z.
Proof. exact (bonds_are_link_springs bonded reachable_bonded). Defined.

Lemma young_links_never_decay_witness :
  exists s', handle_disintegration (fun _ => of_Z 0) bonded = Some s'
    /\ to_remove s' = to_remove bonded /\ space s' = space bonded
    /\ particles s' = particles bonded /\ bonds s' = bonds bonded
    /\ List.length (heap s') = List.length (heap bonded)
    /\ forall j, conn (heap s') j = conn (heap bonded) j
                 /\ type_of (heap s') j = type_of (heap bonded) j.
Proof.
  apply (young_links_never_decay bonded (fun _ => of_Z 0) reachable_bonded).
  apply (proj1 (Forall_forall
                  (fun j => is_type LINK (heap bonded) j = true
                            -> (age_of (heap bonded) j < 1000)%Z)
                  (particles bonded))).
  apply (bool_decide_unpack _). vm_compute. exact I.
Defined.

Lemma substrate_count_never_grows_witness :
  (count_type SUBSTRATE flushed <= count_type SUBSTRATE second_reaction <= num_substrate)%nat.
Proof.
  assert (flush quiet second_reaction = Some flushed) as Hf by (vm_compute; reflexivity).
  exact (proj1 (substrate_count_never_grows second_reaction (OpFlush quiet) flushed
                  reachable_second_reaction Hf)).
Defined.

Lemma kinds_never_change_witness :
  exists p, heap second_reaction !! 301%nat = Some p
    /\ exists p', heap bonded !! 301%nat = Some p' /\ type p' = type p
         /\ radius p' = radius p /\ max_connections p' = max_connections p.
Proof.
  eexists. split; [vm_compute; reflexivity|].
  apply (kinds_never_change second_reaction (OpCallback overlap) bonded 301);
    [apply reachable_second_reaction|reflexivity|vm_compute; reflexivity].
Defined.

Lemma unregistered_stay_in_space_witness :
  ShapeOf 303 ∈ shapes (space decayed) /\ 303%nat ∈ bodies (space decayed)
  /\ pending decayed 301
  /\ (303%nat ∉ particles swept)
  /\ (forall sh, owner sh = 303%nat -> sh ∈ shapes (space decayed) ->
        sh ∈ shapes (space swept))
  /\ (303%nat ∈ bodies (space decayed) -> 303%nat ∈ bodies (space swept)).
Proof.
  split; [apply (bool_decide_unpack _); vm_compute; exact I|].
  split; [apply (bool_decide_unpack _); vm_compute; exact I|].
  split; [apply (bool_decide_unpack _); vm_compute; exact I|].
  apply (unregistered_stay_in_space decayed (OpFlush quiet) swept 303).
  - vm_compute. reflexivity.
  - apply (bool_decide_unpack _). vm_compute. exact I.
  - vm_compute. lia.
Defined.

Lemma force_field_any_arithmetic_witness :
  exists p, heap bonded !! 301%nat = Some p
    /\ exists p', heap (apply_brownian_motion calm bonded) !! 301%nat = Some p'
         /\ type p' = type p /\ radius p' = radius p /\ connections p' = connections p
         /\ max_connections p' = max_connections p /\ age p' = age p
         /\ position (body p') = position (body p)
         /\ velocity (body p') = velocity (body p)
         /\ (type p = CATALYST \/ 301%nat ∉ particles bonded -> p' = p)
         /\ forall k, particles bonded !! k = Some 301%nat -> type p <> CATALYST ->
              exists rest,
                applied (body p')
                = applied (body p) ++ (Vec2d.mk (fst (calm k)) (snd (calm k)), origin) :: rest
                /\ (fltb (of_Z 200) (Vec2d.get_distance center (position (body p))) = false ->
                    rest = [])
                /\ (fltb (of_Z 200) (Vec2d.get_distance center (position (body p))) = true ->
                    exists f, rest = [(f, origin)]).
Proof.
  eexists. split; [vm_compute; reflexivity|].
  apply (force_field_any_arithmetic bonded calm 301);
    [apply reachable_bonded|vm_compute; reflexivity].
Defined.

